(** * Kensho: the client-side state, persistence and reconciliation layer

    A shallow embedding of the pure and state-passing parts of
    [CulturalCompass.tsx] (recommendation mapper, itinerary reconciler,
    autoplan, preference migration, persistence effects) and of
    [MapInterface.tsx] (map location projector).

    Conventions of the embedding.
    - JavaScript strings are [string]s of 8-bit characters; [toLowerCase]
      acts on the ASCII letters.
    - JavaScript numbers that the code only compares, adds, multiplies and
      divides are rationals ([Q]); the radar coordinates, which go through
      [Math.cos] and [Math.sin], are real numbers ([R]).  Rounding of
      IEEE doubles is not modelled.
    - [Math.random()] is an injected source: the draw of the i-th call.
    - [JSON.parse] belongs to the platform: it is a parameter returning
      [None] where the platform throws a [SyntaxError].
    - The module [utils/database] ([kenshoDb]) is an external collaborator:
      every call to it is recorded, in order, as a [DbOp]. *)

From Stdlib Require Import String Ascii List Bool Arith Lia ZArith QArith.
From Stdlib Require Import Reals Qreals Psatz Permutation Sorted DecimalString.
From Stdlib Require DecimalNat.
Import ListNotations.

Set Implicit Arguments.
Set Warnings "-register-all".

(** ** JavaScript strings *)

Module JsString.

Definition lower_ascii (c : ascii) : ascii :=
  let n := nat_of_ascii c in
  if (65 <=? n)%nat && (n <=? 90)%nat then ascii_of_nat (n + 32) else c.

(** [s.toLowerCase()] *)
Fixpoint toLowerCase (s : string) : string :=
  match s with
  | EmptyString => EmptyString
  | String c s' => String (lower_ascii c) (toLowerCase s')
  end.

(** [s.startsWith(k)] *)
Fixpoint startsWith (s k : string) {struct k} : bool :=
  match k, s with
  | EmptyString, _ => true
  | String _ _, EmptyString => false
  | String a k', String b s' => Ascii.eqb a b && startsWith s' k'
  end.

(** [s.includes(k)]: [k] occurs in [s] at some position. *)
Fixpoint includes (s k : string) : bool :=
  match s with
  | EmptyString => startsWith s k
  | String _ s' => startsWith s k || includes s' k
  end.

(** The declarative reading of [includes]. *)
Definition occurs_in (k s : string) : Prop :=
  exists pre post : string, s = (pre ++ k ++ post)%string.

(** JavaScript truthiness of a string: the empty string is falsy. *)
Definition truthy (s : string) : bool :=
  match s with EmptyString => false | String _ _ => true end.

(** [a || b] on an optional string operand [a] and a string literal [b]:
    [undefined], [null] and the empty string all yield [b]. *)
Definition or_else (a : option string) (b : string) : string :=
  match a with
  | Some s => if truthy s then s else b
  | None => b
  end.

End JsString.
Import JsString.

(** ** Segments and tags *)

Inductive Segment : Set := dine | listen | see | explore.

(** A tag of an API entity: [{ name, type }]. *)
Record Tag : Set := mkTag { tag_name : string; tag_type : string }.

Definition dine_keywords : list string :=
  ["restaurant"; "hotel"; "bar"; "cafe"; "dining"; "food"]%string.
Definition listen_keywords : list string :=
  ["music"; "concert"; "record"; "jazz"]%string.
Definition see_keywords : list string :=
  ["museum"; "art"; "gallery"; "theatre"; "view"; "landmark"]%string.

(** [t.includes(k1) || t.includes(k2) || ...] *)
Definition includes_any (kws : list string) (t : string) : bool :=
  existsb (fun k => includes t k) kws.

(** [mapTagsToSegment]; the argument is [None] when the caller passes
    [undefined], in which case the default parameter [[]] applies. *)
Definition mapTagsToSegment (tags : option (list Tag)) : Segment :=
  let tags := match tags with Some l => l | None => [] end in
  let tagNames := map (fun t => toLowerCase (tag_name t)) tags in
  if existsb (includes_any dine_keywords) tagNames then dine
  else if existsb (includes_any listen_keywords) tagNames then listen
  else if existsb (includes_any see_keywords) tagNames then see
  else explore.

(** Some tag of the list, once lower-cased, contains one of the keywords. *)
Definition mentions (kws : list string) (tags : list Tag) : Prop :=
  exists t k, In t tags /\ In k kws /\ occurs_in k (toLowerCase (tag_name t)).

(** ** JavaScript numbers and JSON values *)

Local Open Scope Q_scope.

(** Truthiness of a number: [0] is falsy (there is no [NaN] among the
    rationals). *)
Definition truthy_number (q : Q) : bool := negb (Qeq_bool q 0).

(** What [JSON.parse] returns. *)
Inductive JsonValue : Type :=
| JNull
| JBool (b : bool)
| JNumber (q : Q)
| JString (s : string)
| JArray (items : list JsonValue)
| JObject (fields : list (string * JsonValue)).

(** The own property [key] of a parsed object: the last binding wins. *)
Fixpoint get_field (key : string) (fields : list (string * JsonValue))
  : option JsonValue :=
  match fields with
  | [] => None
  | (k, v) :: rest =>
      match get_field key rest with
      | Some w => Some w
      | None => if String.eqb k key then Some v else None
      end
  end.

(** ** The data model *)

(** A raw place entity of the recommendation API. *)
Record Image : Type := mkImage { url : option string }.

Record Properties : Type := mkProperties {
  images : option (list Image);
  description : option string;
  website : option string
}.

Record GeoPoint : Type := mkGeoPoint { lat : option Q; lon : option Q }.

Record Entity : Type := mkEntity {
  entity_id : string;
  name : string;
  tags : option (list Tag);
  popularity : Q;
  properties : option Properties;
  location : option GeoPoint
}.

Record Recommendation : Type := mkRecommendation {
  rec_id : string;
  rec_name : string;
  category : string;
  image : string;
  insight : string;
  rec_website : option string;
  segment : Segment;
  x : option R;
  y : option R;
  latitude : option Q;
  longitude : option Q
}.

(** [ItineraryItem extends Recommendation]: the spread [...rec] is the
    field [item_rec]. *)
Record ItineraryItem : Type := mkItineraryItem {
  item_rec : Recommendation;
  day : nat;
  notes : string;
  order : nat
}.

Definition item_id (item : ItineraryItem) : string := rec_id (item_rec item).

Record UserPreferences : Type := mkUserPreferences {
  pref_destination : string;
  pref_movie : string;
  pref_artist : string;
  pref_author : string
}.

(** ** Recommendation mapper *)

Definition segmentAngles (s : Segment) : R :=
  match s with
  | dine => 0
  | listen => 90
  | see => 180
  | explore => 270
  end%R.

Definition angleJitter : R := 35%R.

(** [const radius = 25 + ((1 - popularityRank) * 70)] *)
Definition radarRadius (popularityRank : Q) : Q :=
  25 + ((1 - popularityRank) * 70).

(** [getRadarCoordinates]; [random] is the value of [Math.random()].  The
    default [0.5] of [popularityRank] is not modelled: the one caller
    always passes the rank. *)
Definition getRadarCoordinates (sg : Segment) (popularityRank : Q) (random : R)
  : R * R :=
  let baseAngle := segmentAngles sg in
  let angle := (baseAngle + (random * (angleJitter * 2) - angleJitter))%R in
  let angleRad := ((angle * PI) / 180)%R in
  let radius := Q2R (radarRadius popularityRank) in
  ((100 + cos angleRad * radius)%R, (100 + sin angleRad * radius)%R).

(** [[...entities].sort((a, b) => b.popularity - a.popularity)]: the sort
    of the platform is stable, so with this comparator the result is the
    stable arrangement by decreasing popularity. [insertByPopularity a l]
    puts [a], which came before every element of [l], in front of the first
    [b] for which the comparator is not positive. *)
Fixpoint insertByPopularity (a : Entity) (l : list Entity) : list Entity :=
  match l with
  | [] => [a]
  | b :: l' =>
      if Qle_bool (popularity b - popularity a) 0 then a :: l
      else b :: insertByPopularity a l'
  end.

Definition sortByPopularity (entities : list Entity) : list Entity :=
  fold_right insertByPopularity [] entities.

(** [sortedEntities.length > 1 ? index / (sortedEntities.length - 1) : 0] *)
Definition popularityRank (len index : nat) : Q :=
  if (1 <? len)%nat
  then inject_Z (Z.of_nat index) / inject_Z (Z.of_nat (len - 1))
  else 0.

(** [array.map((element, index) => ...)] *)
Fixpoint mapi_from {A B : Type} (start : nat) (f : A -> nat -> B) (l : list A)
  : list B :=
  match l with
  | [] => []
  | a :: l' => f a start :: mapi_from (S start) f l'
  end.

Definition mapi {A B : Type} (f : A -> nat -> B) (l : list A) : list B :=
  mapi_from 0 f l.

Definition defaultImage : string :=
  "https://images.pexels.com/photos/33545/sunrise-phu-quoc-island-ocean.jpg?auto=compress&cs=tinysrgb&w=400".
Definition defaultInsight : string :=
  "A location tailored to your unique cultural tastes.".
Definition defaultCategory : string := "Place".

(** [entity.tags?.find(t => t.type.startsWith('urn:tag:category'))?.name] *)
Definition categoryTagName (e : Entity) : option string :=
  match tags e with
  | Some l =>
      option_map tag_name
        (find (fun t => startsWith (tag_type t) "urn:tag:category") l)
  | None => None
  end.

(** [entity.properties?.images?.[0]?.url] *)
Definition firstImageUrl (e : Entity) : option string :=
  match properties e with
  | Some p =>
      match images p with
      | Some (img :: _) => url img
      | _ => None
      end
  | None => None
  end.

(** The callback of [sortedEntities.map]; [random index] is the draw of
    [Math.random()] made for the entity at [index]. *)
Definition mapEntity (random : nat -> R) (len : nat) (entity : Entity)
  (index : nat) : Recommendation :=
  let sg := mapTagsToSegment (tags entity) in
  let rank := popularityRank len index in
  let '(cx, cy) := getRadarCoordinates sg rank (random index) in
  {| rec_id := entity_id entity;
     rec_name := name entity;
     category := or_else (categoryTagName entity) defaultCategory;
     image := or_else (firstImageUrl entity) defaultImage;
     insight :=
       or_else (match properties entity with
                | Some p => description p
                | None => None
                end) defaultInsight;
     rec_website := match properties entity with
                    | Some p => website p
                    | None => None
                    end;
     segment := sg;
     x := Some cx;
     y := Some cy;
     latitude := match location entity with Some g => lat g | None => None end;
     longitude := match location entity with Some g => lon g | None => None end
  |}.

(** The value [mappedRecommendations] of [handleGenerateRecommendations]
    for the entity list [entities] of the response. *)
Definition mapRecommendations (random : nat -> R) (entities : list Entity)
  : list Recommendation :=
  let sortedEntities := sortByPopularity entities in
  mapi (mapEntity random (length sortedEntities)) sortedEntities.



(** ** Map location projector ([MapInterface.tsx]) *)

Local Close Scope Q_scope.
Local Open Scope string_scope.
Local Open Scope list_scope.

Inductive LocationType : Set := TItinerary | TRecommendation.

Record Location : Type := mkLocation {
  loc_id : string;
  loc_name : string;
  loc_category : string;
  loc_image : string;
  loc_insight : string;
  coordinates : Q * Q;
  loc_type : LocationType
}.

(** [[139.6917, 35.6895]] *)
Definition defaultCoordinates : Q * Q :=
  (1396917 # 10000, 356895 # 10000)%Q.

(** [convertToMapLocation]; the declared result [Location | null] is an
    [option]. *)
Definition convertToMapLocation (item : Recommendation) (type : LocationType)
  : option Location :=
  let coordinates :=
    match latitude item, longitude item with
    | Some la, Some lo =>
        if truthy_number la && truthy_number lo then (lo, la)
        else defaultCoordinates
    | _, _ => defaultCoordinates
    end in
  Some {| loc_id := rec_id item;
          loc_name := rec_name item;
          loc_category := category item;
          loc_image := image item;
          loc_insight := insight item;
          coordinates := coordinates;
          loc_type := type |}.

(** ** Component state, legacy storage and database calls *)

(** [window.localStorage]: [getItem] is application, [null] is [None]. *)
Definition LocalStorage : Type := string -> option string.

Definition removeItem (key : string) (ls : LocalStorage) : LocalStorage :=
  fun k => if String.eqb k key then None else ls k.

Definition setItem (key value : string) (ls : LocalStorage) : LocalStorage :=
  fun k => if String.eqb k key then Some value else ls k.

(** The [useState] cells of [CulturalCompass] that the data layer uses,
    together with the legacy storage. *)
Record State : Type := mkState {
  destination : string;
  movie : string;
  artist : string;
  author : string;
  isGenerated : bool;
  isLoading : bool;
  error : option string;
  apiError : string;
  recommendations : list Recommendation;
  itinerary : list ItineraryItem;
  isDbLoading : bool;
  autoplanDescription : string;
  isAutoplanning : bool;
  autoplanError : option string;
  localStorage : LocalStorage
}.

Definition setDestination (v : string) (s : State) : State :=
  mkState v (movie s) (artist s) (author s) (isGenerated s) (isLoading s)
    (error s) (apiError s) (recommendations s) (itinerary s) (isDbLoading s)
    (autoplanDescription s) (isAutoplanning s) (autoplanError s)
    (localStorage s).
Definition setMovie (v : string) (s : State) : State :=
  mkState (destination s) v (artist s) (author s) (isGenerated s) (isLoading s)
    (error s) (apiError s) (recommendations s) (itinerary s) (isDbLoading s)
    (autoplanDescription s) (isAutoplanning s) (autoplanError s)
    (localStorage s).
Definition setArtist (v : string) (s : State) : State :=
  mkState (destination s) (movie s) v (author s) (isGenerated s) (isLoading s)
    (error s) (apiError s) (recommendations s) (itinerary s) (isDbLoading s)
    (autoplanDescription s) (isAutoplanning s) (autoplanError s)
    (localStorage s).
Definition setAuthor (v : string) (s : State) : State :=
  mkState (destination s) (movie s) (artist s) v (isGenerated s) (isLoading s)
    (error s) (apiError s) (recommendations s) (itinerary s) (isDbLoading s)
    (autoplanDescription s) (isAutoplanning s) (autoplanError s)
    (localStorage s).
Definition setIsGenerated (v : bool) (s : State) : State :=
  mkState (destination s) (movie s) (artist s) (author s) v (isLoading s)
    (error s) (apiError s) (recommendations s) (itinerary s) (isDbLoading s)
    (autoplanDescription s) (isAutoplanning s) (autoplanError s)
    (localStorage s).
Definition setIsLoading (v : bool) (s : State) : State :=
  mkState (destination s) (movie s) (artist s) (author s) (isGenerated s) v
    (error s) (apiError s) (recommendations s) (itinerary s) (isDbLoading s)
    (autoplanDescription s) (isAutoplanning s) (autoplanError s)
    (localStorage s).
Definition setError (v : option string) (s : State) : State :=
  mkState (destination s) (movie s) (artist s) (author s) (isGenerated s)
    (isLoading s) v (apiError s) (recommendations s) (itinerary s)
    (isDbLoading s) (autoplanDescription s) (isAutoplanning s)
    (autoplanError s) (localStorage s).
Definition setApiError (v : string) (s : State) : State :=
  mkState (destination s) (movie s) (artist s) (author s) (isGenerated s)
    (isLoading s) (error s) v (recommendations s) (itinerary s)
    (isDbLoading s) (autoplanDescription s) (isAutoplanning s)
    (autoplanError s) (localStorage s).
Definition setRecommendations (v : list Recommendation) (s : State) : State :=
  mkState (destination s) (movie s) (artist s) (author s) (isGenerated s)
    (isLoading s) (error s) (apiError s) v (itinerary s) (isDbLoading s)
    (autoplanDescription s) (isAutoplanning s) (autoplanError s)
    (localStorage s).
Definition setItinerary (v : list ItineraryItem) (s : State) : State :=
  mkState (destination s) (movie s) (artist s) (author s) (isGenerated s)
    (isLoading s) (error s) (apiError s) (recommendations s) v (isDbLoading s)
    (autoplanDescription s) (isAutoplanning s) (autoplanError s)
    (localStorage s).
Definition setAutoplanDescription (v : string) (s : State) : State :=
  mkState (destination s) (movie s) (artist s) (author s) (isGenerated s)
    (isLoading s) (error s) (apiError s) (recommendations s) (itinerary s)
    (isDbLoading s) v (isAutoplanning s) (autoplanError s) (localStorage s).
Definition setIsAutoplanning (v : bool) (s : State) : State :=
  mkState (destination s) (movie s) (artist s) (author s) (isGenerated s)
    (isLoading s) (error s) (apiError s) (recommendations s) (itinerary s)
    (isDbLoading s) (autoplanDescription s) v (autoplanError s)
    (localStorage s).
Definition setAutoplanError (v : option string) (s : State) : State :=
  mkState (destination s) (movie s) (artist s) (author s) (isGenerated s)
    (isLoading s) (error s) (apiError s) (recommendations s) (itinerary s)
    (isDbLoading s) (autoplanDescription s) (isAutoplanning s) v
    (localStorage s).
Definition setLocalStorage (v : LocalStorage) (s : State) : State :=
  mkState (destination s) (movie s) (artist s) (author s) (isGenerated s)
    (isLoading s) (error s) (apiError s) (recommendations s) (itinerary s)
    (isDbLoading s) (autoplanDescription s) (isAutoplanning s)
    (autoplanError s) v.

(** The four record kinds of the Local Store. *)
Inductive Kind : Set := KPreferences | KRecommendations | KItinerary | KSession.

(** A mutating call on [kenshoDb].  The migration hands the store what
    [JSON.parse] returned, unexamined: those calls carry a [JsonValue]. *)
Inductive DbOp : Type :=
| SaveUserPreferences (p : UserPreferences)
| ClearUserPreferences
| SaveRecommendations (recs : list Recommendation)
| SaveRecommendationsRaw (v : JsonValue)
| AddToItinerary (item : ItineraryItem)
| AddToItineraryRaw (v : JsonValue)
| ClearItinerary
| SaveSession (generated : bool)
| ClearAllData.

(** The record kinds a call writes to. *)
Definition touches (op : DbOp) (k : Kind) : bool :=
  match op, k with
  | SaveUserPreferences _, KPreferences => true
  | ClearUserPreferences, KPreferences => true
  | SaveRecommendations _, KRecommendations => true
  | SaveRecommendationsRaw _, KRecommendations => true
  | AddToItinerary _, KItinerary => true
  | AddToItineraryRaw _, KItinerary => true
  | ClearItinerary, KItinerary => true
  | SaveSession _, KSession => true
  | ClearAllData, _ => true
  | _, _ => false
  end.

(** [getStorageStats()] *)
Record StorageStats : Type := mkStorageStats {
  preferencesCount : nat;
  recommendationsCount : nat;
  itineraryCount : nat;
  sessionExists : bool
}.

(** Whether the Local Store already has data of a kind. *)
Definition hasData (stats : StorageStats) (k : Kind) : bool :=
  match k with
  | KPreferences => negb (preferencesCount stats =? 0)%nat
  | KRecommendations => negb (recommendationsCount stats =? 0)%nat
  | KItinerary => negb (itineraryCount stats =? 0)%nat
  | KSession => sessionExists stats
  end.

(** ** Handlers as state-passing computations

    A handler runs from a state to a final state, the database calls it
    made, in order, and either a value or the message of the exception
    that left it. *)

Inductive Outcome (A : Type) : Type :=
| Returned (a : A)
| Thrown (message : string).
Arguments Thrown {A} message.

Record Run (A : Type) : Type := mkRun {
  final : State;
  calls : list DbOp;
  outcome : Outcome A
}.

Definition M (A : Type) : Type := State -> Run A.

Definition ret {A : Type} (a : A) : M A := fun st => mkRun st [] (Returned a).

Definition throw {A : Type} (message : string) : M A :=
  fun st => mkRun st [] (Thrown message).

Definition bind {A B : Type} (m : M A) (k : A -> M B) : M B :=
  fun st =>
    let r := m st in
    match outcome r with
    | Returned a =>
        let r' := k a (final r) in
        mkRun (final r') (calls r ++ calls r') (outcome r')
    | Thrown message => mkRun (final r) (calls r) (Thrown message)
    end.

(** [try { body } catch (e) { handler(e.message) }] *)
Definition tryCatch {A : Type} (body : M A) (handler : string -> M A) : M A :=
  fun st =>
    let r := body st in
    match outcome r with
    | Returned _ => r
    | Thrown message =>
        let r' := handler message (final r) in
        mkRun (final r') (calls r ++ calls r') (outcome r')
    end.

(** [try { body } finally { cleanup }] *)
Definition tryFinally {A : Type} (body : M A) (cleanup : M unit) : M A :=
  fun st =>
    let r := body st in
    let r' := cleanup (final r) in
    match outcome r' with
    | Returned _ => mkRun (final r') (calls r ++ calls r') (outcome r)
    | Thrown message => mkRun (final r') (calls r ++ calls r') (Thrown message)
    end.

(** A state setter. *)
Definition update (f : State -> State) : M unit :=
  fun st => mkRun (f st) [] (Returned tt).

Definition lift {A : Type} (o : Outcome A) : M A := fun st => mkRun st [] o.

(** [kenshoDb.op(...).catch(console.error)]: the call is made, its failure
    is only logged. *)
Definition callAndForget (op : DbOp) : M unit :=
  fun st => mkRun st [op] (Returned tt).

Declare Scope monad_scope.
Delimit Scope monad_scope with monad.
Notation "x <- m ;; k" := (bind m (fun x => k))
  (at level 61, m at next level, right associativity) : monad_scope.
Notation "m ;; k" := (bind m (fun _ => k))
  (at level 61, right associativity) : monad_scope.
Local Open Scope monad_scope.

(** [for (const item of items) { body(item) }] *)
Fixpoint forEach {A : Type} (items : list A) (body : A -> M unit) : M unit :=
  match items with
  | [] => ret tt
  | item :: rest => body item ;; forEach rest body
  end.

(** A computation leaves the state alone and makes only calls that
    satisfy [P]. *)
Definition tame {A : Type} (P : DbOp -> Prop) (m : M A) : Prop :=
  forall st : State, final (m st) = st /\ Forall P (calls (m st)).

(** ** Strings of the handlers *)

Definition isWhiteSpace (c : ascii) : bool :=
  let n := nat_of_ascii c in
  ((9 <=? n) && (n <=? 13))%nat || (n =? 32)%nat.

Fixpoint trimStart (s : string) : string :=
  match s with
  | EmptyString => EmptyString
  | String c s' => if isWhiteSpace c then trimStart s' else s
  end.

Fixpoint trimEnd (s : string) : string :=
  match s with
  | EmptyString => EmptyString
  | String c s' =>
      match trimEnd s' with
      | EmptyString => if isWhiteSpace c then EmptyString else String c EmptyString
      | t => String c t
      end
  end.

(** [s.trim()] *)
Definition trim (s : string) : string := trimEnd (trimStart s).

Definition truthy_opt (s : option string) : bool :=
  match s with Some v => truthy v | None => false end.

(** [destination.trim() && (movie.trim() || artist.trim() || author.trim())] *)
Definition hasRequiredInputs (st : State) : bool :=
  truthy (trim (destination st)) &&
  (truthy (trim (movie st)) || truthy (trim (artist st))
   || truthy (trim (author st))).

Definition dquote : ascii := ascii_of_nat 34.

(** A text between two double quotes. *)
Definition quoted (text : string) : string :=
  String dquote (text ++ String dquote EmptyString).

(** [response.match(re)] for the global regular expression [re] of the
    source (a double quote, one or more characters other than a double
    quote, a double quote): the matches, left to right, each with its two
    quotes.  [open] is [None] outside a candidate and [Some run]
    after an opening quote, [run] being the characters read since, last
    first.  A quote right after an opening quote fails the candidate (the
    group needs one character) and opens the next one; a candidate that
    the text ends in is no match. *)
Fixpoint matchQuotedFrom (open : option (list ascii)) (s : string)
  : list string :=
  match s with
  | EmptyString => []
  | String c s' =>
      match open with
      | None =>
          if Ascii.eqb c dquote then matchQuotedFrom (Some []) s'
          else matchQuotedFrom None s'
      | Some [] =>
          if Ascii.eqb c dquote then matchQuotedFrom (Some []) s'
          else matchQuotedFrom (Some [c]) s'
      | Some run =>
          if Ascii.eqb c dquote
          then quoted (string_of_list_ascii (rev run))
               :: matchQuotedFrom None s'
          else matchQuotedFrom (Some (c :: run)) s'
      end
  end.

Definition matchQuoted (s : string) : list string := matchQuotedFrom None s.

(** [match.replace(re, '')] for the global expression [re] matching a
    double quote: every double quote is removed. *)
Fixpoint removeQuotes (s : string) : string :=
  match s with
  | EmptyString => EmptyString
  | String c s' =>
      if Ascii.eqb c dquote then removeQuotes s' else String c (removeQuotes s')
  end.

(** ** Itinerary reconciler *)

(** [addToItinerary]: [itinerary.find(...)] returns an item, which is
    truthy, or [undefined]. *)
Definition addToItinerary (rec : Recommendation) : M unit :=
  fun st =>
    (match find (fun item => String.eqb (item_id item) (rec_id rec))
             (itinerary st) with
     | Some _ => ret tt
     | None =>
         let newItem :=
           {| item_rec := rec;
              day := 1;
              notes := "";
              order := length (itinerary st) |} in
         update (setItinerary (itinerary st ++ [newItem])) ;;
         callAndForget (AddToItinerary newItem)
     end) st.

(** ** Effects of the component *)

Inductive PrefField : Set := FDestination | FMovie | FArtist | FAuthor.

Definition getPreference (f : PrefField) (st : State) : string :=
  match f with
  | FDestination => destination st
  | FMovie => movie st
  | FArtist => artist st
  | FAuthor => author st
  end.

Definition setPreference (f : PrefField) (v : string) (st : State) : State :=
  match f with
  | FDestination => setDestination v st
  | FMovie => setMovie v st
  | FArtist => setArtist v st
  | FAuthor => setAuthor v st
  end.




(** The callback of the 500 ms timer that the effect on
    [[destination, movie, artist, author, isDbLoading]] arms when the
    database has been loaded. *)
Definition savePreferencesTimer : M unit :=
  fun st =>
    (callAndForget
       (SaveUserPreferences
          {| pref_destination := destination st;
             pref_movie := movie st;
             pref_artist := artist st;
             pref_author := author st |}) ;;
     update (fun s =>
       setLocalStorage
         (setItem "kensho-author" (author st)
            (setItem "kensho-artist" (artist st)
               (setItem "kensho-movie" (movie st)
                  (setItem "kensho-destination" (destination st)
                     (localStorage s))))) s)) st.



(** ** Handlers that depend on the platform *)

(** [v.includes(id)] on what [selectedIds] holds at run time: array
    membership (an element equals the string [id] only if it is that
    string), substring search on a string, a [TypeError] otherwise. *)
Definition jsIncludes (v : JsonValue) (id : string) : Outcome bool :=
  match v with
  | JArray items =>
      Returned (existsb (fun e => match e with
                                  | JString s => String.eqb s id
                                  | _ => false
                                  end) items)
  | JString s => Returned (includes s id)
  | JNull => Thrown "Cannot read properties of null (reading 'includes')"
  | _ => Thrown "selectedIds.includes is not a function"
  end.

(** [recommendations.filter(rec => selectedIds.includes(rec.id))] *)
Fixpoint filterSelected (selectedIds : JsonValue) (recs : list Recommendation)
  : Outcome (list Recommendation) :=
  match recs with
  | [] => Returned []
  | rec :: rest =>
      match jsIncludes selectedIds (rec_id rec) with
      | Thrown message => Thrown message
      | Returned keep =>
          match filterSelected selectedIds rest with
          | Thrown message => Thrown message
          | Returned l => Returned (if keep then rec :: l else l)
          end
      end
  end.

(** Whether the value has an [includes] method: arrays and strings do. *)
Definition hasIncludes (v : JsonValue) : bool :=
  match v with
  | JArray _ | JString _ => true
  | _ => false
  end.

(** No recommendation matches the returned ids: for none of them does
    [selectedIds.includes(rec.id)] give [true]. *)
Definition selectsNone (selectedIds : JsonValue) (recs : list Recommendation)
  : bool :=
  forallb (fun rec => match jsIncludes selectedIds (rec_id rec) with
                      | Returned true => false
                      | _ => true
                      end) recs.

(** [for (const item of items)]: the elements of an array, the characters
    of a string, a [TypeError] for what is not iterable. *)
Definition iterate (items : JsonValue) : Outcome (list JsonValue) :=
  match items with
  | JArray l => Returned l
  | JString s =>
      Returned (map (fun c => JString (String c EmptyString))
                  (list_ascii_of_string s))
  | _ => Thrown "items is not iterable"
  end.

(** The reply of the recommendation API: [response.ok], [response.status]
    and, of the decoded body, the truthiness of [success],
    [results.message] and [results.entities]. *)
Record ApiResponse : Type := mkApiResponse {
  response_ok : bool;
  response_status : nat;
  data_success : bool;
  results_message : option string;
  results_entities : option (list Entity)
}.

Definition decimal (n : nat) : string :=
  NilEmpty.string_of_uint (Nat.to_uint n).

Definition autoplanGuardMessage : string :=
  "Please generate recommendations first and provide a description of what you're looking for.".
Definition autoplanKeyMessage : string :=
  "Gemini API key not found. Please add VITE_GEMINI_API_KEY to your environment variables.".
Definition autoplanParseMessage : string := "Could not parse AI response".
Definition autoplanNoMatchMessage : string :=
  "No matching recommendations found. Try a different description.".
Definition autoplanFallbackMessage : string :=
  "Failed to generate autoplan. Please try again.".
Definition autoplanNotePrefix : string := "Auto-selected based on: ".

Section Platform.

(** [JSON.parse]; [None] where it throws. *)
Variable JSON_parse : string -> option JsonValue.

(** The comparison [v > 0] of the platform on a JSON value, with its
    coercion to a number. *)
Variable js_gt_zero : JsonValue -> bool.

(** Whether an awaited database call rejects, and with which message. *)
Variable db_rejects : DbOp -> option string.

(** [await kenshoDb.op(...)] *)
Definition call (op : DbOp) : M unit :=
  fun st =>
    mkRun st [op]
      (match db_rejects op with
       | Some message => Thrown message
       | None => Returned tt
       end).

(** [JSON.parse(text)] inside a [try]. *)
Definition parse (text : string) : M JsonValue :=
  match JSON_parse text with
  | Some v => ret v
  | None => throw "Unexpected token in JSON"
  end.

(** [recs.length > 0] *)
Definition lengthGtZero (recs : JsonValue) : Outcome bool :=
  match recs with
  | JNull => Thrown "Cannot read properties of null (reading 'length')"
  | JArray l => Returned (0 <? length l)%nat
  | JString s => Returned (0 <? String.length s)%nat
  | JBool _ | JNumber _ => Returned false
  | JObject fields =>
      Returned (match get_field "length" fields with
                | Some v => js_gt_zero v
                | None => false
                end)
  end.

(** [handleGenerateRecommendations]; [apiKey] is the environment's
    [VITE_QLOO_API_KEY], [random i] the draw of [Math.random()] for the
    i-th entity, [fetched] what [fetch] and [response.json()] give. *)
Definition handleGenerateRecommendations (apiKey : option string)
  (random : nat -> R) (fetched : Outcome ApiResponse) : M unit :=
  fun st =>
    (if negb (hasRequiredInputs st) then ret tt
     else if negb (truthy_opt apiKey)
     then update (setError (Some "Please provide a Qloo API Key."))
     else
       update (setIsLoading true) ;;
       update (setError None) ;;
       update (setApiError "") ;;
       update (setRecommendations []) ;;
       tryFinally
         (tryCatch
            (data <- lift fetched ;;
             if negb (response_ok data) || negb (data_success data)
             then throw (or_else (results_message data)
                           ("API Error: " ++ decimal (response_status data)))
             else
               let entities :=
                 match results_entities data with Some l => l | None => [] end in
               let mappedRecommendations := mapRecommendations random entities in
               update (setRecommendations mappedRecommendations) ;;
               update (setIsGenerated true) ;;
               call (SaveRecommendations mappedRecommendations) ;;
               call (SaveSession true))
            (fun message =>
               if includes message "400"
               then update (setApiError "Destination is invalid")
               else update (setApiError
                      "An error occurred while generating recommendations")))
         (update (setIsLoading false))) st.

(** The selection step of [handleAutoplan]: [JSON.parse(response)] and,
    in its [catch], the quoted substrings of the response. *)
Definition parseSelectedIds (response : string) : Outcome JsonValue :=
  match JSON_parse response with
  | Some v => Returned v
  | None =>
      match matchQuoted response with
      | [] => Thrown autoplanParseMessage
      | idMatches =>
          Returned (JArray (map (fun m => JString (removeQuotes m)) idMatches))
      end
  end.

(** What the three selection steps of [handleAutoplan] amount to: the
    reply, its decoding, the filter of the current recommendations. *)
Definition autoplanSelection (reply : Outcome string)
  (recs : list Recommendation) : Outcome (list Recommendation) :=
  match reply with
  | Thrown message => Thrown message
  | Returned response =>
      match parseSelectedIds response with
      | Thrown message => Thrown message
      | Returned selectedIds => filterSelected selectedIds recs
      end
  end.

(** The guards of [handleAutoplan] all pass. *)
Definition autoplanReady (geminiApiKey : option string) (st : State) : bool :=
  truthy (trim (autoplanDescription st))
  && hasRequiredInputs st
  && isGenerated st
  && negb (length (recommendations st) =? 0)%nat
  && truthy_opt geminiApiKey.

(** The items [handleAutoplan] builds from the selected recommendations. *)
Definition newItineraryItems (description : string)
  (selectedRecommendations : list Recommendation) : list ItineraryItem :=
  mapi (fun rec index =>
          {| item_rec := rec;
             day := index / 2 + 1;
             notes := autoplanNotePrefix ++ description;
             order := index |})
       selectedRecommendations.

(** The [try] block of [handleAutoplan].  [st0] is the state of the render
    the handler was created in: [recommendations] and [autoplanDescription]
    are read from it. *)
Definition autoplanTry (reply : Outcome string) (st0 : State) : M unit :=
  response <- lift reply ;;
  selectedIds <- lift (parseSelectedIds response) ;;
  selectedRecommendations <-
    lift (filterSelected selectedIds (recommendations st0)) ;;
  if (length selectedRecommendations =? 0)%nat
  then update (setAutoplanError (Some autoplanNoMatchMessage))
  else
    update (setItinerary []) ;;
    call ClearItinerary ;;
    let items :=
      newItineraryItems (autoplanDescription st0) selectedRecommendations in
    update (setItinerary items) ;;
    forEach items (fun item => call (AddToItinerary item)) ;;
    update (setAutoplanDescription "").

(** [handleAutoplan]; [geminiApiKey] is the environment's
    [VITE_GEMINI_API_KEY], [reply] the text of the model's answer, or the
    exception of the request. *)
Definition handleAutoplan (geminiApiKey : option string)
  (reply : Outcome string) : M unit :=
  fun st =>
    (if negb (truthy (trim (autoplanDescription st)))
        || negb (hasRequiredInputs st)
        || negb (isGenerated st)
        || (length (recommendations st) =? 0)%nat
     then update (setAutoplanError (Some autoplanGuardMessage))
     else if negb (truthy_opt geminiApiKey)
     then update (setAutoplanError (Some autoplanKeyMessage))
     else
       update (setIsAutoplanning true) ;;
       update (setAutoplanError None) ;;
       tryFinally
         (tryCatch
            (autoplanTry reply st)
            (fun message =>
               update (setAutoplanError
                         (Some (or_else (Some message)
                                  autoplanFallbackMessage)))))
         (update (setIsAutoplanning false))) st.

(** The four blocks of [migrateFromLocalStorage], one per record kind;
    [hasDbData] is the result of [getStorageStats()] and [getItem] is
    [localStorage.getItem]. *)
Definition migratePreferences (hasDbData : StorageStats)
  (getItem : LocalStorage) : M unit :=
  if (preferencesCount hasDbData =? 0)%nat then
    let lsDestination := getItem "kensho-destination" in
    let lsMovie := getItem "kensho-movie" in
    let lsArtist := getItem "kensho-artist" in
    let lsAuthor := getItem "kensho-author" in
    if truthy_opt lsDestination || truthy_opt lsMovie
       || truthy_opt lsArtist || truthy_opt lsAuthor
    then call (SaveUserPreferences
                 {| pref_destination := or_else lsDestination "";
                    pref_movie := or_else lsMovie "";
                    pref_artist := or_else lsArtist "";
                    pref_author := or_else lsAuthor "" |})
    else ret tt
  else ret tt.

Definition migrateRecommendations (hasDbData : StorageStats)
  (getItem : LocalStorage) : M unit :=
  if (recommendationsCount hasDbData =? 0)%nat then
    let lsRecommendations := getItem "kensho-recommendations" in
    if truthy_opt lsRecommendations then
      tryCatch
        (recs <- parse (or_else lsRecommendations "") ;;
         nonEmpty <- lift (lengthGtZero recs) ;;
         if nonEmpty then call (SaveRecommendationsRaw recs) else ret tt)
        (fun _ => ret tt)
    else ret tt
  else ret tt.

Definition migrateItinerary (hasDbData : StorageStats)
  (getItem : LocalStorage) : M unit :=
  if (itineraryCount hasDbData =? 0)%nat then
    let lsItinerary := getItem "kensho-itinerary" in
    if truthy_opt lsItinerary then
      tryCatch
        (items <- parse (or_else lsItinerary "") ;;
         elements <- lift (iterate items) ;;
         forEach elements (fun item => call (AddToItineraryRaw item)))
        (fun _ => ret tt)
    else ret tt
  else ret tt.

Definition migrateSession (hasDbData : StorageStats)
  (getItem : LocalStorage) : M unit :=
  if negb (sessionExists hasDbData) then
    let lsIsGenerated := getItem "kensho-is-generated" in
    if truthy_opt lsIsGenerated
    then call (SaveSession
                 (match lsIsGenerated with
                  | Some s => String.eqb s "true"
                  | None => false
                  end))
    else ret tt
  else ret tt.

(** [migrateFromLocalStorage]; [stats] is what [getStorageStats()] gives,
    or the exception it throws. *)
Definition migrateFromLocalStorage (stats : Outcome StorageStats) : M unit :=
  fun st =>
    let getItem := localStorage st in
    tryCatch
      (hasDbData <- lift stats ;;
       migratePreferences hasDbData getItem ;;
       migrateRecommendations hasDbData getItem ;;
       migrateItinerary hasDbData getItem ;;
       migrateSession hasDbData getItem)
      (fun _ => ret tt) st.

(** [clearAllData] *)
Definition clearAllData : M unit :=
  tryCatch
    (call ClearAllData ;;
     update (fun s =>
       setLocalStorage
         (removeItem "kensho-is-generated"
            (removeItem "kensho-itinerary"
               (removeItem "kensho-recommendations"
                  (removeItem "kensho-author"
                     (removeItem "kensho-artist"
                        (removeItem "kensho-movie"
                           (removeItem "kensho-destination"
                              (localStorage s)))))))) s) ;;
     update (setDestination "") ;;
     update (setMovie "") ;;
     update (setArtist "") ;;
     update (setAuthor "") ;;
     update (setIsGenerated false) ;;
     update (setRecommendations []) ;;
     update (setItinerary []))
    (fun _ => ret tt).

End Platform.

(** ** Sample data of the specification's scenarios *)

(** An entity with the given id and popularity and nothing else. *)
Definition scenarioEntity (id : string) (p : Q) : Entity :=
  {| entity_id := id;
     name := id;
     tags := None;
     popularity := p;
     properties := None;
     location := None |}.


(** A recommendation with the given id and no coordinates. *)
Definition scenarioRecommendation (id : string) : Recommendation :=
  {| rec_id := id;
     rec_name := id;
     category := defaultCategory;
     image := defaultImage;
     insight := defaultInsight;
     rec_website := None;
     segment := explore;
     x := None;
     y := None;
     latitude := None;
     longitude := None |}.

(** A place on the equator: latitude 0, longitude -78.4558. *)
Definition equatorRecommendation : Recommendation :=
  {| rec_id := "equator";
     rec_name := "Mitad del Mundo";
     category := defaultCategory;
     image := defaultImage;
     insight := defaultInsight;
     rec_website := None;
     segment := see;
     x := None;
     y := None;
     latitude := Some 0%Q;
     longitude := Some (- (784558 # 10000))%Q |}.

Definition emptyStorage : LocalStorage := fun _ => None.

(** A loaded session: three recommendations generated for Tokyo, one of
    them kept in the itinerary on day 3. *)
Definition scenarioState : State :=
  {| destination := "Tokyo";
     movie := "Lost in Translation";
     artist := "";
     author := "";
     isGenerated := true;
     isLoading := false;
     error := None;
     apiError := "";
     recommendations :=
       [scenarioRecommendation "A"; scenarioRecommendation "B";
        scenarioRecommendation "C"];
     itinerary :=
       [{| item_rec := scenarioRecommendation "C";
           day := 3;
           notes := "booked";
           order := 0 |}];
     isDbLoading := false;
     autoplanDescription := "quiet jazz bars";
     isAutoplanning := false;
     autoplanError := None;
     localStorage := emptyStorage |}.

(** The model's answer as a bare JSON array of the ids A, B and Z. *)
Definition plainReply : string :=
  "[" ++ quoted "A" ++ ", " ++ quoted "B" ++ ", " ++ quoted "Z" ++ "]".

(** The same answer inside a Markdown code fence, which is no JSON text. *)
Definition fencedReply : string := "```json " ++ plainReply ++ " ```".

(** An answer that names no current recommendation. *)
Definition strangerReply : string := "[" ++ quoted "Q" ++ "]".

(** [JSON.parse] on the sample answers; every other text is taken as
    malformed. *)
Definition scenarioParse (text : string) : option JsonValue :=
  if String.eqb text plainReply
  then Some (JArray [JString "A"; JString "B"; JString "Z"])
  else if String.eqb text strangerReply
  then Some (JArray [JString "Q"])
  else None.

(** [JSON.parse] on a reply that is a JSON number. *)
Definition numberParse (text : string) : option JsonValue :=
  if String.eqb text "42" then Some (JNumber 42) else None.

(** A database that accepts every call. *)
Definition reliableDb (op : DbOp) : option string := None.

(** A legacy store holding preferences, a recommendations value that is
    no JSON text, and a session flag. *)
Definition legacyStorage : LocalStorage :=
  setItem "kensho-is-generated" "true"
    (setItem "kensho-recommendations" "[{broken"
       (setItem "kensho-movie" "Lost in Translation"
          (setItem "kensho-destination" "Tokyo" emptyStorage))).

(** A Local Store with preferences only. *)
Definition preferencesOnlyStats : StorageStats :=
  {| preferencesCount := 1;
     recommendationsCount := 0;
     itineraryCount := 0;
     sessionExists := false |}.

(** The session of [scenarioState] started over the legacy store. *)
Definition legacyState : State := setLocalStorage legacyStorage scenarioState.

(** ** The other operations of the itinerary reconciler *)

(** The fields [updateItineraryItem] is given. *)
Inductive ItineraryPatch : Type :=
| PatchDay (newDay : nat)
| PatchNotes (newNotes : string).

(** The database calls of the three handlers below; each is made and its
    failure only logged. *)
Inductive ReconcilerCall : Type :=
| RemoveFromItinerary (id : string)
| UpdateItineraryItem (id : string) (patch : ItineraryPatch).

(** [removeFromItinerary] *)
Definition removeFromItinerary (id : string) (st : State)
  : State * list ReconcilerCall :=
  (setItinerary
     (filter (fun item => negb (String.eqb (item_id item) id)) (itinerary st))
     st,
   [RemoveFromItinerary id]).

(** [{ ...item, day }] *)
Definition withDay (newDay : nat) (item : ItineraryItem) : ItineraryItem :=
  {| item_rec := item_rec item;
     day := newDay;
     notes := notes item;
     order := order item |}.

(** [{ ...item, notes }] *)
Definition withNotes (newNotes : string) (item : ItineraryItem)
  : ItineraryItem :=
  {| item_rec := item_rec item;
     day := day item;
     notes := newNotes;
     order := order item |}.

(** [updateItineraryDay] *)
Definition updateItineraryDay (id : string) (newDay : nat) (st : State)
  : State * list ReconcilerCall :=
  (setItinerary
     (map (fun item =>
             if String.eqb (item_id item) id then withDay newDay item else item)
        (itinerary st))
     st,
   [UpdateItineraryItem id (PatchDay newDay)]).

(** [updateItineraryNotes] *)
Definition updateItineraryNotes (id : string) (newNotes : string) (st : State)
  : State * list ReconcilerCall :=
  (setItinerary
     (map (fun item =>
             if String.eqb (item_id item) id then withNotes newNotes item
             else item)
        (itinerary st))
     st,
   [UpdateItineraryItem id (PatchNotes newNotes)]).

(** The comparator [(a, b) => a.day - b.day || a.order - b.order]: the
    difference of the days unless it is 0, which is falsy. *)
Definition itineraryCompare (a b : ItineraryItem) : Z :=
  let byDay := (Z.of_nat (day a) - Z.of_nat (day b))%Z in
  if (byDay =? 0)%Z then (Z.of_nat (order a) - Z.of_nat (order b))%Z
  else byDay.

(** [itinerary.sort(comparator)], the platform's stable sort: [a], which
    came before every element of [l], goes in front of the first [b] for
    which the comparator is not positive. *)
Fixpoint insertByDay (a : ItineraryItem) (l : list ItineraryItem)
  : list ItineraryItem :=
  match l with
  | [] => [a]
  | b :: l' =>
      if (itineraryCompare a b <=? 0)%Z then a :: l else b :: insertByDay a l'
  end.

Definition sortItinerary (l : list ItineraryItem) : list ItineraryItem :=
  fold_right insertByDay [] l.

(** The itinerary panel: [sort] works in place, on the array the state
    holds, so a render leaves the state's itinerary sorted; the cards are
    drawn in that order. *)
Definition renderItinerary (st : State) : State * list ItineraryItem :=
  (setItinerary (sortItinerary (itinerary st)) st, sortItinerary (itinerary st)).

(** Day first, then order. *)
Definition beforeOrWith (a b : ItineraryItem) : Prop :=
  (day a < day b)%nat \/ (day a = day b /\ (order a <= order b)%nat).

(** No two items of an itinerary share an id. *)
Definition uniqueIds (l : list ItineraryItem) : Prop := NoDup (map item_id l).

(** ** Texts with quoted ids *)

(** The text holds no double quote. *)
Definition quoteFree (s : string) : bool :=
  forallb (fun c => negb (Ascii.eqb c dquote)) (list_ascii_of_string s).

(** A text made of fillers and quoted ids in turn, closed by [tail]: each
    pair is the filler that comes before an id, and the id. *)
Fixpoint interleaveQuoted (pieces : list (string * string)) (tail : string)
  : string :=
  match pieces with
  | [] => tail
  | (filler, id) :: rest => filler ++ quoted id ++ interleaveQuoted rest tail
  end.

(** ** Marker synchronisation ([MapInterface.tsx]) *)

(** [markersRef.current]: the own keys of the object in the order they
    were added (location ids are not array indices), each with the
    location its marker was created for. *)
Definition Markers : Type := list (string * Location).

(** What the effect does to the map. *)
Inductive MapOp : Type :=
| RemoveMarker (id : string)
| AddMarker (location : Location)
| FitBounds (points : list (Q * Q)).

(** [[...dbLocations, ...locations]], read from database items by
    [loadLocationsFromDB]: only itinerary items, each through
    [convertToMapLocation], a [null] result being skipped. *)
Definition loadLocationsFromDB (dbItinerary : list ItineraryItem)
  : list Location :=
  flat_map (fun item =>
              match convertToMapLocation (item_rec item) TItinerary with
              | Some location => [location]
              | None => []
              end) dbItinerary.

(** [allLocations.some(loc => loc.id === markerId)] *)
Definition isStillPresent (allLocations : list Location) (markerId : string)
  : bool :=
  existsb (fun loc => String.eqb (loc_id loc) markerId) allLocations.

(** Step 1 of the effect: the markers whose id is no longer listed are
    removed from the map and deleted from the object. *)
Definition removeStale (allLocations : list Location) (markers : Markers)
  : Markers * list MapOp :=
  (filter (fun m => isStillPresent allLocations (fst m)) markers,
   map (fun m => RemoveMarker (fst m))
     (filter (fun m => negb (isStillPresent allLocations (fst m))) markers)).

Section MarkerSync.

(** The keys every object answers to through [Object.prototype]
    ([toString], [constructor], ...): a property read finds a truthy value
    under them. *)
Variable inherited : string -> bool.

(** Truthiness of [markersRef.current[id]]. *)
Definition lookupMarker (markers : Markers) (id : string) : bool :=
  inherited id || existsb (fun m => String.eqb (fst m) id) markers.

(** Step 2 of the effect: a marker is created, put on the map and stored
    for every location whose id finds nothing in the object. *)
Fixpoint addMissing (allLocations : list Location) (markers : Markers)
  : Markers * list MapOp :=
  match allLocations with
  | [] => (markers, [])
  | location :: rest =>
      if lookupMarker markers (loc_id location) then addMissing rest markers
      else
        let '(synced, additions) :=
          addMissing rest (markers ++ [(loc_id location, location)]) in
        (synced, AddMarker location :: additions)
  end.

(** The effect on [[dbLocations, locations, mapLoaded]]; [ready] is
    [map.current && mapLoaded]. *)
Definition syncMarkers (ready : bool) (dbLocations locations : list Location)
  (markers : Markers) : Markers * list MapOp :=
  if negb ready then (markers, [])
  else
    let allLocations := dbLocations ++ locations in
    let displayedMarkerIds := map fst markers in
    let '(kept, removals) := removeStale allLocations markers in
    let '(synced, additions) := addMissing allLocations kept in
    let hasJustAddedFirstMarkers :=
      (length displayedMarkerIds =? 0)%nat && (0 <? length allLocations)%nat in
    (synced,
     removals ++ additions
     ++ (if hasJustAddedFirstMarkers
         then [FitBounds (map coordinates allLocations)]
         else [])).

End MarkerSync.

(** The locations a run put a marker on the map for, and the ids whose
    marker it took off the map, both in the order of the calls. *)
Definition createdLocations (ops : list MapOp) : list Location :=
  flat_map (fun op => match op with
                      | AddMarker location => [location]
                      | _ => []
                      end) ops.

Definition removedIds (ops : list MapOp) : list string :=
  flat_map (fun op => match op with
                      | RemoveMarker id => [id]
                      | _ => []
                      end) ops.

(** The property names of [Object.prototype]. *)
Definition objectPrototypeKeys : list string :=
  ["constructor"; "hasOwnProperty"; "isPrototypeOf"; "propertyIsEnumerable";
   "toLocaleString"; "toString"; "valueOf"; "__proto__"; "__defineGetter__";
   "__defineSetter__"; "__lookupGetter__"; "__lookupSetter__"].

Definition inheritedKey (id : string) : bool :=
  existsb (String.eqb id) objectPrototypeKeys.

(** Two map locations for the marker scenarios. *)
Definition scenarioLocation (id : string) (lng la : Q) : Location :=
  {| loc_id := id;
     loc_name := id;
     loc_category := defaultCategory;
     loc_image := defaultImage;
     loc_insight := defaultInsight;
     coordinates := (lng, la);
     loc_type := TItinerary |}.

Definition scenarioLocations : list Location :=
  [scenarioLocation "A" (1396917 # 10000) (356895 # 10000);
   scenarioLocation "B" (1397 # 10) (357 # 10)].

(** ** Clearing and resetting ([CulturalCompass.tsx]) *)

Section Clearing.

Variable db_rejects : DbOp -> option string.

(** [clearUserInputs] *)
Definition clearUserInputs : M unit :=
  tryCatch
    (call db_rejects ClearUserPreferences ;;
     update (fun s =>
       setLocalStorage
         (removeItem "kensho-author"
            (removeItem "kensho-artist"
               (removeItem "kensho-movie"
                  (removeItem "kensho-destination" (localStorage s))))) s) ;;
     update (setDestination "") ;;
     update (setMovie "") ;;
     update (setArtist "") ;;
     update (setAuthor "") ;;
     update (setIsGenerated false))
    (fun _ => ret tt).

(** [resetGeneration] *)
Definition resetGeneration : M unit :=
  tryCatch
    (call db_rejects (SaveSession false) ;;
     update (setIsGenerated false))
    (fun _ => ret tt).

End Clearing.

(** [clearSavedInputs] *)
Definition clearSavedInputs : M unit :=
  update (setDestination "") ;;
  update (setMovie "") ;;
  update (setArtist "") ;;
  update (setAuthor "") ;;
  update (setIsGenerated false).

(** The seven keys the component keeps in the legacy storage. *)
Definition legacyKeys : list string :=
  ["kensho-destination"; "kensho-movie"; "kensho-artist"; "kensho-author";
   "kensho-recommendations"; "kensho-itinerary"; "kensho-is-generated"].

(** The preferences the component state holds. *)
Definition currentPreferences (st : State) : UserPreferences :=
  {| pref_destination := destination st;
     pref_movie := movie st;
     pref_artist := artist st;
     pref_author := author st |}.

(** ** The interests of the request and blank inputs *)

(** Every character of the text is white space. *)
Definition blank (s : string) : bool :=
  forallb isWhiteSpace (list_ascii_of_string s).

(** [s.replace(re, '')] for the global expression [re] matching a run of
    white space: every white-space character is removed. *)
Fixpoint removeWhiteSpace (s : string) : string :=
  match s with
  | EmptyString => EmptyString
  | String c s' =>
      if isWhiteSpace c then removeWhiteSpace s'
      else String c (removeWhiteSpace s')
  end.

(** An element of [interestsPayload]. *)
Record Interest : Type := mkInterest { entity : string; weight : nat }.

(** The entity of an interest: the namespace, then the trimmed value with
    its white space removed, in lower case. *)
Definition interestEntity (kind value : string) : string :=
  "urn:entity:" ++ kind ++ ":"
  ++ toLowerCase (removeWhiteSpace (trim value)).

(** [interestsPayload] of [handleGenerateRecommendations]. *)
Definition interestsPayload (st : State) : list Interest :=
  (if truthy (trim (movie st))
   then [mkInterest (interestEntity "movie" (movie st)) 10] else [])
  ++ (if truthy (trim (artist st))
      then [mkInterest (interestEntity "artist" (artist st)) 10] else [])
  ++ (if truthy (trim (author st))
      then [mkInterest (interestEntity "book" (author st)) 10] else []).

(** An upper-case ASCII letter. *)
Definition isUpperCase (c : ascii) : bool :=
  let n := nat_of_ascii c in (65 <=? n)%nat && (n <=? 90)%nat.

(** The text is not empty and holds neither white space nor an upper-case
    ASCII letter. *)
Definition normalizedName (s : string) : bool :=
  truthy s
  && forallb (fun c => negb (isWhiteSpace c) && negb (isUpperCase c))
       (list_ascii_of_string s).

(** ** The dots of the radar chart *)

(** [handleDotClick] of [RadarChart]: the new [selectedRec] and the
    recommendations handed to [onDotClick]; [innerWidth] is
    [window.innerWidth]. *)
Definition handleDotClick (innerWidth : nat) (rec : Recommendation)
  (selectedRec : option Recommendation)
  : option Recommendation * list Recommendation :=
  if (innerWidth <? 1024)%nat then
    if match selectedRec with
       | Some selected => String.eqb (rec_id selected) (rec_id rec)
       | None => false
       end
    then (None, [rec])
    else (Some rec, [])
  else (selectedRec, [rec]).

(** ** The outcome of a generation request *)

Definition missingKeyMessage : string := "Please provide a Qloo API Key.".
Definition invalidDestination : string := "Destination is invalid".
Definition generationFailed : string :=
  "An error occurred while generating recommendations".

(** The message of the exception that the request part of the [try] block
    of [handleGenerateRecommendations] ends in, if it does. *)
Definition fetchFailure (fetched : Outcome ApiResponse) : option string :=
  match fetched with
  | Thrown message => Some message
  | Returned data =>
      if negb (response_ok data) || negb (data_success data)
      then Some (or_else (results_message data)
                   ("API Error: " ++ decimal (response_status data)))
      else None
  end.

(** What the [catch] block shows for a message. *)
Definition shownError (message : string) : string :=
  if includes message "400" then invalidDestination else generationFailed.

(** ** Text of the cards *)

(** [text.split('. ')]: the pieces between the occurrences of a full stop
    followed by a space, found from left to right; [pending] holds the
    characters of the current piece, last first. *)
Fixpoint splitSentencesFrom (pending : list ascii) (s : string) : list string :=
  match s with
  | EmptyString => [string_of_list_ascii (rev pending)]
  | String c s' =>
      match s' with
      | String c' s'' =>
          if Ascii.eqb c "." && Ascii.eqb c' " "
          then string_of_list_ascii (rev pending) :: splitSentencesFrom [] s''
          else splitSentencesFrom (c :: pending) s'
      | EmptyString => splitSentencesFrom (c :: pending) s'
      end
  end.

Definition splitSentences (s : string) : list string :=
  splitSentencesFrom [] s.

(** [truncateText]; every caller leaves [sentenceCount] to its default,
    3. *)
Definition truncateText (text : string) (sentenceCount : nat) : string :=
  if negb (truthy text) then ""
  else
    let sentences := filter truthy (splitSentences text) in
    if (length sentences <=? sentenceCount)%nat then text
    else String.concat ". " (firstn sentenceCount sentences) ++ ".".

(** No full stop of the text is followed by a space. *)
Fixpoint separatorFree (s : string) : bool :=
  match s with
  | EmptyString => true
  | String c s' =>
      match s' with
      | String c' _ =>
          negb (Ascii.eqb c "." && Ascii.eqb c' " ") && separatorFree s'
      | EmptyString => true
      end
  end.

(** The characters of all the pieces together. *)
Definition totalLength (l : list string) : nat :=
  list_sum (map String.length l).


(** ** Loading on mount ([CulturalCompass.tsx]) *)

Definition setIsDbLoading (v : bool) (s : State) : State :=
  mkState (destination s) (movie s) (artist s) (author s) (isGenerated s)
    (isLoading s) (error s) (apiError s) (recommendations s) (itinerary s) v
    (autoplanDescription s) (isAutoplanning s) (autoplanError s)
    (localStorage s).

(** What the awaited reads of [loadDataFromDB] and of the migration give,
    a value or the exception of the rejected promise; [getUserPreferences]
    and [getSession] may find no record. *)
Record DbReads : Type := mkDbReads {
  getUserPreferences : Outcome (option UserPreferences);
  getRecommendations : Outcome (list Recommendation);
  getItinerary : Outcome (list ItineraryItem);
  getSession : Outcome (option bool);
  getStorageStats : Outcome StorageStats
}.

Section Loading.

Variable JSON_parse : string -> option JsonValue.
Variable js_gt_zero : JsonValue -> bool.
Variable db_rejects : DbOp -> option string.

(** [setRecommendations(JSON.parse(...))] and
    [setItinerary(JSON.parse(...))] store the parsed value unchecked;
    these are the lists the component then reads it as. *)
Variable recommendationsOf : JsonValue -> list Recommendation.
Variable itineraryOf : JsonValue -> list ItineraryItem.

(** [loadFromLocalStorage] *)
Definition loadFromLocalStorage : M unit :=
  fun st =>
    let savedRecommendations := localStorage st "kensho-recommendations" in
    let savedItinerary := localStorage st "kensho-itinerary" in
    let savedIsGenerated := localStorage st "kensho-is-generated" in
    ((if truthy_opt savedRecommendations then
        tryCatch
          (parsed <- parse JSON_parse (or_else savedRecommendations "") ;;
           update (setRecommendations (recommendationsOf parsed)))
          (fun _ => ret tt)
      else ret tt) ;;
     (if truthy_opt savedItinerary then
        tryCatch
          (parsed <- parse JSON_parse (or_else savedItinerary "") ;;
           update (setItinerary (itineraryOf parsed)))
          (fun _ => ret tt)
      else ret tt) ;;
     (match savedIsGenerated with
      | Some flag =>
          if String.eqb flag "true" then update (setIsGenerated true)
          else ret tt
      | None => ret tt
      end)) st.

(** The [try] block of [loadDataFromDB]. *)
Definition loadDataTry (reads : DbReads) : M unit :=
  update (setIsDbLoading true) ;;
  preferences <- lift (getUserPreferences reads) ;;
  (match preferences with
   | Some p =>
       update (setDestination (pref_destination p)) ;;
       update (setMovie (pref_movie p)) ;;
       update (setArtist (pref_artist p)) ;;
       update (setAuthor (pref_author p))
   | None => ret tt
   end) ;;
  dbRecommendations <- lift (getRecommendations reads) ;;
  update (setRecommendations dbRecommendations) ;;
  dbItinerary <- lift (getItinerary reads) ;;
  update (setItinerary dbItinerary) ;;
  session <- lift (getSession reads) ;;
  (match session with
   | Some sessionIsGenerated => update (setIsGenerated sessionIsGenerated)
   | None => ret tt
   end) ;;
  migrateFromLocalStorage JSON_parse js_gt_zero db_rejects
    (getStorageStats reads).

(** [loadDataFromDB] *)
Definition loadDataFromDB (reads : DbReads) : M unit :=
  tryFinally
    (tryCatch (loadDataTry reads) (fun _ => loadFromLocalStorage))
    (update (setIsDbLoading false)).

End Loading.

(** The cells after [preferences] was applied. *)
Definition withPreferences (preferences : option UserPreferences) (s : State)
  : State :=
  match preferences with
  | Some p =>
      setAuthor (pref_author p)
        (setArtist (pref_artist p)
           (setMovie (pref_movie p)
              (setDestination (pref_destination p) s)))
  | None => s
  end.

(** Whether one of the four reads of [loadDataFromDB] rejects. *)
Definition readFails (reads : DbReads) : bool :=
  match getUserPreferences reads, getRecommendations reads,
        getItinerary reads, getSession reads with
  | Returned _, Returned _, Returned _, Returned _ => false
  | _, _, _, _ => true
  end.

(** The reading of a parsed legacy array that takes its strings as the
    ids of sample recommendations. *)
Definition scenarioRecommendationsOf (v : JsonValue) : list Recommendation :=
  match v with
  | JArray items =>
      flat_map (fun item => match item with
                            | JString id => [scenarioRecommendation id]
                            | _ => []
                            end) items
  | _ => []
  end.

Definition scenarioItineraryOf (v : JsonValue) : list ItineraryItem :=
  map (fun rec1 => {| item_rec := rec1; day := 1; notes := ""; order := 0 |})
    (scenarioRecommendationsOf v).

(** A database whose every read rejects. *)
Definition brokenReads : DbReads :=
  {| getUserPreferences := Thrown "The database is not available";
     getRecommendations := Thrown "The database is not available";
     getItinerary := Thrown "The database is not available";
     getSession := Thrown "The database is not available";
     getStorageStats := Thrown "The database is not available" |}.

(** A legacy store with a recommendations value that is no JSON text, an
    itinerary and a session flag. *)
Definition fallbackStorage : LocalStorage :=
  setItem "kensho-itinerary" plainReply legacyStorage.

(** ** The chat of the map ([MapInterface.tsx]) *)

Inductive Sender : Set := FromUser | FromAssistant.

(** A [ChatMessage]; [timestamp] is the reading of the clock in
    milliseconds, [suggestions] is optional. *)
Record ChatMessage : Type := mkChatMessage {
  msg_id : string;
  msg_type : Sender;
  content : string;
  timestamp : nat;
  suggestions : option (list string)
}.

(** The [useState] cells of the chat. *)
Record ChatState : Type := mkChatState {
  chatMessages : list ChatMessage;
  currentMessage : string;
  isTyping : bool
}.

(** The initial value of [chatMessages]. *)
Definition genericWelcome (now : nat) : ChatMessage :=
  {| msg_id := "1";
     msg_type := FromAssistant;
     content := "Hello! I'm your AI tour guide. I can help you discover amazing places, plan your itinerary, and answer questions about your destinations. Add some locations from the Cultural Compass to see them on the map!";
     timestamp := now;
     suggestions := Some ["Plan my route efficiently";
                          "Local cultural recommendations";
                          "Best times to visit places";
                          "Hidden gems in my destination"] |}.

Definition personalizedWelcome (userPreferences : UserPreferences) (now : nat)
  : ChatMessage :=
  {| msg_id := "personalized-welcome";
     msg_type := FromAssistant;
     content :=
       "Hello! I'm your AI tour guide for "
       ++ pref_destination userPreferences
       ++ ". Based on your love for "
       ++ quoted (pref_movie userPreferences) ++ ", "
       ++ pref_artist userPreferences ++ ", and "
       ++ pref_author userPreferences
       ++ ", I can provide personalized recommendations and help plan your perfect itinerary! What would you like to explore?";
     timestamp := now;
     suggestions :=
       Some [("Find places like in " ++ pref_movie userPreferences)%string;
             (pref_artist userPreferences ++ " style venues")%string;
             ("Literary spots for " ++ pref_author userPreferences
              ++ " fans")%string;
             "Plan my route efficiently"] |}.

(** [msg.id !== '1' && msg.id !== 'personalized-welcome'] *)
Definition isOrdinary (msg : ChatMessage) : bool :=
  negb (String.eqb (msg_id msg) "1")
  && negb (String.eqb (msg_id msg) "personalized-welcome").

(** The effect on [[userPreferences]], as the update of [chatMessages]. *)
Definition welcomeEffect (userPreferences : option UserPreferences) (now : nat)
  (prev : list ChatMessage) : list ChatMessage :=
  match userPreferences with
  | Some preferences =>
      let filtered := filter isOrdinary prev in
      personalizedWelcome preferences now :: filtered
  | None => prev
  end.

Definition fallbackAnswer : string :=
  "I'm having trouble connecting right now, but I'm here to help with your travel planning! Feel free to ask me about routes, local recommendations, or anything about your destination.".

(** [generateAIResponse]: the prompt is put together from the state by
    string operations, [answer] is what the call of the language model
    gives for it, its text or its exception. *)
Definition generateAIResponse (answer : Outcome string) : Outcome string :=
  match answer with
  | Returned text => Returned text
  | Thrown _ => Returned fallbackAnswer
  end.

Definition answerSuggestions : list string :=
  ["Plan optimal routes"; "Local cultural recommendations";
   "Best times to visit"; "Travel tips for my destination"].

(** [handleSendMessage] up to the awaited answer; [now k] is the k-th
    reading of the clock ([Date.now()] for an id, [new Date()] for a time
    stamp). *)
Definition sendUserMessage (now : nat -> nat) (st : ChatState) : ChatState :=
  let userMessage :=
    {| msg_id := decimal (now 0%nat);
       msg_type := FromUser;
       content := currentMessage st;
       timestamp := now 1%nat;
       suggestions := None |} in
  {| chatMessages := chatMessages st ++ [userMessage];
     currentMessage := "";
     isTyping := true |}.

(** The rest of [handleSendMessage]: [try], [catch] and [finally]. *)
Definition receiveAnswer (now : nat -> nat) (aiResponse : Outcome string)
  (st : ChatState) : ChatState :=
  let reply :=
    match aiResponse with
    | Returned text =>
        {| msg_id := decimal (now 2%nat + 1);
           msg_type := FromAssistant;
           content := text;
           timestamp := now 3%nat;
           suggestions := Some answerSuggestions |}
    | Thrown _ =>
        {| msg_id := decimal (now 2%nat + 1);
           msg_type := FromAssistant;
           content := fallbackAnswer;
           timestamp := now 3%nat;
           suggestions := None |}
    end in
  {| chatMessages := chatMessages st ++ [reply];
     currentMessage := currentMessage st;
     isTyping := false |}.

(** [handleSendMessage] *)
Definition handleSendMessage (now : nat -> nat) (answer : Outcome string)
  (st : ChatState) : ChatState :=
  if negb (truthy (trim (currentMessage st))) then st
  else receiveAnswer now (generateAIResponse answer) (sendUserMessage now st).

(** [handleSuggestionClick] *)
Definition handleSuggestionClick (suggestion : string) (st : ChatState)
  : ChatState :=
  {| chatMessages := chatMessages st;
     currentMessage := suggestion;
     isTyping := isTyping st |}.
(** ** Facts about strings *)

Lemma startsWith_spec (s k : string) :
  startsWith s k = true <-> exists post, s = (k ++ post)%string.
Proof.
  revert s; induction k as [|a k IH]; intros s; simpl.
  - split; [intros _; now exists s | reflexivity].
  - destruct s as [|b s]; simpl.
    + split; [discriminate | intros [post H]; discriminate].
    + rewrite andb_true_iff, Ascii.eqb_eq, IH. split.
      * intros [-> [post ->]]. now exists post.
      * intros [post H]. injection H as -> ->. split; [reflexivity | now exists post].
Qed.

Lemma includes_spec (s k : string) :
  includes s k = true <-> occurs_in k s.
Proof.
  unfold occurs_in. induction s as [|c s IH]; simpl.
  - rewrite startsWith_spec. split.
    + intros [post H]. now exists EmptyString, post.
    + intros [pre [post H]]. destruct pre; [now exists post | discriminate].
  - rewrite orb_true_iff, startsWith_spec, IH. split.
    + intros [[post H] | [pre [post H]]].
      * now exists EmptyString, post.
      * exists (String c pre), post. simpl. now rewrite H.
    + intros [pre [post H]]. destruct pre as [|c' pre]; simpl in H.
      * left. now exists post.
      * right. injection H as _ ->. now exists pre, post.
Qed.

Lemma mentions_existsb (kws : list string) (tags : list Tag) :
  existsb (includes_any kws) (map (fun t => toLowerCase (tag_name t)) tags) = true
  <-> mentions kws tags.
Proof.
  unfold mentions, includes_any. rewrite existsb_exists. split.
  - intros [n [Hin Hk]]. apply in_map_iff in Hin as [t [<- Ht]].
    apply existsb_exists in Hk as [k [Hk Hinc]].
    exists t, k. now rewrite <- includes_spec.
  - intros [t [k [Ht [Hk Hocc]]]]. exists (toLowerCase (tag_name t)). split.
    + apply in_map_iff. now exists t.
    + apply existsb_exists. exists k. now rewrite includes_spec.
Qed.

Lemma mentions_dec (kws : list string) (tags : list Tag) :
  {mentions kws tags} + {~ mentions kws tags}.
Proof.
  destruct (existsb (includes_any kws)
              (map (fun t => toLowerCase (tag_name t)) tags)) eqn:E.
  - left. now apply mentions_existsb.
  - right. intros H. apply mentions_existsb in H. congruence.
Qed.

Lemma mentions_same_set (kws : list string) (tags1 tags2 : list Tag) :
  (forall t, In t tags1 <-> In t tags2) ->
  mentions kws tags1 <-> mentions kws tags2.
Proof.
  intros Hset. unfold mentions.
  split; intros [t [k [Ht H]]]; exists t, k; split; try apply Hset; tauto.
Qed.

(** ** Segment classification *)

Lemma mapTagsToSegment_cases (tags : list Tag) :
  mapTagsToSegment (Some tags) =
    if mentions_dec dine_keywords tags then dine
    else if mentions_dec listen_keywords tags then listen
    else if mentions_dec see_keywords tags then see
    else explore.
Proof.
  unfold mapTagsToSegment.
  repeat match goal with
  | |- context [mentions_dec ?k ?t] =>
      let m := fresh "m" in
      destruct (mentions_dec k t) as [m | m];
      [ apply mentions_existsb in m; rewrite m
      | destruct (existsb (includes_any k) _) eqn:?;
        [ exfalso; apply m; now apply mentions_existsb | ] ]
  end; reflexivity.
Qed.

(** C2. Segment classification is a function of the set of tags and
    follows the priority dine, listen, see, explore: a tag list that
    mentions a dine keyword (in a lower-cased tag name) is [dine]; one that
    mentions no dine keyword but a listen keyword is [listen]; one that
    mentions neither but a see keyword is [see]; one that mentions none is
    [explore].  The five sample tag lists of the specification classify as
    stated. *)
Theorem mapTagsToSegment_priority (tags : list Tag) :
  (mentions dine_keywords tags -> mapTagsToSegment (Some tags) = dine) /\
  (~ mentions dine_keywords tags -> mentions listen_keywords tags ->
   mapTagsToSegment (Some tags) = listen) /\
  (~ mentions dine_keywords tags -> ~ mentions listen_keywords tags ->
   mentions see_keywords tags -> mapTagsToSegment (Some tags) = see) /\
  (~ mentions dine_keywords tags -> ~ mentions listen_keywords tags ->
   ~ mentions see_keywords tags -> mapTagsToSegment (Some tags) = explore) /\
  (forall tags' : list Tag,
     (forall t, In t tags <-> In t tags') ->
     mapTagsToSegment (Some tags') = mapTagsToSegment (Some tags)) /\
  (forall ty : string,
     mapTagsToSegment (Some [mkTag "restaurant" ty]) = dine /\
     mapTagsToSegment (Some [mkTag "jazz" ty]) = listen /\
     mapTagsToSegment (Some [mkTag "museum" ty]) = see /\
     mapTagsToSegment (Some [mkTag "restaurant" ty; mkTag "museum" ty]) = dine) /\
  mapTagsToSegment (Some []) = explore /\
  mapTagsToSegment None = explore.
Proof.
  repeat split; try reflexivity.
  - intros H. rewrite mapTagsToSegment_cases.
    destruct (mentions_dec dine_keywords tags); tauto.
  - intros H1 H2. rewrite mapTagsToSegment_cases.
    destruct (mentions_dec dine_keywords tags); [tauto|].
    destruct (mentions_dec listen_keywords tags); tauto.
  - intros H1 H2 H3. rewrite mapTagsToSegment_cases.
    destruct (mentions_dec dine_keywords tags); [tauto|].
    destruct (mentions_dec listen_keywords tags); [tauto|].
    destruct (mentions_dec see_keywords tags); tauto.
  - intros H1 H2 H3. rewrite mapTagsToSegment_cases.
    destruct (mentions_dec dine_keywords tags); [tauto|].
    destruct (mentions_dec listen_keywords tags); [tauto|].
    destruct (mentions_dec see_keywords tags); tauto.
  - intros tags' Hset. rewrite !mapTagsToSegment_cases.
    pose proof (mentions_same_set dine_keywords _ _ Hset).
    pose proof (mentions_same_set listen_keywords _ _ Hset).
    pose proof (mentions_same_set see_keywords _ _ Hset).
    repeat match goal with
    | |- context [mentions_dec ?k ?t] => destruct (mentions_dec k t)
    end; try reflexivity; tauto.
Qed.

Lemma mapTagsToSegment_priority_witness :
  mapTagsToSegment
    (Some [mkTag "Ramen Restaurant" "urn:tag:genre"; mkTag "Museum" "urn:tag:genre"])
    = dine /\
  mapTagsToSegment (Some [mkTag "Live Jazz" "urn:tag:genre"]) = listen /\
  mapTagsToSegment (Some [mkTag "Scenic View" "urn:tag:genre"]) = see /\
  mapTagsToSegment (Some [mkTag "Park" "urn:tag:genre"]) = explore.
Proof.
  assert (Hno : forall kws tags,
             existsb (includes_any kws)
               (map (fun t => toLowerCase (tag_name t)) tags) = false ->
             ~ mentions kws tags).
  { intros kws tags E H. apply mentions_existsb in H. congruence. }
  split; [| split; [| split]].
  - apply (proj1 (mapTagsToSegment_priority _)).
    apply mentions_existsb. reflexivity.
  - apply (proj1 (proj2 (mapTagsToSegment_priority _))).
    + apply Hno. reflexivity.
    + apply mentions_existsb. reflexivity.
  - apply (proj1 (proj2 (proj2 (mapTagsToSegment_priority _)))).
    + apply Hno. reflexivity.
    + apply Hno. reflexivity.
    + apply mentions_existsb. reflexivity.
  - apply (proj1 (proj2 (proj2 (proj2 (mapTagsToSegment_priority _))))).
    + apply Hno. reflexivity.
    + apply Hno. reflexivity.
    + apply Hno. reflexivity.
Defined.

(** ** The sort by popularity *)






(** ** Mapping with the index *)



Lemma mapi_from_map {A B C : Type} (f : A -> nat -> B) (g : B -> C)
  (h : A -> C) (l : list A) :
  (forall a i, g (f a i) = h a) ->
  forall start, map g (mapi_from start f l) = map h l.
Proof.
  intros Hgh. induction l as [|a l IH]; simpl; intros; [reflexivity|].
  now rewrite Hgh, IH.
Qed.

Lemma mapi_from_Forall {A B : Type} (f : A -> nat -> B) (P : B -> Prop)
  (l : list A) :
  forall start,
    (forall a i, In a l -> (start <= i < start + length l)%nat -> P (f a i)) ->
    Forall P (mapi_from start f l).
Proof.
  induction l as [|a l IH]; simpl; intros start H; constructor.
  - apply H; [now left | lia].
  - apply IH. intros b i Hb Hi. apply H; [now right | lia].
Qed.

(** ** Rank, radius and display coordinates *)



Lemma radarRadius_real (rank : Q) :
  Q2R (radarRadius rank) = (25 + (1 - Q2R rank) * 70)%R.
Proof.
  unfold radarRadius. rewrite Q2R_plus, Q2R_mult, Q2R_minus.
  unfold Q2R at 1 2 4; simpl. lra.
Qed.






(** ** The recommendation mapper *)





(** ** The itinerary reconciler *)

Lemma find_item_id_None (id : string) (l : list ItineraryItem) :
  find (fun item => String.eqb (item_id item) id) l = None
  <-> ~ In id (map item_id l).
Proof.
  induction l as [|a l IH]; simpl.
  - tauto.
  - destruct (String.eqb_spec (item_id a) id) as [E|E].
    + split; [discriminate | intros H; exfalso; apply H; now left].
    + rewrite IH. tauto.
Qed.

(** C4. Adding a recommendation whose id the itinerary already holds
    changes nothing (neither the state nor the database is touched);
    adding one whose id is absent appends it with day 1, empty notes and
    the previous length as order; hence adding the same recommendation a
    second time leaves the itinerary as the first add left it. *)
Theorem addToItinerary_idempotent (rec : Recommendation) (st : State) :
  (In (rec_id rec) (map item_id (itinerary st)) ->
   final (addToItinerary rec st) = st /\ calls (addToItinerary rec st) = []) /\
  (~ In (rec_id rec) (map item_id (itinerary st)) ->
   itinerary (final (addToItinerary rec st))
     = itinerary st ++ [mkItineraryItem rec 1 "" (length (itinerary st))] /\
   calls (addToItinerary rec st)
     = [AddToItinerary (mkItineraryItem rec 1 "" (length (itinerary st)))]) /\
  itinerary (final (addToItinerary rec (final (addToItinerary rec st))))
    = itinerary (final (addToItinerary rec st)) /\
  calls (addToItinerary rec (final (addToItinerary rec st))) = [].
Proof.
  assert (Hpresent : forall s : State,
            In (rec_id rec) (map item_id (itinerary s)) ->
            final (addToItinerary rec s) = s /\ calls (addToItinerary rec s) = []).
  { intros s Hin. unfold addToItinerary.
    destruct (find _ (itinerary s)) eqn:E.
    - split; reflexivity.
    - apply find_item_id_None in E. contradiction. }
  assert (Habsent : ~ In (rec_id rec) (map item_id (itinerary st)) ->
            itinerary (final (addToItinerary rec st))
              = itinerary st ++ [mkItineraryItem rec 1 "" (length (itinerary st))] /\
            calls (addToItinerary rec st)
              = [AddToItinerary (mkItineraryItem rec 1 "" (length (itinerary st)))]).
  { intros Hout. unfold addToItinerary.
    destruct (find _ (itinerary st)) eqn:E.
    - apply find_some in E as [Hin Heq]. apply String.eqb_eq in Heq.
      exfalso. apply Hout. rewrite <- Heq. now apply in_map.
    - split; reflexivity. }
  split; [apply Hpresent | split; [exact Habsent|]].
  assert (Hnow : In (rec_id rec)
                   (map item_id (itinerary (final (addToItinerary rec st))))).
  { destruct (in_dec string_dec (rec_id rec) (map item_id (itinerary st)))
      as [Hin|Hout].
    - destruct (Hpresent st Hin) as [-> _]. exact Hin.
    - destruct (Habsent Hout) as [-> _].
      rewrite map_app, in_app_iff. right. now left. }
  destruct (Hpresent _ Hnow) as [-> ->]. split; reflexivity.
Qed.

Lemma addToItinerary_idempotent_witness :
  (final (addToItinerary (scenarioRecommendation "C") scenarioState)
     = scenarioState /\
   calls (addToItinerary (scenarioRecommendation "C") scenarioState) = []) /\
  (itinerary (final (addToItinerary (scenarioRecommendation "A") scenarioState))
     = itinerary scenarioState
       ++ [mkItineraryItem (scenarioRecommendation "A") 1 "" 1] /\
   calls (addToItinerary (scenarioRecommendation "A") scenarioState)
     = [AddToItinerary (mkItineraryItem (scenarioRecommendation "A") 1 "" 1)]).
Proof.
  split.
  - apply (proj1 (addToItinerary_idempotent
                    (scenarioRecommendation "C") scenarioState)).
    simpl. left. reflexivity.
  - apply (proj1 (proj2 (addToItinerary_idempotent
                           (scenarioRecommendation "A") scenarioState))).
    simpl. intros [H|[]]. discriminate H.
Defined.

(** ** The map location projector *)

Lemma convertToMapLocation_coordinates (item : Recommendation)
  (type : LocationType) :
  exists loc : Location,
    convertToMapLocation item type = Some loc /\
    loc_id loc = rec_id item /\ loc_type loc = type /\
    (forall la lo : Q,
       latitude item = Some la -> longitude item = Some lo ->
       ~ (la == 0)%Q -> ~ (lo == 0)%Q -> coordinates loc = (lo, la)) /\
    (latitude item = None \/ longitude item = None ->
     coordinates loc = defaultCoordinates).
Proof.
  unfold convertToMapLocation. eexists. split; [reflexivity|]. simpl.
  split; [reflexivity|]. split; [reflexivity|]. split.
  - intros la lo -> -> Hla Hlo. unfold truthy_number.
    destruct (Qeq_bool la 0) eqn:E1; [apply Qeq_bool_iff in E1; contradiction|].
    destruct (Qeq_bool lo 0) eqn:E2; [apply Qeq_bool_iff in E2; contradiction|].
    reflexivity.
  - intros [-> | ->]; [reflexivity|]. now destruct (latitude item).
Qed.

(** C9 (the code departs from the specification). A record that holds both a
    latitude and a longitude, the latitude being 0, is projected to the
    default point and not to its own [longitude, latitude]. *)
Theorem convertToMapLocation_zero_latitude :
  latitude equatorRecommendation = Some 0%Q /\
  longitude equatorRecommendation = Some (- (784558 # 10000))%Q /\
  option_map coordinates (convertToMapLocation equatorRecommendation TItinerary)
    = Some defaultCoordinates /\
  defaultCoordinates <> ((- (784558 # 10000))%Q, 0%Q).
Proof.
  split; [reflexivity|]. split; [reflexivity|]. split; [reflexivity|].
  discriminate.
Qed.

(** ** Effects and the preference reset *)

Lemma forEach_callAndForget (items : list ItineraryItem) (st : State) :
  final (forEach items (fun item => callAndForget (AddToItinerary item)) st) = st
  /\ calls (forEach items (fun item => callAndForget (AddToItinerary item)) st)
     = map AddToItinerary items.
Proof.
  induction items as [|item items [IHf IHc]]; simpl.
  - split; reflexivity.
  - unfold bind. simpl. rewrite IHf, IHc. split; reflexivity.
Qed.

Lemma setPreference_get (f : PrefField) (v : string) (st : State) :
  getPreference f (setPreference f v st) = v.
Proof. destruct f; reflexivity. Qed.

Lemma setPreference_frame (f : PrefField) (v : string) (st : State) :
  isDbLoading (setPreference f v st) = isDbLoading st /\
  isGenerated (setPreference f v st) = isGenerated st.
Proof. destruct f; split; reflexivity. Qed.



(** ** Generation and the persisted recommendations *)









(** ** Laws of the handler computations *)

Lemma run_eta {A : Type} (r : Run A) :
  mkRun (final r) (calls r) (outcome r) = r.
Proof. destruct r; reflexivity. Qed.

Lemma bind_lift_returned {A B : Type} (a : A) (k : A -> M B) (st : State) :
  bind (lift (Returned a)) k st = k a st.
Proof. unfold bind, lift. simpl. apply run_eta. Qed.

Lemma bind_lift_thrown {A B : Type} (message : string) (k : A -> M B)
  (st : State) :
  bind (lift (Thrown message)) k st = mkRun st [] (Thrown message).
Proof. reflexivity. Qed.

Lemma bind_update {B : Type} (f : State -> State) (k : unit -> M B)
  (st : State) :
  bind (update f) k st = k tt (f st).
Proof. unfold bind, update. simpl. apply run_eta. Qed.

Lemma bind_ret {A B : Type} (a : A) (k : A -> M B) (st : State) :
  bind (ret a) k st = k a st.
Proof. unfold bind, ret. simpl. apply run_eta. Qed.

Lemma bind_call (db_rejects : DbOp -> option string) {B : Type} (op : DbOp)
  (k : unit -> M B) (st : State) :
  bind (call db_rejects op) k st =
  match db_rejects op with
  | Some message => mkRun st [op] (Thrown message)
  | None => mkRun (final (k tt st)) (op :: calls (k tt st)) (outcome (k tt st))
  end.
Proof. unfold bind, call. simpl. destruct (db_rejects op); reflexivity. Qed.

(** ** Autoplan *)

Lemma forEach_call (db_rejects : DbOp -> option string)
  (items : list ItineraryItem) (st : State) :
  final (forEach items (fun item => call db_rejects (AddToItinerary item)) st)
    = st /\
  ((outcome (forEach items
               (fun item => call db_rejects (AddToItinerary item)) st)
      = Returned tt /\
    calls (forEach items (fun item => call db_rejects (AddToItinerary item)) st)
      = map AddToItinerary items) \/
   exists message : string,
     outcome (forEach items
                (fun item => call db_rejects (AddToItinerary item)) st)
       = Thrown message).
Proof.
  induction items as [|item items [IHf IH]]; simpl.
  - split; [reflexivity | left; split; reflexivity].
  - rewrite bind_call.
    destruct (db_rejects (AddToItinerary item)) as [m|]; simpl.
    + split; [reflexivity | right; now exists m].
    + split; [exact IHf|].
      destruct IH as [[Ho Hc] | [m Hm]].
      * left. now rewrite Ho, Hc.
      * right. now exists m.
Qed.

Lemma autoplanTry_run (JSON_parse : string -> option JsonValue)
  (db_rejects : DbOp -> option string) (reply : Outcome string)
  (st0 st : State) :
  let r := autoplanTry JSON_parse db_rejects reply st0 st in
  match autoplanSelection JSON_parse reply (recommendations st0) with
  | Thrown message => r = mkRun st [] (Thrown message)
  | Returned [] =>
      r = mkRun (setAutoplanError (Some autoplanNoMatchMessage) st) []
            (Returned tt)
  | Returned selected =>
      let items := newItineraryItems (autoplanDescription st0) selected in
      r = mkRun (setAutoplanDescription "" (setItinerary items (setItinerary [] st)))
            (ClearItinerary :: map AddToItinerary items) (Returned tt)
      \/ (exists message : string,
            outcome r = Thrown message /\
            (final r = setItinerary [] st
             \/ final r = setItinerary items (setItinerary [] st)))
  end.
Proof.
  unfold autoplanTry, autoplanSelection.
  destruct reply as [response|m]; [|reflexivity].
  rewrite bind_lift_returned.
  destruct (parseSelectedIds JSON_parse response) as [ids|m]; [|reflexivity].
  rewrite bind_lift_returned.
  destruct (filterSelected ids (recommendations st0)) as [selected|m];
    [|reflexivity].
  rewrite bind_lift_returned.
  destruct selected as [|rec1 selected]; [reflexivity|].
  cbn [length Nat.eqb].
  set (items := newItineraryItems (autoplanDescription st0) (rec1 :: selected)).
  cbv zeta. clearbody items. rewrite bind_update, bind_call.
  destruct (db_rejects ClearItinerary) as [m|].
  - right. exists m. simpl. auto.
  - rewrite bind_update.
    destruct (forEach_call db_rejects items (setItinerary items (setItinerary [] st)))
      as [Hf [[Ho Hc] | [m Hm]]].
    + left. unfold bind. cbv zeta. rewrite Ho. simpl. rewrite Hf, Hc.
      now rewrite app_nil_r.
    + right. exists m. unfold bind. cbv zeta. rewrite Hm. simpl.
      rewrite Hf. auto.
Qed.

Lemma handleAutoplan_guarded (JSON_parse : string -> option JsonValue)
  (db_rejects : DbOp -> option string) (key : option string)
  (reply : Outcome string) (st : State) :
  autoplanReady key st = false ->
  exists message : string,
    autoplanError (final (handleAutoplan JSON_parse db_rejects key reply st))
      = Some message /\
    itinerary (final (handleAutoplan JSON_parse db_rejects key reply st))
      = itinerary st /\
    calls (handleAutoplan JSON_parse db_rejects key reply st) = [].
Proof.
  unfold autoplanReady, handleAutoplan. intros Hnot.
  destruct (truthy (trim (autoplanDescription st))); simpl in *;
    [|eexists; repeat split].
  destruct (hasRequiredInputs st); simpl in *; [|eexists; repeat split].
  destruct (isGenerated st); simpl in *; [|eexists; repeat split].
  destruct (length (recommendations st) =? 0)%nat; simpl in *;
    [eexists; repeat split|].
  rewrite Hnot. simpl. eexists; repeat split.
Qed.

Lemma handleAutoplan_run (JSON_parse : string -> option JsonValue)
  (db_rejects : DbOp -> option string) (key : option string)
  (reply : Outcome string) (st : State) :
  autoplanReady key st = true ->
  let r := handleAutoplan JSON_parse db_rejects key reply st in
  match autoplanSelection JSON_parse reply (recommendations st) with
  | Thrown message =>
      itinerary (final r) = itinerary st /\ calls r = [] /\
      autoplanError (final r)
        = Some (or_else (Some message) autoplanFallbackMessage)
  | Returned [] =>
      itinerary (final r) = itinerary st /\ calls r = [] /\
      autoplanError (final r) = Some autoplanNoMatchMessage
  | Returned selected =>
      let items := newItineraryItems (autoplanDescription st) selected in
      (autoplanError (final r) = None /\
       itinerary (final r) = items /\
       calls r = ClearItinerary :: map AddToItinerary items /\
       autoplanDescription (final r) = "") \/
      (exists message : string,
         autoplanError (final r) = Some message /\
         (itinerary (final r) = [] \/ itinerary (final r) = items))
  end.
Proof.
  unfold autoplanReady. intros Hready.
  repeat (apply andb_true_iff in Hready as [Hready ?]).
  apply negb_true_iff in H0.
  unfold handleAutoplan. rewrite Hready, H2, H1, H0, H. cbn [negb orb].
  rewrite !bind_update.
  pose proof (autoplanTry_run JSON_parse db_rejects reply st
                (setAutoplanError None (setIsAutoplanning true st))) as Hrun.
  cbv zeta in Hrun. unfold tryFinally, tryCatch. cbv zeta.
  destruct (autoplanSelection JSON_parse reply (recommendations st))
    as [[|rec1 selected]|m].
  - rewrite Hrun. simpl. auto.
  - set (items := newItineraryItems (autoplanDescription st) (rec1 :: selected))
      in *. clearbody items.
    destruct Hrun as [Hrun | [m [Ho Hf]]].
    + left. rewrite Hrun. simpl. rewrite app_nil_r. auto.
    + right. rewrite Ho. simpl. eexists. split; [reflexivity|].
      destruct Hf as [-> | ->]; simpl; auto.
  - rewrite Hrun. simpl. auto.
Qed.



Lemma newItineraryItems_recs (description : string)
  (selected : list Recommendation) :
  map item_rec (newItineraryItems description selected) = selected.
Proof.
  unfold newItineraryItems, mapi.
  rewrite mapi_from_map with (h := fun rec : Recommendation => rec);
    [apply map_id | reflexivity].
Qed.



Lemma filterSelected_selectsNone (ids : JsonValue)
  (recs : list Recommendation) :
  hasIncludes ids = true -> selectsNone ids recs = true ->
  filterSelected ids recs = Returned [].
Proof.
  intros Hhas. induction recs as [|rec1 rest IH]; [reflexivity|].
  cbn [selectsNone forallb filterSelected]. intros Hnone.
  apply andb_true_iff in Hnone as [Hrec Hrest].
  fold (selectsNone ids rest) in Hrest. rewrite (IH Hrest).
  destruct (jsIncludes ids (rec_id rec1)) as [[|]|message] eqn:Hincludes.
  - discriminate Hrec.
  - reflexivity.
  - destruct ids; discriminate.
Qed.

Lemma filterSelected_no_includes (ids : JsonValue) (rec1 : Recommendation)
  (rest : list Recommendation) :
  hasIncludes ids = false ->
  exists message : string,
    message <> EmptyString /\
    (forall id : string, jsIncludes ids id = Thrown message) /\
    filterSelected ids (rec1 :: rest) = Thrown message.
Proof.
  intros Hhas. destruct ids; try discriminate Hhas;
    eexists; (split; [|split; [intros id; reflexivity | reflexivity]]);
    discriminate.
Qed.

(** C6 (amended). With the guards passed and a reply received: a reply
    that parses as JSON is used as parsed, the quoted substrings being
    consulted only when the parse fails; a reply that neither parses nor
    holds a quoted substring ends in the parse error.  Whenever no current
    recommendation matches the ids obtained, an error is surfaced, the
    itinerary is what it was and no database call is made: the error is
    the no-match message when the value obtained is an array or a string,
    and the message of the [TypeError] of [includes] when it is a number,
    a boolean, [null] or an object.  When the selection itself fails, the
    failure is the autoplan error and the itinerary is again untouched.  A
    run that reports no error never leaves an empty itinerary. *)
Theorem handleAutoplan_no_matches (JSON_parse : string -> option JsonValue)
  (db_rejects : DbOp -> option string) (key : option string)
  (response : string) (st : State) :
  autoplanReady key st = true ->
  (forall v : JsonValue,
     JSON_parse response = Some v ->
     parseSelectedIds JSON_parse response = Returned v) /\
  (JSON_parse response = None ->
   matchQuoted response <> [] ->
   parseSelectedIds JSON_parse response
     = Returned (JArray (map (fun m => JString (removeQuotes m))
                           (matchQuoted response)))) /\
  (JSON_parse response = None ->
   matchQuoted response = [] ->
   autoplanError
     (final (handleAutoplan JSON_parse db_rejects key (Returned response) st))
     = Some autoplanParseMessage /\
   itinerary
     (final (handleAutoplan JSON_parse db_rejects key (Returned response) st))
     = itinerary st /\
   calls (handleAutoplan JSON_parse db_rejects key (Returned response) st) = []) /\
  (forall ids : JsonValue,
     parseSelectedIds JSON_parse response = Returned ids ->
     selectsNone ids (recommendations st) = true ->
     itinerary
       (final (handleAutoplan JSON_parse db_rejects key (Returned response) st))
       = itinerary st /\
     calls (handleAutoplan JSON_parse db_rejects key (Returned response) st)
       = [] /\
     autoplanError
       (final (handleAutoplan JSON_parse db_rejects key (Returned response) st))
       <> None /\
     (hasIncludes ids = true ->
      autoplanError
        (final (handleAutoplan JSON_parse db_rejects key (Returned response)
                  st))
        = Some autoplanNoMatchMessage) /\
     (hasIncludes ids = false ->
      exists message : string,
        (forall id : string, jsIncludes ids id = Thrown message) /\
        autoplanError
          (final (handleAutoplan JSON_parse db_rejects key (Returned response)
                    st))
          = Some message)) /\
  (forall message : string,
     autoplanSelection JSON_parse (Returned response) (recommendations st)
       = Thrown message ->
     autoplanError
       (final (handleAutoplan JSON_parse db_rejects key (Returned response) st))
       = Some (or_else (Some message) autoplanFallbackMessage) /\
     itinerary
       (final (handleAutoplan JSON_parse db_rejects key (Returned response) st))
       = itinerary st /\
     calls (handleAutoplan JSON_parse db_rejects key (Returned response) st)
       = []) /\
  (autoplanError
     (final (handleAutoplan JSON_parse db_rejects key (Returned response) st))
     = None ->
   itinerary
     (final (handleAutoplan JSON_parse db_rejects key (Returned response) st))
     <> []).
Proof.
  intros Hready.
  pose proof (handleAutoplan_run JSON_parse db_rejects key (Returned response)
                st Hready) as Hrun. cbv zeta in Hrun.
  split; [|split; [|split; [|split; [|split]]]].
  - intros v Hv. unfold parseSelectedIds. now rewrite Hv.
  - intros Hnone Hsome. unfold parseSelectedIds. rewrite Hnone.
    destruct (matchQuoted response); [contradiction | reflexivity].
  - intros Hnone Hno. unfold autoplanSelection, parseSelectedIds in Hrun.
    rewrite Hnone, Hno in Hrun. destruct Hrun as [Hit [Hc He]].
    rewrite He. auto.
  - intros ids Hids Hsel. unfold autoplanSelection in Hrun. rewrite Hids in Hrun.
    destruct (hasIncludes ids) eqn:Hhas.
    + rewrite (@filterSelected_selectsNone ids (recommendations st) Hhas Hsel) in Hrun.
      destruct Hrun as [Hit [Hc He]]. rewrite He.
      repeat split; auto; discriminate.
    + assert (Hsome : exists rec1 rest, recommendations st = rec1 :: rest).
      { unfold autoplanReady in Hready.
        destruct (recommendations st) as [|rec1 rest]; [|now eauto].
        cbn [length Nat.eqb negb] in Hready.
        rewrite andb_false_r in Hready. discriminate Hready. }
      destruct Hsome as [rec1 [rest Hrecs]]. rewrite Hrecs in Hrun.
      destruct (@filterSelected_no_includes ids rec1 rest Hhas)
        as [message [Hne [Hthrown Hfilter]]].
      rewrite Hfilter in Hrun. destruct Hrun as [Hit [Hc He]].
      assert (Hmsg : or_else (Some message) autoplanFallbackMessage = message)
        by (destruct message; [now elim Hne | reflexivity]).
      rewrite Hmsg in He. rewrite He.
      split; [exact Hit|]. split; [exact Hc|]. split; [discriminate|].
      split; [discriminate|]. intros _. now exists message.
  - intros message Hsel. rewrite Hsel in Hrun. tauto.
  - intros Hok Hempty.
    destruct (autoplanSelection JSON_parse (Returned response)
                (recommendations st)) as [[|rec1 selected]|message].
    + destruct Hrun as [_ [_ He]]. congruence.
    + destruct Hrun as [[_ [Hit _]] | [message [He _]]]; [|congruence].
      rewrite Hit in Hempty.
      apply (f_equal (map item_rec)) in Hempty.
      rewrite newItineraryItems_recs in Hempty. discriminate.
    + destruct Hrun as [_ [_ He]]. congruence.
Qed.

Lemma handleAutoplan_no_matches_witness :
  autoplanError
    (final (handleAutoplan scenarioParse reliableDb (Some "key")
              (Returned strangerReply) scenarioState))
    = Some autoplanNoMatchMessage /\
  itinerary
    (final (handleAutoplan scenarioParse reliableDb (Some "key")
              (Returned strangerReply) scenarioState))
    = itinerary scenarioState /\
  calls (handleAutoplan scenarioParse reliableDb (Some "key")
           (Returned strangerReply) scenarioState) = [].
Proof.
  destruct (proj1 (proj2 (proj2 (proj2
              (@handleAutoplan_no_matches scenarioParse reliableDb (Some "key")
                 strangerReply scenarioState eq_refl))))
              (JArray [JString "Q"]) eq_refl eq_refl)
    as [Hitinerary [Hcalls [_ [Hmessage _]]]].
  split; [exact (Hmessage eq_refl) | split; [exact Hitinerary | exact Hcalls]].
Defined.

(** The claim as first stated fails on a reply that is a JSON number: no
    recommendation matches what was returned and the itinerary is kept,
    but the error surfaced is the message of the [TypeError], not the
    no-match message. *)
Lemma handleAutoplan_number_reply :
  (autoplanReady (Some "key") scenarioState = true /\
   parseSelectedIds numberParse "42" = Returned (JNumber 42) /\
   selectsNone (JNumber 42) (recommendations scenarioState) = true /\
   autoplanError
     (final (handleAutoplan numberParse reliableDb (Some "key") (Returned "42")
               scenarioState))
   = Some "selectedIds.includes is not a function") /\
  ~ (forall ids : JsonValue,
       parseSelectedIds numberParse "42" = Returned ids ->
       selectsNone ids (recommendations scenarioState) = true ->
       autoplanError
         (final (handleAutoplan numberParse reliableDb (Some "key")
                   (Returned "42") scenarioState))
       = Some autoplanNoMatchMessage /\
       itinerary
         (final (handleAutoplan numberParse reliableDb (Some "key")
                   (Returned "42") scenarioState))
       = itinerary scenarioState).
Proof.
  split.
  - repeat split; vm_compute; reflexivity.
  - intros Hclaim.
    destruct (Hclaim (JNumber 42) eq_refl eq_refl) as [Herror _].
    vm_compute in Herror. discriminate Herror.
Qed.

(** ** Preference migration *)

Section Migration.

Variable JSON_parse : string -> option JsonValue.
Variable js_gt_zero : JsonValue -> bool.
Variable db_rejects : DbOp -> option string.

Lemma tame_ret {A : Type} (P : DbOp -> Prop) (a : A) : tame P (ret a).
Proof. intros st. split; [reflexivity | constructor]. Qed.

Lemma tame_throw {A : Type} (P : DbOp -> Prop) (message : string) :
  tame P (@throw A message).
Proof. intros st. split; [reflexivity | constructor]. Qed.

Lemma tame_lift {A : Type} (P : DbOp -> Prop) (o : Outcome A) :
  tame P (lift o).
Proof. intros st. split; [reflexivity | constructor]. Qed.

Lemma tame_call (P : DbOp -> Prop) (op : DbOp) :
  P op -> tame P (call db_rejects op).
Proof. intros H st. split; [reflexivity | repeat constructor; exact H]. Qed.

Lemma tame_bind {A B : Type} (P : DbOp -> Prop) (m : M A) (k : A -> M B) :
  tame P m -> (forall a, tame P (k a)) -> tame P (bind m k).
Proof.
  intros Hm Hk st. unfold bind. cbv zeta.
  destruct (Hm st) as [Hf Hc].
  destruct (outcome (m st)) as [a|msg]; simpl.
  - destruct (Hk a (final (m st))) as [Hf' Hc'].
    split; [congruence | apply Forall_app; auto].
  - auto.
Qed.

Lemma tame_bind_returned {A B : Type} (P : DbOp -> Prop) (a : A)
  (k : A -> M B) :
  tame P (k a) -> tame P (bind (lift (Returned a)) k).
Proof. intros H st. rewrite bind_lift_returned. apply H. Qed.

Lemma tame_tryCatch {A : Type} (P : DbOp -> Prop) (m : M A)
  (h : string -> M A) :
  tame P m -> (forall message, tame P (h message)) -> tame P (tryCatch m h).
Proof.
  intros Hm Hh st. unfold tryCatch. cbv zeta.
  destruct (Hm st) as [Hf Hc].
  destruct (outcome (m st)) as [a|msg]; simpl.
  - auto.
  - destruct (Hh msg (final (m st))) as [Hf' Hc'].
    split; [congruence | apply Forall_app; auto].
Qed.

Lemma tame_forEach {A : Type} (P : DbOp -> Prop) (items : list A)
  (body : A -> M unit) :
  (forall a, tame P (body a)) -> tame P (forEach items body).
Proof.
  intros Hb. induction items as [|a items IH]; simpl.
  - apply tame_ret.
  - apply tame_bind; auto.
Qed.

Lemma tame_parse (P : DbOp -> Prop) (text : string) :
  tame P (parse JSON_parse text).
Proof.
  unfold parse. destruct (JSON_parse text); [apply tame_ret | apply tame_throw].
Qed.

(** The blocks under any condition on the calls that their own call
    meets. *)
Lemma migratePreferences_tame (P : DbOp -> Prop) (stats : StorageStats)
  (getItem : LocalStorage) :
  (hasData stats KPreferences = false -> forall p, P (SaveUserPreferences p)) ->
  tame P (migratePreferences db_rejects stats getItem).
Proof.
  intros H. unfold migratePreferences. unfold hasData in H.
  destruct (preferencesCount stats =? 0)%nat; [|apply tame_ret]. cbv zeta.
  match goal with |- tame _ (if ?c then _ else _) => destruct c end;
    [apply tame_call; now apply H | apply tame_ret].
Qed.

Lemma migrateRecommendations_tame (P : DbOp -> Prop) (stats : StorageStats)
  (getItem : LocalStorage) :
  (hasData stats KRecommendations = false ->
   forall v, P (SaveRecommendationsRaw v)) ->
  tame P (migrateRecommendations JSON_parse js_gt_zero db_rejects stats getItem).
Proof.
  intros H. unfold migrateRecommendations. unfold hasData in H.
  destruct (recommendationsCount stats =? 0)%nat; [|apply tame_ret]. cbv zeta.
  destruct (truthy_opt (getItem "kensho-recommendations")); [|apply tame_ret].
  apply tame_tryCatch; [|intros; apply tame_ret].
  apply tame_bind; [apply tame_parse|]. intros recs.
  apply tame_bind; [apply tame_lift|]. intros [|];
    [apply tame_call; now apply H | apply tame_ret].
Qed.

Lemma migrateItinerary_tame (P : DbOp -> Prop) (stats : StorageStats)
  (getItem : LocalStorage) :
  (hasData stats KItinerary = false -> forall v, P (AddToItineraryRaw v)) ->
  tame P (migrateItinerary JSON_parse db_rejects stats getItem).
Proof.
  intros H. unfold migrateItinerary. unfold hasData in H.
  destruct (itineraryCount stats =? 0)%nat; [|apply tame_ret]. cbv zeta.
  destruct (truthy_opt (getItem "kensho-itinerary")); [|apply tame_ret].
  apply tame_tryCatch; [|intros; apply tame_ret].
  apply tame_bind; [apply tame_parse|]. intros items.
  apply tame_bind; [apply tame_lift|]. intros elements.
  apply tame_forEach. intros v. apply tame_call. now apply H.
Qed.

Lemma migrateSession_tame (P : DbOp -> Prop) (stats : StorageStats)
  (getItem : LocalStorage) :
  (hasData stats KSession = false -> forall b, P (SaveSession b)) ->
  tame P (migrateSession db_rejects stats getItem).
Proof.
  intros H. unfold migrateSession. unfold hasData in H.
  destruct (sessionExists stats); [apply tame_ret|]. simpl. 
  destruct (truthy_opt (getItem "kensho-is-generated")); [|apply tame_ret].
  apply tame_call. now apply H.
Qed.

Lemma migrateFromLocalStorage_tame (P : DbOp -> Prop) (stats : StorageStats) :
  (hasData stats KPreferences = false -> forall p, P (SaveUserPreferences p)) ->
  (hasData stats KRecommendations = false ->
   forall v, P (SaveRecommendationsRaw v)) ->
  (hasData stats KItinerary = false -> forall v, P (AddToItineraryRaw v)) ->
  (hasData stats KSession = false -> forall b, P (SaveSession b)) ->
  tame P (migrateFromLocalStorage JSON_parse js_gt_zero db_rejects
            (Returned stats)).
Proof.
  intros Hp Hr Hi Hs.
  assert (H : forall getItem : LocalStorage,
             tame P
               (tryCatch
                  (bind (lift (Returned stats)) (fun hasDbData =>
                   bind (migratePreferences db_rejects hasDbData getItem) (fun _ =>
                   bind (migrateRecommendations JSON_parse js_gt_zero db_rejects
                           hasDbData getItem) (fun _ =>
                   bind (migrateItinerary JSON_parse db_rejects hasDbData getItem)
                     (fun _ => migrateSession db_rejects hasDbData getItem)))))
                  (fun _ => ret tt))).
  { intros getItem. apply tame_tryCatch; [|intros; apply tame_ret].
    apply tame_bind_returned.
    apply tame_bind; [now apply migratePreferences_tame|]. intros _.
    apply tame_bind; [now apply migrateRecommendations_tame|]. intros _.
    apply tame_bind; [now apply migrateItinerary_tame|]. intros _.
    now apply migrateSession_tame. }
  intros st. exact (H (localStorage st) st).
Qed.

Lemma tryCatch_ret_outcome (m : M unit) (st : State) :
  outcome (tryCatch m (fun _ => ret tt) st) = Returned tt.
Proof.
  unfold tryCatch. cbv zeta.
  destruct (outcome (m st)) as [[]|msg] eqn:E; [exact E | reflexivity].
Qed.

Lemma migrateRecommendations_returns (stats : StorageStats)
  (getItem : LocalStorage) (st : State) :
  outcome (migrateRecommendations JSON_parse js_gt_zero db_rejects stats
             getItem st) = Returned tt.
Proof.
  unfold migrateRecommendations.
  destruct (recommendationsCount stats =? 0)%nat; [|reflexivity]. cbv zeta.
  destruct (truthy_opt (getItem "kensho-recommendations")); [|reflexivity].
  apply tryCatch_ret_outcome.
Qed.

Lemma migrateItinerary_returns (stats : StorageStats)
  (getItem : LocalStorage) (st : State) :
  outcome (migrateItinerary JSON_parse db_rejects stats getItem st)
    = Returned tt.
Proof.
  unfold migrateItinerary.
  destruct (itineraryCount stats =? 0)%nat; [|reflexivity]. cbv zeta.
  destruct (truthy_opt (getItem "kensho-itinerary")); [|reflexivity].
  apply tryCatch_ret_outcome.
Qed.

Lemma migrateRecommendations_malformed (stats : StorageStats)
  (getItem : LocalStorage) (text : string) (st : State) :
  getItem "kensho-recommendations" = Some text ->
  JSON_parse text = None ->
  migrateRecommendations JSON_parse js_gt_zero db_rejects stats getItem st
    = mkRun st [] (Returned tt).
Proof.
  intros Hget Hparse. unfold migrateRecommendations.
  destruct (recommendationsCount stats =? 0)%nat; [|reflexivity]. cbv zeta.
  rewrite Hget. destruct text as [|c text]; [reflexivity|].
  simpl. unfold tryCatch, bind, parse. rewrite Hparse. reflexivity.
Qed.

Lemma migrateItinerary_malformed (stats : StorageStats)
  (getItem : LocalStorage) (text : string) (st : State) :
  getItem "kensho-itinerary" = Some text ->
  JSON_parse text = None ->
  migrateItinerary JSON_parse db_rejects stats getItem st
    = mkRun st [] (Returned tt).
Proof.
  intros Hget Hparse. unfold migrateItinerary.
  destruct (itineraryCount stats =? 0)%nat; [|reflexivity]. cbv zeta.
  rewrite Hget. destruct text as [|c text]; [reflexivity|].
  simpl. unfold tryCatch, bind, parse. rewrite Hparse. reflexivity.
Qed.

Lemma migrateFromLocalStorage_blocks (stats : StorageStats) (st : State) :
  calls (migrateFromLocalStorage JSON_parse js_gt_zero db_rejects
           (Returned stats) st)
  = calls (migratePreferences db_rejects stats (localStorage st) st)
    ++ match outcome (migratePreferences db_rejects stats (localStorage st) st)
       with
       | Returned _ =>
           calls (migrateRecommendations JSON_parse js_gt_zero db_rejects
                    stats (localStorage st) st)
           ++ calls (migrateItinerary JSON_parse db_rejects stats
                       (localStorage st) st)
           ++ calls (migrateSession db_rejects stats (localStorage st) st)
       | Thrown _ => []
       end.
Proof.
  set (T := fun _ : DbOp => True).
  assert (HT : forall (A : Type) (m : M A), tame T m -> forall s, final (m s) = s)
    by (intros A m H s; apply H).
  pose proof (HT _ _ (@migratePreferences_tame T stats (localStorage st)
                        (fun _ _ => I))) as Fp.
  pose proof (HT _ _ (@migrateRecommendations_tame T stats (localStorage st)
                        (fun _ _ => I))) as Fr.
  pose proof (HT _ _ (@migrateItinerary_tame T stats (localStorage st)
                        (fun _ _ => I))) as Fi.
  unfold migrateFromLocalStorage. cbv zeta.
  unfold tryCatch. cbv zeta. rewrite bind_lift_returned.
  unfold bind. cbv zeta.
  destruct (outcome (migratePreferences db_rejects stats (localStorage st) st))
    as [[]|m]; simpl.
  2:{ now rewrite app_nil_r. }
  rewrite !Fp, migrateRecommendations_returns. simpl.
  rewrite !Fr, migrateItinerary_returns. simpl.
  rewrite !Fi.
  destruct (outcome (migrateSession db_rejects stats (localStorage st) st));
    simpl; rewrite ?app_nil_r; reflexivity.
Qed.

End Migration.

(** C8. Migration fills only what is empty: for each record kind that the
    Local Store already has data of, no call of the migration touches that
    kind, and when all four kinds have data the migration makes no call at
    all; it never changes the component state.  Its calls are those of the
    preferences block followed, unless a database failure in that block
    ended the migration, by those of the recommendations, itinerary and
    session blocks: the recommendations and itinerary blocks always return
    normally, and on a legacy value that is not JSON they make no call. *)
Theorem migrateFromLocalStorage_fill_empty
  (JSON_parse : string -> option JsonValue) (js_gt_zero : JsonValue -> bool)
  (db_rejects : DbOp -> option string) (stats : StorageStats) (st : State) :
  final (migrateFromLocalStorage JSON_parse js_gt_zero db_rejects
           (Returned stats) st) = st /\
  (forall k : Kind,
     hasData stats k = true ->
     Forall (fun op => touches op k = false)
       (calls (migrateFromLocalStorage JSON_parse js_gt_zero db_rejects
                 (Returned stats) st))) /\
  ((forall k : Kind, hasData stats k = true) ->
   calls (migrateFromLocalStorage JSON_parse js_gt_zero db_rejects
            (Returned stats) st) = []) /\
  calls (migrateFromLocalStorage JSON_parse js_gt_zero db_rejects
           (Returned stats) st)
  = calls (migratePreferences db_rejects stats (localStorage st) st)
    ++ match outcome (migratePreferences db_rejects stats (localStorage st) st)
       with
       | Returned _ =>
           calls (migrateRecommendations JSON_parse js_gt_zero db_rejects
                    stats (localStorage st) st)
           ++ calls (migrateItinerary JSON_parse db_rejects stats
                       (localStorage st) st)
           ++ calls (migrateSession db_rejects stats (localStorage st) st)
       | Thrown _ => []
       end /\
  (forall text : string,
     localStorage st "kensho-recommendations" = Some text ->
     JSON_parse text = None ->
     migrateRecommendations JSON_parse js_gt_zero db_rejects stats
       (localStorage st) st = mkRun st [] (Returned tt)) /\
  (forall text : string,
     localStorage st "kensho-itinerary" = Some text ->
     JSON_parse text = None ->
     migrateItinerary JSON_parse db_rejects stats (localStorage st) st
       = mkRun st [] (Returned tt)) /\
  (forall (getItem : LocalStorage) (s : State),
     outcome (migrateRecommendations JSON_parse js_gt_zero db_rejects stats
                getItem s) = Returned tt /\
     outcome (migrateItinerary JSON_parse db_rejects stats getItem s)
       = Returned tt).
Proof.
  split; [|split; [|split; [|split; [|split; [|split]]]]].
  - apply (@migrateFromLocalStorage_tame JSON_parse js_gt_zero db_rejects
             (fun _ => True) stats); intros; exact I.
  - intros k Hk.
    apply (@migrateFromLocalStorage_tame JSON_parse js_gt_zero db_rejects
             (fun op => touches op k = false) stats);
      intros Hempty payload; destruct k; try reflexivity; congruence.
  - intros Hall.
    assert (Hnone : Forall (fun _ : DbOp => False)
              (calls (migrateFromLocalStorage JSON_parse js_gt_zero db_rejects
                        (Returned stats) st))).
    { apply (@migrateFromLocalStorage_tame JSON_parse js_gt_zero db_rejects
               (fun _ => False) stats); intros Hempty payload.
      - specialize (Hall KPreferences). congruence.
      - specialize (Hall KRecommendations). congruence.
      - specialize (Hall KItinerary). congruence.
      - specialize (Hall KSession). congruence. }
    destruct (calls (migrateFromLocalStorage JSON_parse js_gt_zero db_rejects
                       (Returned stats) st)) as [|op rest]; [reflexivity|].
    inversion Hnone as [|? ? Hop _]. destruct Hop.
  - apply migrateFromLocalStorage_blocks.
  - intros text. apply migrateRecommendations_malformed.
  - intros text. apply migrateItinerary_malformed.
  - intros getItem s. split.
    + apply migrateRecommendations_returns.
    + apply migrateItinerary_returns.
Qed.

Lemma migrateFromLocalStorage_fill_empty_witness :
  Forall (fun op => touches op KPreferences = false)
    (calls (migrateFromLocalStorage scenarioParse (fun _ => false) reliableDb
              (Returned preferencesOnlyStats) legacyState)) /\
  migrateRecommendations scenarioParse (fun _ => false) reliableDb
    preferencesOnlyStats (localStorage legacyState) legacyState
    = mkRun legacyState [] (Returned tt).
Proof.
  split.
  - apply (proj1 (proj2 (@migrateFromLocalStorage_fill_empty scenarioParse
                           (fun _ => false) reliableDb preferencesOnlyStats
                           legacyState)) KPreferences).
    reflexivity.
  - apply (proj1 (proj2 (proj2 (proj2 (proj2
             (@migrateFromLocalStorage_fill_empty scenarioParse
                (fun _ => false) reliableDb preferencesOnlyStats
                legacyState))))) "[{broken").
    + reflexivity.
    + reflexivity.
Defined.

(** ** The quoted substrings of a reply *)

Lemma removeQuotes_quoted (l : list ascii) :
  Forall (fun c => c <> dquote) l ->
  removeQuotes (quoted (string_of_list_ascii l)) = string_of_list_ascii l.
Proof.
  intros Hfree. unfold quoted.
  change (removeQuotes (String dquote ?s)) with (removeQuotes s).
  induction Hfree as [|c l Hc _ IH]; simpl.
  - reflexivity.
  - destruct (Ascii.eqb_spec c dquote) as [E|_]; [contradiction|].
    fold dquote. now rewrite IH.
Qed.

(** Every match is a non-empty run of characters other than the double
    quote, between two double quotes; stripping the quotes gives the run. *)
Lemma matchQuotedFrom_shape (s : string) :
  forall open : option (list ascii),
    (forall run, open = Some run -> Forall (fun c => c <> dquote) run) ->
    Forall (fun m =>
              exists l : list ascii,
                l <> [] /\ Forall (fun c => c <> dquote) l /\
                m = quoted (string_of_list_ascii l) /\
                removeQuotes m = string_of_list_ascii l)
           (matchQuotedFrom open s).
Proof.
  induction s as [|c s IH]; intros open Hopen; simpl; [constructor|].
  destruct open as [[|c0 run]|].
  - destruct (Ascii.eqb_spec c dquote) as [E|E]; apply IH; intros run H;
      injection H as <-; repeat constructor; exact E.
  - specialize (Hopen _ eq_refl).
    destruct (Ascii.eqb_spec c dquote) as [E|E].
    + constructor; [|apply IH; discriminate].
      exists (rev (c0 :: run)).
      assert (Hfree : Forall (fun a => a <> dquote) (rev (c0 :: run)))
        by (apply Forall_rev; exact Hopen).
      split.
      { simpl. intros H. apply app_eq_nil in H as [_ H]. discriminate. }
      split; [exact Hfree|]. split; [reflexivity|].
      now apply removeQuotes_quoted.
    + apply IH. intros run' H. injection H as <-. constructor; assumption.
  - destruct (Ascii.eqb_spec c dquote) as [E|E]; apply IH.
    + intros run H. injection H as <-. constructor.
    + discriminate.
Qed.

(** ** The handlers on the sample data *)

Example matchQuoted_fencedReply :
  map removeQuotes (matchQuoted fencedReply) = ["A"; "B"; "Z"]%string.
Proof. reflexivity. Qed.

Example matchQuoted_unclosed :
  matchQuoted (String dquote "A, B") = [] /\
  matchQuoted (String dquote (String dquote (quoted "A")))
    = [quoted "A"].
Proof. split; reflexivity. Qed.

Example sortByPopularity_stable :
  map entity_id
    (sortByPopularity
       [scenarioEntity "a" 50; scenarioEntity "b" 90; scenarioEntity "c" 10;
        scenarioEntity "d" (180 # 2); scenarioEntity "e" 50]%Q)
  = ["b"; "d"; "a"; "e"; "c"]%string.
Proof. reflexivity. Qed.

Example handleAutoplan_plainReply :
  map (fun item => (item_id item, day item, order item))
    (itinerary (final (handleAutoplan scenarioParse reliableDb (Some "key")
                         (Returned plainReply) scenarioState)))
  = [("A", 1, 0); ("B", 1, 1)]%string.
Proof. reflexivity. Qed.

Example migrateFromLocalStorage_legacy :
  calls (migrateFromLocalStorage scenarioParse (fun _ => false) reliableDb
           (Returned preferencesOnlyStats) legacyState)
  = [SaveSession true].
Proof. reflexivity. Qed.

(** * Further properties of the code *)

(** ** The itinerary reconciler: removal, updates, display order *)

Lemma filter_other_ids (id : string) (l : list ItineraryItem) :
  ~ In id (map item_id l) ->
  filter (fun item => negb (String.eqb (item_id item) id)) l = l.
Proof.
  induction l as [|a l IH]; simpl; intros H; [reflexivity|].
  destruct (String.eqb_spec (item_id a) id) as [E|E]; simpl.
  - exfalso. apply H. now left.
  - rewrite IH; [reflexivity | tauto].
Qed.

(** Removal drops exactly the items with the given id and keeps the others
    in their order, every other cell of the state being left alone: it
    works item by item, from left to right (the result for an itinerary
    cut in two is the result for the first part followed by the result for
    the second, and a single item is dropped or kept by its id);
    afterwards the id is absent, so a later add of a recommendation with
    that id appends it again. *)
Theorem removeFromItinerary_removes (id : string) (st : State) :
  fst (removeFromItinerary id st)
  = setItinerary
      (filter (fun item => negb (String.eqb (item_id item) id)) (itinerary st))
      st /\
  (forall before after : list ItineraryItem,
     itinerary st = before ++ after ->
     itinerary (fst (removeFromItinerary id st))
     = itinerary (fst (removeFromItinerary id (setItinerary before st)))
       ++ itinerary (fst (removeFromItinerary id (setItinerary after st)))) /\
  (forall item : ItineraryItem,
     itinerary (fst (removeFromItinerary id (setItinerary [item] st)))
     = if String.eqb (item_id item) id then [] else [item]) /\
  ~ In id (map item_id (itinerary (fst (removeFromItinerary id st)))) /\
  (forall item : ItineraryItem,
     In item (itinerary (fst (removeFromItinerary id st))) <->
     In item (itinerary st) /\ item_id item <> id) /\
  (~ In id (map item_id (itinerary st)) ->
   itinerary (fst (removeFromItinerary id st)) = itinerary st) /\
  snd (removeFromItinerary id st) = [RemoveFromItinerary id] /\
  (forall rec : Recommendation,
     rec_id rec = id ->
     itinerary (final (addToItinerary rec (fst (removeFromItinerary id st))))
     = itinerary (fst (removeFromItinerary id st))
       ++ [mkItineraryItem rec 1 ""
             (length (itinerary (fst (removeFromItinerary id st))))]).
Proof.
  assert (Habsent :
            ~ In id (map item_id (itinerary (fst (removeFromItinerary id st))))).
  { simpl. intros H. apply in_map_iff in H as [item [Hid Hin]].
    apply filter_In in Hin as [_ Hne]. apply negb_true_iff in Hne.
    apply String.eqb_neq in Hne. contradiction. }
  split; [reflexivity|].
  split.
  { intros before after Hsplit. simpl. rewrite Hsplit. apply filter_app. }
  split.
  { intros item. simpl. now destruct (String.eqb (item_id item) id). }
  split; [exact Habsent|]. split; [|split; [|split]].
  - intros item. simpl. rewrite filter_In, negb_true_iff, String.eqb_neq.
    tauto.
  - intros H. simpl. now apply filter_other_ids.
  - reflexivity.
  - intros rec Hrec. unfold addToItinerary.
    destruct (find _ _) as [found|] eqn:E; [|reflexivity].
    apply find_some in E as [Hin Heq]. apply String.eqb_eq in Heq.
    exfalso. apply Habsent. apply in_map_iff. exists found.
    split; [congruence | exact Hin].
Qed.

Lemma removeFromItinerary_removes_witness :
  itinerary (fst (removeFromItinerary "A" scenarioState))
  = itinerary scenarioState.
Proof.
  apply (proj1 (proj2 (proj2 (proj2 (proj2 (proj2
           (removeFromItinerary_removes "A" scenarioState))))))).
  simpl. intros [H | []]. discriminate H.
Defined.

(** Adding a recommendation whose id is absent and then removing that id
    gives back the itinerary. *)
Theorem removeFromItinerary_after_add (rec : Recommendation) (st : State) :
  ~ In (rec_id rec) (map item_id (itinerary st)) ->
  itinerary (fst (removeFromItinerary (rec_id rec)
                    (final (addToItinerary rec st))))
  = itinerary st.
Proof.
  intros Habsent. unfold addToItinerary.
  destruct (find _ (itinerary st)) as [found|] eqn:E.
  - apply find_some in E as [Hin Heq]. apply String.eqb_eq in Heq.
    exfalso. apply Habsent. rewrite <- Heq. now apply in_map.
  - simpl. rewrite filter_app. simpl. unfold item_id at 2. simpl.
    rewrite String.eqb_refl. simpl. rewrite app_nil_r.
    now apply filter_other_ids.
Qed.

Lemma removeFromItinerary_after_add_witness :
  itinerary (fst (removeFromItinerary "A"
                    (final (addToItinerary (scenarioRecommendation "A")
                              scenarioState))))
  = itinerary scenarioState.
Proof.
  apply (@removeFromItinerary_after_add (scenarioRecommendation "A")
           scenarioState).
  simpl. intros [H|[]]. discriminate H.
Defined.

Lemma map_update_ids (f : ItineraryItem -> ItineraryItem)
  (l : list ItineraryItem) :
  (forall item, item_id (f item) = item_id item) ->
  map item_id (map f l) = map item_id l.
Proof.
  intros H. rewrite map_map. apply map_ext. exact H.
Qed.

Lemma update_day_id (id : string) (d : nat) (item : ItineraryItem) :
  item_id (if String.eqb (item_id item) id then withDay d item else item)
  = item_id item.
Proof. destruct (String.eqb (item_id item) id); reflexivity. Qed.

Lemma update_notes_id (id : string) (n : string) (item : ItineraryItem) :
  item_id (if String.eqb (item_id item) id then withNotes n item else item)
  = item_id item.
Proof. destruct (String.eqb (item_id item) id); reflexivity. Qed.

(** A day update keeps the ids in their order (hence the length), gives
    the new day to every item with the id and leaves every other item as
    it was; recommendation, notes and order of the updated items are
    kept. *)
Theorem updateItineraryDay_only_day (id : string) (newDay : nat) (st : State) :
  map item_id (itinerary (fst (updateItineraryDay id newDay st)))
    = map item_id (itinerary st) /\
  (forall (i : nat) (item : ItineraryItem),
     nth_error (itinerary st) i = Some item ->
     nth_error (itinerary (fst (updateItineraryDay id newDay st))) i
     = Some (if String.eqb (item_id item) id then withDay newDay item
             else item)) /\
  (forall item : ItineraryItem,
     In item (itinerary (fst (updateItineraryDay id newDay st))) ->
     item_id item = id -> day item = newDay) /\
  map (fun item => (item_rec item, notes item, order item))
    (itinerary (fst (updateItineraryDay id newDay st)))
  = map (fun item => (item_rec item, notes item, order item)) (itinerary st).
Proof.
  simpl. split; [|split; [|split]].
  - apply map_update_ids. intros item. apply update_day_id.
  - intros i item H. rewrite nth_error_map, H. reflexivity.
  - intros item Hin Hid. apply in_map_iff in Hin as [old [<- _]].
    destruct (String.eqb_spec (item_id old) id) as [E|E]; [reflexivity|].
    contradiction.
  - rewrite map_map. apply map_ext. intros item.
    destruct (String.eqb (item_id item) id); reflexivity.
Qed.

Lemma updateItineraryDay_only_day_witness :
  nth_error (itinerary (fst (updateItineraryDay "C" 5 scenarioState))) 0
  = Some (mkItineraryItem (scenarioRecommendation "C") 5 "booked" 0).
Proof.
  exact (proj1 (proj2 (updateItineraryDay_only_day "C" 5 scenarioState)) 0%nat
           (mkItineraryItem (scenarioRecommendation "C") 3 "booked" 0)
           eq_refl).
Defined.

(** A day update and a notes update commute, whatever the ids. *)
Theorem updateItinerary_commute (id1 id2 : string) (newDay : nat)
  (newNotes : string) (st : State) :
  fst (updateItineraryNotes id2 newNotes (fst (updateItineraryDay id1 newDay st)))
  = fst (updateItineraryDay id1 newDay (fst (updateItineraryNotes id2 newNotes st))).
Proof.
  unfold updateItineraryNotes, updateItineraryDay. simpl.
  unfold setItinerary. simpl. f_equal.
  rewrite !map_map. apply map_ext. intros item.
  rewrite update_day_id.
  destruct (String.eqb (item_id item) id1) eqn:E1;
    destruct (String.eqb (item_id item) id2) eqn:E2; simpl;
    unfold item_id in *; simpl; rewrite ?E1, ?E2; reflexivity.
Qed.

(** ** Unique ids *)

Lemma distinct_keys_filter {V K : Type} (key : V -> K) (keep : V -> bool)
  (items : list V) :
  NoDup (map key items) -> NoDup (map key (filter keep items)).
Proof.
  induction items as [|item rest IH]; cbn [filter map]; intros Hdistinct;
    [exact Hdistinct|].
  apply NoDup_cons_iff in Hdistinct as [Hfresh Hrest].
  destruct (keep item); cbn [map]; [|now apply IH].
  apply NoDup_cons; [|now apply IH].
  rewrite in_map_iff. intros [other [Hkey Hin]]. apply Hfresh.
  apply filter_In in Hin as [Hin _]. rewrite in_map_iff. now exists other.
Qed.

Lemma uniqueIds_filter (f : ItineraryItem -> bool) (l : list ItineraryItem) :
  uniqueIds l -> uniqueIds (filter f l).
Proof. unfold uniqueIds. apply distinct_keys_filter. Qed.

(** The itinerary operations keep the ids unique: add, remove, update of
    day and update of notes. *)
Theorem itinerary_operations_keep_unique_ids (st : State) :
  uniqueIds (itinerary st) ->
  (forall rec : Recommendation,
     uniqueIds (itinerary (final (addToItinerary rec st)))) /\
  (forall id : string,
     uniqueIds (itinerary (fst (removeFromItinerary id st)))) /\
  (forall (id : string) (newDay : nat),
     uniqueIds (itinerary (fst (updateItineraryDay id newDay st)))) /\
  (forall (id : string) (newNotes : string),
     uniqueIds (itinerary (fst (updateItineraryNotes id newNotes st)))).
Proof.
  intros Huniq. split; [|split; [|split]].
  - intros rec. unfold addToItinerary.
    destruct (find _ (itinerary st)) as [found|] eqn:E; [exact Huniq|].
    apply find_item_id_None in E. simpl. unfold uniqueIds.
    rewrite map_app. simpl.
    apply NoDup_app; [exact Huniq | |].
    + repeat constructor. intros [].
    + intros id Hin [<-|[]]. contradiction.
  - intros id. simpl. now apply uniqueIds_filter.
  - intros id newDay. simpl. unfold uniqueIds.
    rewrite map_update_ids; [exact Huniq|]. intros. apply update_day_id.
  - intros id newNotes. simpl. unfold uniqueIds.
    rewrite map_update_ids; [exact Huniq|]. intros. apply update_notes_id.
Qed.

Lemma itinerary_operations_keep_unique_ids_witness :
  uniqueIds (itinerary (final (addToItinerary (scenarioRecommendation "A")
                                 scenarioState))).
Proof.
  assert (H : uniqueIds (itinerary scenarioState)).
  { unfold uniqueIds. simpl. repeat constructor. simpl. tauto. }
  exact (proj1 (@itinerary_operations_keep_unique_ids scenarioState H)
           (scenarioRecommendation "A")).
Defined.

(** ** The display order of the itinerary *)

Lemma itineraryCompare_le (a b : ItineraryItem) :
  (itineraryCompare a b <=? 0)%Z = true <-> beforeOrWith a b.
Proof.
  unfold itineraryCompare, beforeOrWith. rewrite Z.leb_le.
  destruct (Z.eqb_spec (Z.of_nat (day a) - Z.of_nat (day b)) 0); lia.
Qed.

Lemma itineraryCompare_gt (a b : ItineraryItem) :
  (itineraryCompare a b <=? 0)%Z = false -> beforeOrWith b a.
Proof.
  unfold itineraryCompare, beforeOrWith. rewrite Z.leb_gt.
  destruct (Z.eqb_spec (Z.of_nat (day a) - Z.of_nat (day b)) 0); lia.
Qed.

Lemma beforeOrWith_trans (a b c : ItineraryItem) :
  beforeOrWith a b -> beforeOrWith b c -> beforeOrWith a c.
Proof. unfold beforeOrWith. lia. Qed.

Lemma insertByDay_perm (a : ItineraryItem) (l : list ItineraryItem) :
  Permutation (a :: l) (insertByDay a l).
Proof.
  induction l as [|b l IH]; simpl.
  - apply Permutation_refl.
  - destruct (itineraryCompare a b <=? 0)%Z.
    + apply Permutation_refl.
    + eapply perm_trans; [apply perm_swap | apply perm_skip, IH].
Qed.

Lemma sortItinerary_perm (l : list ItineraryItem) :
  Permutation l (sortItinerary l).
Proof.
  induction l as [|a l IH]; simpl.
  - apply perm_nil.
  - eapply perm_trans; [apply perm_skip, IH | apply insertByDay_perm].
Qed.

Lemma insertByDay_sorted (a : ItineraryItem) (l : list ItineraryItem) :
  StronglySorted beforeOrWith l -> StronglySorted beforeOrWith (insertByDay a l).
Proof.
  induction 1 as [|b l Hsorted IH Hall]; simpl.
  - constructor; constructor.
  - destruct (itineraryCompare a b <=? 0)%Z eqn:E.
    + apply itineraryCompare_le in E.
      constructor; [constructor; assumption|].
      constructor; [exact E|].
      eapply Forall_impl; [|exact Hall].
      intros c Hc. now apply beforeOrWith_trans with b.
    + apply itineraryCompare_gt in E.
      constructor; [exact IH|].
      eapply Permutation_Forall; [apply insertByDay_perm|].
      constructor; assumption.
Qed.

Lemma sortItinerary_sorted (l : list ItineraryItem) :
  StronglySorted beforeOrWith (sortItinerary l).
Proof.
  induction l as [|a l IH]; simpl; [constructor | now apply insertByDay_sorted].
Qed.

Lemma sortItinerary_fixes_sorted (l : list ItineraryItem) :
  StronglySorted beforeOrWith l -> sortItinerary l = l.
Proof.
  induction 1 as [|a l Hsorted IH Hall]; simpl; [reflexivity|].
  rewrite IH. destruct l as [|b l]; simpl; [reflexivity|].
  inversion Hall as [|? ? Hab _]; subst.
  apply itineraryCompare_le in Hab. now rewrite Hab.
Qed.

(** The itinerary panel shows a rearrangement of the itinerary in which
    the days ascend and, within a day, the orders ascend; since the sort
    works on the state's own array, the state holds that arrangement
    after the render, another render changes nothing, and the ids stay
    unique if they were. *)
Theorem renderItinerary_display_order (st : State) :
  Permutation (itinerary st) (snd (renderItinerary st)) /\
  StronglySorted beforeOrWith (snd (renderItinerary st)) /\
  itinerary (fst (renderItinerary st)) = snd (renderItinerary st) /\
  renderItinerary (fst (renderItinerary st))
    = (fst (renderItinerary st), snd (renderItinerary st)) /\
  (uniqueIds (itinerary st) ->
   uniqueIds (itinerary (fst (renderItinerary st)))).
Proof.
  unfold renderItinerary. simpl.
  split; [apply sortItinerary_perm|].
  split; [apply sortItinerary_sorted|].
  split; [reflexivity|]. split.
  - rewrite (sortItinerary_fixes_sorted (sortItinerary_sorted (itinerary st))).
    reflexivity.
  - unfold uniqueIds. intros H.
    eapply Permutation_NoDup; [|exact H].
    apply Permutation_map, sortItinerary_perm.
Qed.

Lemma renderItinerary_display_order_witness :
  uniqueIds (itinerary (fst (renderItinerary scenarioState))).
Proof.
  assert (H : uniqueIds (itinerary scenarioState)).
  { unfold uniqueIds. simpl. repeat constructor. simpl. tauto. }
  exact (proj2 (proj2 (proj2 (proj2
           (renderItinerary_display_order scenarioState)))) H).
Defined.

Example sortItinerary_day_then_order :
  map (fun item => (day item, order item))
    (sortItinerary
       [mkItineraryItem (scenarioRecommendation "A") 2 "" 0;
        mkItineraryItem (scenarioRecommendation "B") 1 "" 5])
  = [(1, 5); (2, 0)]%nat.
Proof. reflexivity. Qed.

(** ** Autoplan: what the selection depends on *)

Lemma filterSelected_filter (ids : JsonValue)
  (recs selected : list Recommendation) :
  filterSelected ids recs = Returned selected ->
  selected
  = filter (fun rec => match jsIncludes ids (rec_id rec) with
                       | Returned keep => keep
                       | Thrown _ => false
                       end) recs.
Proof.
  revert selected. induction recs as [|a recs IH]; simpl; intros selected H.
  - now injection H as <-.
  - destruct (jsIncludes ids (rec_id a)) as [keep|]; [|discriminate].
    destruct (filterSelected ids recs) as [l|]; [|discriminate].
    injection H as <-. rewrite (IH l eq_refl). reflexivity.
Qed.

Lemma filterSelected_strings (ids : list string) (recs : list Recommendation) :
  filterSelected (JArray (map JString ids)) recs
  = Returned (filter (fun rec => existsb (String.eqb (rec_id rec)) ids) recs).
Proof.
  induction recs as [|a recs IH]; simpl; [reflexivity|].
  rewrite IH. f_equal.
  assert (E : existsb (fun e => match e with
                                | JString s => String.eqb s (rec_id a)
                                | _ => false
                                end) (map JString ids)
              = existsb (String.eqb (rec_id a)) ids).
  { clear. induction ids as [|i ids IH]; simpl; [reflexivity|].
    now rewrite IH, String.eqb_sym. }
  now rewrite E.
Qed.

(** When the model answers with an array of strings, autoplan selects the
    recommendations whose id is among them, in the order of the
    recommendation list: the order of the answer and repeated ids in it
    make no difference. *)
Theorem filterSelected_by_membership (ids1 ids2 : list string)
  (recs : list Recommendation) :
  (forall id : string, In id ids1 <-> In id ids2) ->
  filterSelected (JArray (map JString ids1)) recs
  = Returned (filter (fun rec => existsb (String.eqb (rec_id rec)) ids1) recs)
  /\ filterSelected (JArray (map JString ids2)) recs
     = filterSelected (JArray (map JString ids1)) recs.
Proof.
  intros Hsame. rewrite !filterSelected_strings. split; [reflexivity|].
  f_equal. apply filter_ext. intros rec.
  apply eq_true_iff_eq. rewrite !existsb_exists.
  split; intros [id [Hin Heq]]; exists id; split; auto; now apply Hsame.
Qed.

Lemma filterSelected_by_membership_witness :
  filterSelected (JArray (map JString ["B"; "A"; "B"]))
    (recommendations scenarioState)
  = filterSelected (JArray (map JString ["A"; "B"]))
      (recommendations scenarioState).
Proof.
  apply (@filterSelected_by_membership ["A"; "B"] ["B"; "A"; "B"]
           (recommendations scenarioState)).
  intros id. simpl. tauto.
Defined.

(** If no two current recommendations share an id, an autoplan that ends
    without error leaves an itinerary without repeated ids, whose
    recommendations appear in the order of the recommendation list. *)
Theorem handleAutoplan_unique_ids (JSON_parse : string -> option JsonValue)
  (db_rejects : DbOp -> option string) (key : option string)
  (reply : Outcome string) (st : State) :
  NoDup (map rec_id (recommendations st)) ->
  autoplanError (final (handleAutoplan JSON_parse db_rejects key reply st))
    = None ->
  uniqueIds
    (itinerary (final (handleAutoplan JSON_parse db_rejects key reply st))) /\
  exists keep : Recommendation -> bool,
    map item_rec
      (itinerary (final (handleAutoplan JSON_parse db_rejects key reply st)))
    = filter keep (recommendations st).
Proof.
  intros Huniq Hok.
  destruct (autoplanReady key st) eqn:Hready.
  2:{ destruct (handleAutoplan_guarded JSON_parse db_rejects key reply st Hready)
        as [m [Hm _]]. congruence. }
  pose proof (handleAutoplan_run JSON_parse db_rejects key reply st Hready)
    as Hrun. cbv zeta in Hrun.
  destruct (autoplanSelection JSON_parse reply (recommendations st))
    as [[|rec1 selected]|m] eqn:Hsel.
  - destruct Hrun as [_ [_ He]]. congruence.
  - destruct Hrun as [[_ [Hit _]] | [m [He _]]]; [|congruence].
    unfold autoplanSelection in Hsel.
    destruct reply as [response|]; [|discriminate].
    destruct (parseSelectedIds JSON_parse response) as [ids|]; [|discriminate].
    apply filterSelected_filter in Hsel.
    assert (Hrecs : map item_rec
                      (itinerary (final (handleAutoplan JSON_parse db_rejects
                                           key (Returned response) st)))
                    = rec1 :: selected)
      by (rewrite Hit; apply newItineraryItems_recs).
    split.
    + unfold uniqueIds.
      replace (map item_id
                 (itinerary (final (handleAutoplan JSON_parse db_rejects key
                                      (Returned response) st))))
        with (map rec_id (rec1 :: selected)).
      * rewrite Hsel. now apply distinct_keys_filter.
      * rewrite <- Hrecs, map_map. reflexivity.
    + eexists. rewrite Hrecs. exact Hsel.
  - destruct Hrun as [_ [_ He]]. congruence.
Qed.

Lemma handleAutoplan_unique_ids_witness :
  uniqueIds
    (itinerary (final (handleAutoplan scenarioParse reliableDb (Some "key")
                         (Returned plainReply) scenarioState))).
Proof.
  apply (@handleAutoplan_unique_ids scenarioParse reliableDb (Some "key")
           (Returned plainReply) scenarioState).
  - simpl. repeat constructor; simpl; intuition discriminate.
  - vm_compute. reflexivity.
Defined.

(** ** Autoplan: the quoted substrings of a reply that is not JSON *)

Lemma string_of_list_ascii_snoc (l : list ascii) (c : ascii) (s : string) :
  (string_of_list_ascii (l ++ [c]) ++ s)%string
  = (string_of_list_ascii l ++ String c s)%string.
Proof. induction l as [|a l IH]; simpl; [reflexivity | now rewrite IH]. Qed.

Lemma string_append_empty (s : string) : (s ++ "")%string = s.
Proof. induction s as [|c s IH]; simpl; [reflexivity | now rewrite IH]. Qed.

Lemma string_append_assoc (a b c : string) :
  ((a ++ b) ++ c)%string = (a ++ (b ++ c))%string.
Proof. induction a as [|x a IH]; simpl; [reflexivity | now rewrite IH]. Qed.

Lemma matchQuotedFrom_filler (filler rest : string) :
  quoteFree filler = true ->
  matchQuotedFrom None (filler ++ rest) = matchQuotedFrom None rest.
Proof.
  unfold quoteFree. induction filler as [|c filler IH]; simpl; intros H;
    [reflexivity|].
  apply andb_true_iff in H as [Hc Hrest]. apply negb_true_iff in Hc.
  rewrite Hc. now apply IH.
Qed.

Lemma matchQuotedFrom_body (body rest : string) :
  quoteFree body = true ->
  forall run : list ascii,
    matchQuotedFrom (Some run) (body ++ String dquote rest)
    = match (string_of_list_ascii (rev run) ++ body)%string with
      | EmptyString => matchQuotedFrom (Some []) rest
      | text => quoted text :: matchQuotedFrom None rest
      end.
Proof.
  unfold quoteFree. induction body as [|c body IH]; simpl; intros H run.
  - rewrite string_append_empty.
    destruct run as [|c0 run]; simpl; [reflexivity|].
    destruct (string_of_list_ascii (rev run ++ [c0])) eqn:E; [|reflexivity].
    exfalso. apply (f_equal list_ascii_of_string) in E.
    rewrite list_ascii_of_string_of_list_ascii in E. simpl in E.
    apply app_eq_nil in E as [_ E]. discriminate.
  - apply andb_true_iff in H as [Hc Hrest]. apply negb_true_iff in Hc.
    rewrite Hc.
    assert (Hstep : matchQuotedFrom (Some (c :: run))
                      (body ++ String dquote rest)
                    = match (string_of_list_ascii (rev run)
                             ++ String c body)%string with
                      | EmptyString => matchQuotedFrom (Some []) rest
                      | text => quoted text :: matchQuotedFrom None rest
                      end).
    { rewrite (IH Hrest (c :: run)). simpl.
      now rewrite string_of_list_ascii_snoc. }
    destruct run; exact Hstep.
Qed.

Lemma matchQuoted_one (filler id rest : string) :
  quoteFree filler = true -> quoteFree id = true -> id <> EmptyString ->
  matchQuotedFrom None (filler ++ quoted id ++ rest)
  = quoted id :: matchQuotedFrom None rest.
Proof.
  intros Hf Hid Hne. rewrite matchQuotedFrom_filler by exact Hf.
  unfold quoted. simpl.
  rewrite string_append_assoc. simpl.
  rewrite (@matchQuotedFrom_body id rest Hid []). simpl.
  destruct id; [contradiction | reflexivity].
Qed.

Lemma removeQuotes_free (s : string) :
  quoteFree s = true -> removeQuotes (quoted s) = s.
Proof.
  intros H. unfold quoted.
  change (removeQuotes (String dquote ?t)) with (removeQuotes t).
  unfold quoteFree in H. induction s as [|c s IH]; simpl in *.
  - reflexivity.
  - apply andb_true_iff in H as [Hc Hrest]. apply negb_true_iff in Hc.
    rewrite Hc. now rewrite IH.
Qed.

(** A reply made of fillers without a double quote and of quoted, non-empty
    ids without a double quote (a JSON array inside a code fence, say)
    gives, by the fallback, exactly those ids in their order. *)
Theorem matchQuoted_extracts_ids (pieces : list (string * string))
  (tail : string) :
  Forall (fun piece =>
            quoteFree (fst piece) = true /\ quoteFree (snd piece) = true /\
            snd piece <> EmptyString) pieces ->
  quoteFree tail = true ->
  map removeQuotes (matchQuoted (interleaveQuoted pieces tail))
  = map snd pieces.
Proof.
  intros Hpieces Htail. unfold matchQuoted.
  induction Hpieces as [|[filler id] pieces [Hf [Hid Hne]] _ IH].
  - cbn [interleaveQuoted map]. rewrite <- (string_append_empty tail).
    now rewrite matchQuotedFrom_filler.
  - cbn [interleaveQuoted fst snd] in *.
    rewrite matchQuoted_one by assumption. cbn [map snd].
    now rewrite removeQuotes_free, IH.
Qed.

Lemma matchQuoted_extracts_ids_witness :
  map removeQuotes
    (matchQuoted
       (interleaveQuoted [("```json [", "A"); (", ", "B"); (", ", "Z")] "] ```"))
  = ["A"; "B"; "Z"].
Proof.
  apply (@matchQuoted_extracts_ids
           [("```json [", "A"); (", ", "B"); (", ", "Z")] "] ```").
  - repeat constructor; simpl; discriminate.
  - reflexivity.
Defined.

(** When the reply is not JSON, the ids the fallback hands to the filter
    are strings that are not empty and hold no double quote, and there is
    at least one of them. *)
Theorem parseSelectedIds_fallback_ids (JSON_parse : string -> option JsonValue)
  (response : string) (ids : JsonValue) :
  JSON_parse response = None ->
  parseSelectedIds JSON_parse response = Returned ids ->
  exists l : list string,
    ids = JArray (map JString l) /\ l <> [] /\
    Forall (fun id => id <> EmptyString /\ quoteFree id = true) l.
Proof.
  intros Hnone. unfold parseSelectedIds. rewrite Hnone.
  pose proof (matchQuotedFrom_shape response (open := None)
                ltac:(discriminate)) as Hshape.
  fold (matchQuoted response) in Hshape.
  destruct (matchQuoted response) as [|m ms] eqn:E; [discriminate|].
  intros H. injection H as <-.
  exists (map removeQuotes (m :: ms)). split; [now rewrite map_map|].
  split; [discriminate|].
  apply Forall_map. eapply Forall_impl; [|exact Hshape].
  intros q [l [Hl [Hfree [_ ->]]]]. split.
  - intros Hempty. destruct l; [contradiction | discriminate].
  - unfold quoteFree. rewrite list_ascii_of_string_of_list_ascii.
    apply forallb_forall. intros c Hc. apply negb_true_iff.
    rewrite Forall_forall in Hfree. apply Ascii.eqb_neq. now apply Hfree.
Qed.

Lemma parseSelectedIds_fallback_ids_witness :
  exists l : list string,
    JArray [JString "A"; JString "B"; JString "Z"] = JArray (map JString l) /\
    l <> [] /\
    Forall (fun id => id <> EmptyString /\ quoteFree id = true) l.
Proof.
  apply (@parseSelectedIds_fallback_ids scenarioParse fencedReply).
  - reflexivity.
  - reflexivity.
Defined.

(** ** Marker synchronisation *)

Section MarkerSyncFacts.

Variable inherited : string -> bool.

Lemma lookupMarker_own (markers : Markers) (id : string) :
  lookupMarker inherited markers id = true <->
  inherited id = true \/ In id (map fst markers).
Proof.
  unfold lookupMarker. rewrite orb_true_iff, existsb_exists. split.
  - intros [H | [m [Hin Heq]]]; [now left | right].
    apply String.eqb_eq in Heq. subst. now apply in_map.
  - intros [H | H]; [now left | right].
    apply in_map_iff in H as [m [Heq Hin]]. exists m. split; [exact Hin|].
    now apply String.eqb_eq.
Qed.

Lemma lookupMarker_absent (markers : Markers) (id : string) :
  lookupMarker inherited markers id = false <->
  inherited id = false /\ ~ In id (map fst markers).
Proof.
  destruct (lookupMarker inherited markers id) eqn:E.
  - apply lookupMarker_own in E. split; [discriminate|].
    intros [H1 H2]. destruct E; [congruence | contradiction].
  - split; [intros _ | reflexivity].
    destruct (inherited id) eqn:Hi.
    + assert (lookupMarker inherited markers id = true)
        by (apply lookupMarker_own; now left). congruence.
    + split; [reflexivity|]. intros Hin.
      assert (lookupMarker inherited markers id = true)
        by (apply lookupMarker_own; now right). congruence.
Qed.

Lemma addMissing_spec (allLocations : list Location) :
  forall markers : Markers,
  exists added : Markers,
    fst (addMissing inherited allLocations markers) = markers ++ added /\
    snd (addMissing inherited allLocations markers)
      = map (fun m => AddMarker (snd m)) added /\
    Forall (fun m => In (snd m) allLocations /\ fst m = loc_id (snd m) /\
                     inherited (fst m) = false /\
                     ~ In (fst m) (map fst markers)) added /\
    NoDup (map fst added) /\
    (forall loc, In loc allLocations ->
                 lookupMarker inherited (markers ++ added) (loc_id loc) = true).
Proof.
  induction allLocations as [|location rest IH]; intros markers; simpl.
  - exists []. rewrite app_nil_r. repeat split; try constructor.
    intros loc [].
  - destruct (lookupMarker inherited markers (loc_id location)) eqn:E.
    + destruct (IH markers) as [added [Hf [Hs [Hall [Hnd Hcov]]]]].
      exists added. split; [exact Hf|]. split; [exact Hs|]. split; [|split].
      * eapply Forall_impl; [|exact Hall]. simpl. intros m H. tauto.
      * exact Hnd.
      * intros loc [<-|Hin]; [|now apply Hcov].
        apply lookupMarker_own. apply lookupMarker_own in E.
        destruct E as [E|E]; [now left | right].
        rewrite map_app, in_app_iff. now left.
    + destruct (IH (markers ++ [(loc_id location, location)]))
        as [added [Hf [Hs [Hall [Hnd Hcov]]]]].
      apply lookupMarker_absent in E as [Hinh Hnotin].
      exists ((loc_id location, location) :: added).
      destruct (addMissing inherited rest
                  (markers ++ [(loc_id location, location)]))
        as [synced additions]. simpl in *.
      split; [now rewrite Hf, <- app_assoc|].
      split; [now rewrite Hs|]. split; [|split].
      * constructor; [simpl; auto|].
        eapply Forall_impl; [|exact Hall]. simpl. intros m [H1 [H2 [H3 H4]]].
        repeat split; auto. intros Hin. apply H4.
        rewrite map_app, in_app_iff. now left.
      * constructor; [|exact Hnd]. intros Hin.
        rewrite Forall_forall in Hall.
        apply in_map_iff in Hin as [m [Hm Hin]].
        destruct (Hall m Hin) as [_ [_ [_ H4]]]. apply H4.
        rewrite map_app, in_app_iff. right. simpl. now left.
      * intros loc [<-|Hin].
        -- apply lookupMarker_own. right.
           rewrite map_app, in_app_iff. right. simpl. now left.
        -- specialize (Hcov loc Hin).
           now rewrite <- app_assoc in Hcov.
Qed.

Lemma isStillPresent_In (allLocations : list Location) (id : string) :
  isStillPresent allLocations id = true <-> In id (map loc_id allLocations).
Proof.
  unfold isStillPresent. rewrite existsb_exists, in_map_iff.
  split; intros [loc [H1 H2]]; exists loc.
  - apply String.eqb_eq in H2. auto.
  - split; [exact H2 | now apply String.eqb_eq].
Qed.

(** The shape of a synchronisation on a ready map. *)
Lemma syncMarkers_shape (dbLocations locations : list Location)
  (markers : Markers) :
  exists added : Markers,
    fst (syncMarkers inherited true dbLocations locations markers)
      = filter (fun m => isStillPresent (dbLocations ++ locations) (fst m))
          markers ++ added /\
    snd (syncMarkers inherited true dbLocations locations markers)
      = map (fun m => RemoveMarker (fst m))
          (filter (fun m => negb (isStillPresent (dbLocations ++ locations)
                                    (fst m))) markers)
        ++ map (fun m => AddMarker (snd m)) added
        ++ (if (length markers =? 0)%nat
               && (0 <? length (dbLocations ++ locations))%nat
            then [FitBounds (map coordinates (dbLocations ++ locations))]
            else []) /\
    Forall (fun m => In (snd m) (dbLocations ++ locations) /\
                     fst m = loc_id (snd m) /\
                     inherited (fst m) = false /\
                     ~ In (fst m) (map fst markers)) added /\
    NoDup (map fst added) /\
    (forall loc, In loc (dbLocations ++ locations) ->
                 inherited (loc_id loc) = true \/
                 In (loc_id loc)
                   (map fst (fst (syncMarkers inherited true dbLocations
                                    locations markers)))).
Proof.
  unfold syncMarkers, removeStale. cbn [negb]. cbv zeta.
  set (all := dbLocations ++ locations).
  set (kept := filter (fun m => isStillPresent all (fst m)) markers).
  destruct (addMissing_spec all kept) as [added [Hf [Hs [Hall [Hnd Hcov]]]]].
  destruct (addMissing inherited all kept) as [synced additions].
  simpl in *. subst synced additions. rewrite length_map.
  exists added. split; [reflexivity|]. split; [reflexivity|]. split; [|split].
  - eapply Forall_impl; [|exact Hall]. simpl.
    intros m [H1 [H2 [H3 H4]]]. repeat split; auto.
    intros Hin. apply H4. unfold kept.
    apply in_map_iff in Hin as [m' [Heq Hin]].
    apply in_map_iff. exists m'. split; [exact Heq|].
    apply filter_In. split; [exact Hin|].
    apply isStillPresent_In. rewrite Heq, H2. now apply in_map.
  - exact Hnd.
  - intros loc Hin. apply lookupMarker_own. now apply Hcov.
Qed.

End MarkerSyncFacts.

Section MarkerSyncTheorems.

Variable inherited : string -> bool.

Lemma addMissing_nothing (allLocations : list Location) (markers : Markers) :
  (forall loc, In loc allLocations ->
               lookupMarker inherited markers (loc_id loc) = true) ->
  addMissing inherited allLocations markers = (markers, []).
Proof.
  induction allLocations as [|location rest IH]; simpl; intros H;
    [reflexivity|].
  rewrite (H location (or_introl eq_refl)). apply IH. intros loc Hin.
  apply H. now right.
Qed.

(** After a synchronisation on a ready map, the ids with a marker are
    exactly the ids of the listed locations, provided no id is a property
    name of [Object.prototype]; and no id has two markers if none had. *)
Theorem syncMarkers_shows_locations (dbLocations locations : list Location)
  (markers : Markers) :
  (forall loc, In loc (dbLocations ++ locations) ->
               inherited (loc_id loc) = false) ->
  (forall id : string,
     In id (map fst (fst (syncMarkers inherited true dbLocations locations
                            markers)))
     <-> In id (map loc_id (dbLocations ++ locations))) /\
  (NoDup (map fst markers) ->
   NoDup (map fst (fst (syncMarkers inherited true dbLocations locations
                          markers)))).
Proof.
  intros Hown.
  destruct (syncMarkers_shape inherited dbLocations locations markers)
    as [added [Hf [_ [Hall [Hnd Hcov]]]]].
  rewrite Forall_forall in Hall. split.
  - intros id. split.
    + rewrite Hf, map_app, in_app_iff. intros [Hin | Hin].
      * apply in_map_iff in Hin as [m [<- Hin]].
        apply filter_In in Hin as [_ Hp]. now apply isStillPresent_In.
      * apply in_map_iff in Hin as [m [<- Hin]].
        destruct (Hall m Hin) as [H1 [H2 _]]. rewrite H2. now apply in_map.
    + intros Hin. apply in_map_iff in Hin as [loc [<- Hin]].
      destruct (Hcov loc Hin) as [H|H]; [|exact H].
      rewrite (Hown loc Hin) in H. discriminate.
  - intros Huniq. rewrite Hf, map_app. apply NoDup_app.
    + now apply distinct_keys_filter.
    + exact Hnd.
    + intros id Hin1 Hin2.
      apply in_map_iff in Hin2 as [m [<- Hin2]].
      destruct (Hall m Hin2) as [_ [_ [_ H4]]]. apply H4.
      apply in_map_iff in Hin1 as [m' [Heq Hin1]].
      apply filter_In in Hin1 as [Hin1 _].
      apply in_map_iff. now exists m'.
Qed.

Lemma mapOps_removals {A : Type} (f : A -> string) (l : list A) :
  createdLocations (map (fun a => RemoveMarker (f a)) l) = [] /\
  removedIds (map (fun a => RemoveMarker (f a)) l) = map f l.
Proof.
  induction l as [|a l [IH1 IH2]]; [split; reflexivity|].
  split; [exact IH1|]. cbn [map removedIds flat_map app].
  now rewrite <- IH2.
Qed.

Lemma mapOps_additions {A : Type} (f : A -> Location) (l : list A) :
  createdLocations (map (fun a => AddMarker (f a)) l) = map f l /\
  removedIds (map (fun a => AddMarker (f a)) l) = [].
Proof.
  induction l as [|a l [IH1 IH2]]; [split; reflexivity|].
  split; [|exact IH2]. cbn [map createdLocations flat_map app].
  now rewrite <- IH1.
Qed.

(** Markers whose location is still listed are left alone: they stay in
    place, in their order, and are neither removed nor created again; a
    marker is removed only when its id is no longer listed, and created
    only for a listed location whose id had no marker.  The markers
    afterwards are the kept ones followed by one marker for each location
    put on the map, in that order, each stored under the id of its
    location; the markers taken off the map are those that were dropped;
    no id gets two new markers, and every listed location whose id has no
    marker and is no property name of [Object.prototype] gets one. *)
Theorem syncMarkers_keeps_markers (dbLocations locations : list Location)
  (markers : Markers) :
  (forall m : string * Location,
     In m markers -> In (fst m) (map loc_id (dbLocations ++ locations)) ->
     In m (fst (syncMarkers inherited true dbLocations locations markers)) /\
     ~ In (RemoveMarker (fst m))
         (snd (syncMarkers inherited true dbLocations locations markers)) /\
     (forall loc : Location,
        In (AddMarker loc)
          (snd (syncMarkers inherited true dbLocations locations markers)) ->
        loc_id loc <> fst m)) /\
  (forall id : string,
     In (RemoveMarker id)
       (snd (syncMarkers inherited true dbLocations locations markers)) ->
     In id (map fst markers) /\
     ~ In id (map loc_id (dbLocations ++ locations))) /\
  (forall loc : Location,
     In (AddMarker loc)
       (snd (syncMarkers inherited true dbLocations locations markers)) ->
     In loc (dbLocations ++ locations) /\ ~ In (loc_id loc) (map fst markers)) /\
  fst (syncMarkers inherited true dbLocations locations markers)
  = filter (fun m => isStillPresent (dbLocations ++ locations) (fst m)) markers
    ++ map (fun loc => (loc_id loc, loc))
         (createdLocations
            (snd (syncMarkers inherited true dbLocations locations markers)))
  /\
  removedIds (snd (syncMarkers inherited true dbLocations locations markers))
  = map fst
      (filter (fun m => negb (isStillPresent (dbLocations ++ locations)
                                (fst m))) markers) /\
  NoDup (map loc_id
           (createdLocations
              (snd (syncMarkers inherited true dbLocations locations
                      markers)))) /\
  (forall loc : Location,
     In loc (dbLocations ++ locations) ->
     inherited (loc_id loc) = false ->
     ~ In (loc_id loc) (map fst markers) ->
     In (loc_id loc)
       (map loc_id
          (createdLocations
             (snd (syncMarkers inherited true dbLocations locations
                     markers))))).
Proof.
  destruct (syncMarkers_shape inherited dbLocations locations markers)
    as [added [Hf [Hs [Hall [Hnd Hcov]]]]].
  rewrite Forall_forall in Hall.
  assert (Hremoved : forall id,
            In (RemoveMarker id)
              (snd (syncMarkers inherited true dbLocations locations markers)) ->
            In id (map fst markers) /\
            ~ In id (map loc_id (dbLocations ++ locations))).
  { intros id. rewrite Hs, !in_app_iff. intros [Hin | [Hin | Hin]].
    - apply in_map_iff in Hin as [m [Heq Hin]]. injection Heq as <-.
      apply filter_In in Hin as [Hin Hp]. split; [now apply in_map|].
      intros Habs. apply isStillPresent_In in Habs.
      rewrite Habs in Hp. discriminate.
    - apply in_map_iff in Hin as [m [Heq _]]. discriminate.
    - destruct (_ && _); simpl in Hin; [destruct Hin as [H|[]]|destruct Hin];
        discriminate. }
  assert (Hcreated : forall loc,
            In (AddMarker loc)
              (snd (syncMarkers inherited true dbLocations locations markers)) ->
            In loc (dbLocations ++ locations) /\
            ~ In (loc_id loc) (map fst markers)).
  { intros loc. rewrite Hs, !in_app_iff. intros [Hin | [Hin | Hin]].
    - apply in_map_iff in Hin as [m [Heq _]]. discriminate.
    - apply in_map_iff in Hin as [m [Heq Hin]]. injection Heq as <-.
      destruct (Hall m Hin) as [H1 [H2 [_ H4]]].
      split; [now apply in_app_iff in H1 | rewrite <- H2; exact H4].
    - destruct (_ && _); simpl in Hin; [destruct Hin as [H|[]]|destruct Hin];
        discriminate. }
  assert (Hops : createdLocations
                   (snd (syncMarkers inherited true dbLocations locations
                           markers)) = map snd added /\
                 removedIds
                   (snd (syncMarkers inherited true dbLocations locations
                           markers))
                 = map fst
                     (filter (fun m => negb (isStillPresent
                                               (dbLocations ++ locations)
                                               (fst m))) markers)).
  { rewrite Hs. unfold createdLocations, removedIds.
    rewrite !flat_map_app.
    fold (createdLocations
            (map (fun m : string * Location => RemoveMarker (fst m))
               (filter (fun m => negb (isStillPresent
                                         (dbLocations ++ locations) (fst m)))
                  markers))).
    fold (removedIds
            (map (fun m : string * Location => RemoveMarker (fst m))
               (filter (fun m => negb (isStillPresent
                                         (dbLocations ++ locations) (fst m)))
                  markers))).
    fold (createdLocations
            (map (fun m : string * Location => AddMarker (snd m)) added)).
    fold (removedIds
            (map (fun m : string * Location => AddMarker (snd m)) added)).
    rewrite (proj1 (mapOps_removals _ _)), (proj2 (mapOps_removals _ _)),
      (proj1 (mapOps_additions _ _)), (proj2 (mapOps_additions _ _)).
    destruct ((length markers =? 0)%nat
              && (0 <? length (dbLocations ++ locations))%nat);
      cbn [flat_map app]; rewrite ?app_nil_r; split; reflexivity. }
  destruct Hops as [Hcreate Hremove].
  assert (Hstored : map (fun loc => (loc_id loc, loc)) (map snd added) = added).
  { clear - Hall. induction added as [|m l IH]; simpl; [reflexivity|].
    destruct (Hall m (or_introl eq_refl)) as [_ [Hid _]].
    rewrite IH by (intros m' Hin; apply Hall; now right).
    rewrite <- Hid. now destruct m. }
  assert (Hids : map loc_id (map snd added) = map fst added).
  { rewrite <- Hstored at 2. rewrite !map_map. reflexivity. }
  split; [|split; [exact Hremoved | split; [exact Hcreated |]]].
  2:{ rewrite Hcreate, Hstored, Hids.
      split; [exact Hf|]. split; [exact Hremove|]. split; [exact Hnd|].
      intros loc Hin Hown Hnew.
      destruct (Hcov loc Hin) as [H | H]; [congruence|].
      rewrite Hf, map_app, in_app_iff in H. destruct H as [H | H]; [|exact H].
      exfalso. apply Hnew. apply in_map_iff in H as [m [Hm Hin']].
      apply filter_In in Hin' as [Hin' _]. apply in_map_iff. now exists m. }
  intros m Hin Hlisted. split; [|split].
  - rewrite Hf, in_app_iff. left. apply filter_In. split; [exact Hin|].
    now apply isStillPresent_In.
  - intros Habs. apply Hremoved in Habs as [_ Habs]. contradiction.
  - intros loc Hadd Heq. apply Hcreated in Hadd as [_ Hadd]. apply Hadd.
    rewrite Heq. now apply in_map.
Qed.

(** The view is fitted to the locations exactly when the map showed no
    marker and a location is listed; a second synchronisation with the
    same locations does nothing at all (no id being a property name of
    [Object.prototype]); and nothing is done while the map is not ready. *)
Theorem syncMarkers_fits_once (dbLocations locations : list Location)
  (markers : Markers) :
  (forall points : list (Q * Q),
     In (FitBounds points)
       (snd (syncMarkers inherited true dbLocations locations markers))
     <-> markers = [] /\ dbLocations ++ locations <> [] /\
         points = map coordinates (dbLocations ++ locations)) /\
  ((forall loc, In loc (dbLocations ++ locations) ->
                inherited (loc_id loc) = false) ->
   syncMarkers inherited true dbLocations locations
     (fst (syncMarkers inherited true dbLocations locations markers))
   = (fst (syncMarkers inherited true dbLocations locations markers), [])) /\
  syncMarkers inherited false dbLocations locations markers = (markers, []).
Proof.
  destruct (syncMarkers_shape inherited dbLocations locations markers)
    as [added [Hf [Hs [Hall [Hnd Hcov]]]]].
  split; [|split; [|reflexivity]].
  - intros points. rewrite Hs, !in_app_iff. split.
    + intros [Hin | [Hin | Hin]].
      * apply in_map_iff in Hin as [m [Heq _]]. discriminate.
      * apply in_map_iff in Hin as [m [Heq _]]. discriminate.
      * destruct markers as [|m ms]; [|destruct Hin].
        destruct (dbLocations ++ locations) as [|l ls]; [destruct Hin|].
        destruct Hin as [Heq|[]]. injection Heq as <-.
        repeat split. discriminate.
    + intros [-> [Hne ->]]. right. right.
      destruct (dbLocations ++ locations); [contradiction | now left].
  - intros Hown.
    set (synced := fst (syncMarkers inherited true dbLocations locations
                          markers)) in *.
    assert (Hlisted : forall m, In m synced ->
              isStillPresent (dbLocations ++ locations) (fst m) = true).
    { intros m. rewrite Hf, in_app_iff. intros [Hin | Hin].
      - now apply filter_In in Hin as [_ Hp].
      - rewrite Forall_forall in Hall. destruct (Hall m Hin) as [H1 [H2 _]].
        apply isStillPresent_In. rewrite H2. now apply in_map. }
    assert (Hfound : forall loc, In loc (dbLocations ++ locations) ->
              lookupMarker inherited synced (loc_id loc) = true).
    { intros loc Hin. apply lookupMarker_own. now apply Hcov. }
    unfold syncMarkers at 1, removeStale. cbn [negb]. cbv zeta.
    assert (Hkeep : filter (fun m => isStillPresent (dbLocations ++ locations)
                                       (fst m)) synced = synced).
    { clear - Hlisted. induction synced as [|m ms IH]; simpl; [reflexivity|].
      rewrite (Hlisted m (or_introl eq_refl)). f_equal. apply IH.
      intros m' Hin. apply Hlisted. now right. }
    assert (Hdrop : filter (fun m => negb (isStillPresent
                                             (dbLocations ++ locations)
                                             (fst m))) synced = []).
    { clear - Hlisted. induction synced as [|m ms IH]; simpl; [reflexivity|].
      rewrite (Hlisted m (or_introl eq_refl)). simpl. apply IH.
      intros m' Hin. apply Hlisted. now right. }
    rewrite Hkeep, Hdrop, (addMissing_nothing _ _ Hfound). simpl.
    rewrite length_map.
    destruct (dbLocations ++ locations) as [|loc ls] eqn:Eall.
    + now rewrite andb_false_r.
    + destruct (Hcov loc (or_introl eq_refl)) as [H|H].
      * rewrite (Hown loc (or_introl eq_refl)) in H. discriminate.
      * fold synced in H. destruct synced; [destruct H | reflexivity].
Qed.

End MarkerSyncTheorems.

Lemma scenarioLocations_own_ids (loc : Location) :
  In loc (scenarioLocations ++ []) -> inheritedKey (loc_id loc) = false.
Proof. intros [<-|[<-|[]]]; reflexivity. Qed.

Lemma syncMarkers_shows_locations_witness :
  In "Z" (map fst (fst (syncMarkers inheritedKey true scenarioLocations []
                          [("Z", scenarioLocation "Z" 0 0)])))
  <-> In "Z" (map loc_id (scenarioLocations ++ [])).
Proof.
  exact (proj1 (@syncMarkers_shows_locations inheritedKey scenarioLocations []
                  [("Z", scenarioLocation "Z" 0 0)]
                  scenarioLocations_own_ids) "Z").
Defined.

Lemma syncMarkers_keeps_markers_witness :
  In ("A", scenarioLocation "A" 0 0)
    (fst (syncMarkers inheritedKey true scenarioLocations []
            [("Z", scenarioLocation "Z" 0 0); ("A", scenarioLocation "A" 0 0)])).
Proof.
  apply (proj1 (@syncMarkers_keeps_markers inheritedKey scenarioLocations []
                  [("Z", scenarioLocation "Z" 0 0);
                   ("A", scenarioLocation "A" 0 0)])
           ("A", scenarioLocation "A" 0 0)).
  - simpl. right. left. reflexivity.
  - simpl. left. reflexivity.
Defined.

Lemma syncMarkers_fits_once_witness :
  syncMarkers inheritedKey true scenarioLocations []
    (fst (syncMarkers inheritedKey true scenarioLocations [] []))
  = (fst (syncMarkers inheritedKey true scenarioLocations [] []), []).
Proof.
  exact (proj1 (proj2 (@syncMarkers_fits_once inheritedKey scenarioLocations
                         [] [])) scenarioLocations_own_ids).
Defined.

Example syncMarkers_first_load :
  snd (syncMarkers inheritedKey true scenarioLocations [] [])
  = [AddMarker (scenarioLocation "A" (1396917 # 10000) (356895 # 10000));
     AddMarker (scenarioLocation "B" (1397 # 10) (357 # 10));
     FitBounds [(1396917 # 10000, 356895 # 10000)%Q; (1397 # 10, 357 # 10)%Q]].
Proof. reflexivity. Qed.

(** ** Clearing, resetting and the legacy backup *)

(** When the database refuses the call, [clearUserInputs], [clearAllData]
    and [resetGeneration] change nothing: neither the component state nor
    the legacy storage, and no exception leaves the handler. *)
Theorem clearing_is_all_or_nothing (db_rejects : DbOp -> option string)
  (st : State) :
  (db_rejects ClearUserPreferences <> None ->
   clearUserInputs db_rejects st
   = mkRun st [ClearUserPreferences] (Returned tt)) /\
  (db_rejects ClearAllData <> None ->
   clearAllData db_rejects st = mkRun st [ClearAllData] (Returned tt)) /\
  (db_rejects (SaveSession false) <> None ->
   resetGeneration db_rejects st
   = mkRun st [SaveSession false] (Returned tt)).
Proof.
  split; [|split]; intros H.
  - unfold clearUserInputs, tryCatch. cbv zeta. rewrite bind_call.
    destruct (db_rejects ClearUserPreferences); [reflexivity | contradiction].
  - unfold clearAllData, tryCatch. cbv zeta. rewrite bind_call.
    destruct (db_rejects ClearAllData); [reflexivity | contradiction].
  - unfold resetGeneration, tryCatch. cbv zeta. rewrite bind_call.
    destruct (db_rejects (SaveSession false)); [reflexivity | contradiction].
Qed.

Lemma clearing_is_all_or_nothing_witness :
  clearAllData (fun op => match op with
                          | ClearAllData => Some "QuotaExceededError"
                          | _ => None
                          end) legacyState
  = mkRun legacyState [ClearAllData] (Returned tt).
Proof.
  apply (proj1 (proj2 (clearing_is_all_or_nothing
                         (fun op => match op with
                                    | ClearAllData => Some "QuotaExceededError"
                                    | _ => None
                                    end) legacyState))).
  discriminate.
Defined.

Section MigrationAfterClearing.

Variable JSON_parse : string -> option JsonValue.
Variable js_gt_zero : JsonValue -> bool.
Variable db_rejects : DbOp -> option string.

Lemma migrateFromLocalStorage_nothing_legacy (stats : StorageStats)
  (st : State) :
  (forall key, In key legacyKeys -> localStorage st key = None) ->
  calls (migrateFromLocalStorage JSON_parse js_gt_zero db_rejects
           (Returned stats) st) = [].
Proof.
  intros Hnone. rewrite migrateFromLocalStorage_blocks.
  unfold migratePreferences, migrateRecommendations, migrateItinerary,
    migrateSession. cbv zeta.
  rewrite !Hnone by (simpl; tauto). simpl.
  destruct (preferencesCount stats =? 0)%nat,
    (recommendationsCount stats =? 0)%nat,
    (itineraryCount stats =? 0)%nat, (sessionExists stats); reflexivity.
Qed.

(** When [clearAllData] gets through, the four preference fields are
    empty, nothing is generated, both lists are empty and the seven legacy
    keys are gone while every other key of the legacy storage is kept; a
    migration run from there, whatever the Local Store reports, makes no
    call: the cleared data does not come back. *)
Theorem clearAllData_clears (st : State) :
  db_rejects ClearAllData = None ->
  currentPreferences (final (clearAllData db_rejects st))
    = mkUserPreferences "" "" "" "" /\
  isGenerated (final (clearAllData db_rejects st)) = false /\
  recommendations (final (clearAllData db_rejects st)) = [] /\
  itinerary (final (clearAllData db_rejects st)) = [] /\
  (forall key : string,
     localStorage (final (clearAllData db_rejects st)) key
     = if existsb (String.eqb key) legacyKeys then None
       else localStorage st key) /\
  (forall stats : StorageStats,
     calls (migrateFromLocalStorage JSON_parse js_gt_zero db_rejects
              (Returned stats) (final (clearAllData db_rejects st))) = []).
Proof.
  intros Hok.
  assert (Hfinal : final (clearAllData db_rejects st)
            = setItinerary [] (setRecommendations [] (setIsGenerated false
                (setAuthor "" (setArtist "" (setMovie "" (setDestination ""
                  (setLocalStorage
                     (removeItem "kensho-is-generated"
                        (removeItem "kensho-itinerary"
                           (removeItem "kensho-recommendations"
                              (removeItem "kensho-author"
                                 (removeItem "kensho-artist"
                                    (removeItem "kensho-movie"
                                       (removeItem "kensho-destination"
                                          (localStorage st)))))))) st)))))))).
  { unfold clearAllData, tryCatch. cbv zeta. rewrite bind_call, Hok.
    reflexivity. }
  assert (Hkeys : forall key : string,
            localStorage (final (clearAllData db_rejects st)) key
            = if existsb (String.eqb key) legacyKeys then None
              else localStorage st key).
  { intros key. rewrite Hfinal. simpl. unfold removeItem.
    repeat match goal with
    | |- context [String.eqb key ?k] => destruct (String.eqb key k)
    end; reflexivity. }
  rewrite Hfinal at 1 2 3 4.
  repeat (split; [reflexivity|]). split; [exact Hkeys|].
  intros stats. apply migrateFromLocalStorage_nothing_legacy.
  intros key Hin. rewrite Hkeys.
  destruct Hin as [<-|[<-|[<-|[<-|[<-|[<-|[<-|[]]]]]]]]; reflexivity.
Qed.

(** The backup that the debounced save writes to the legacy storage is what
    the migration restores: against a Local Store without preferences, the
    preferences block saves exactly the four fields of the component, if
    one of them is not empty, and makes no call if all are empty. *)
Theorem savePreferencesTimer_backup_restored (stats : StorageStats)
  (st s : State) :
  preferencesCount stats = 0%nat ->
  calls (migratePreferences db_rejects stats
           (localStorage (final (savePreferencesTimer st))) s)
  = if truthy (destination st) || truthy (movie st) || truthy (artist st)
       || truthy (author st)
    then [SaveUserPreferences (currentPreferences st)]
    else [].
Proof.
  intros Hempty. unfold migratePreferences. rewrite Hempty. cbv zeta.
  cbn [Nat.eqb]. simpl. unfold or_else, currentPreferences.
  destruct (destination st), (movie st), (artist st), (author st);
    reflexivity.
Qed.

End MigrationAfterClearing.

Lemma clearAllData_clears_witness :
  calls (migrateFromLocalStorage scenarioParse (fun _ => false) reliableDb
           (Returned preferencesOnlyStats)
           (final (clearAllData reliableDb legacyState))) = [].
Proof.
  apply (proj2 (proj2 (proj2 (proj2 (proj2
           (@clearAllData_clears scenarioParse (fun _ => false) reliableDb
              legacyState eq_refl)))))).
Defined.

Lemma savePreferencesTimer_backup_restored_witness :
  calls (migratePreferences reliableDb (mkStorageStats 0 0 0 false)
           (localStorage (final (savePreferencesTimer scenarioState)))
           scenarioState)
  = [SaveUserPreferences (currentPreferences scenarioState)].
Proof.
  apply (@savePreferencesTimer_backup_restored reliableDb
           (mkStorageStats 0 0 0 false) scenarioState scenarioState).
  reflexivity.
Defined.

(** ** Blank inputs *)

Lemma trimEnd_truthy (s : string) :
  truthy (trimEnd s) = negb (blank s).
Proof.
  unfold blank. induction s as [|c s IH]; simpl; [reflexivity|].
  destruct (trimEnd s) as [|c' t]; simpl in *.
  - rewrite <- (negb_involutive (forallb _ _)), <- IH. simpl.
    rewrite andb_true_r. now destruct (isWhiteSpace c).
  - rewrite <- (negb_involutive (forallb _ _)), <- IH. simpl.
    now rewrite andb_false_r.
Qed.

Lemma trimStart_blank (s : string) : blank (trimStart s) = blank s.
Proof.
  unfold blank. induction s as [|c s IH]; simpl; [reflexivity|].
  destruct (isWhiteSpace c) eqn:E; simpl; [exact IH | now rewrite E].
Qed.

Lemma trim_truthy (s : string) : truthy (trim s) = negb (blank s).
Proof. unfold trim. now rewrite trimEnd_truthy, trimStart_blank. Qed.

(** A field that holds only white space counts as empty: the inputs are
    complete exactly when the destination and one of movie, artist and
    author hold another character, and with a blank destination
    [handleGenerateRecommendations] does nothing (no state change, no
    database call), whatever the key and the reply. *)
Theorem blank_inputs_are_missing (db_rejects : DbOp -> option string)
  (apiKey : option string) (random : nat -> R)
  (fetched : Outcome ApiResponse) (st : State) :
  hasRequiredInputs st
  = negb (blank (destination st))
    && (negb (blank (movie st)) || negb (blank (artist st))
        || negb (blank (author st))) /\
  (blank (destination st) = true ->
   handleGenerateRecommendations db_rejects apiKey random fetched st
   = mkRun st [] (Returned tt)) /\
  (blank (movie st) = true -> blank (artist st) = true ->
   blank (author st) = true ->
   handleGenerateRecommendations db_rejects apiKey random fetched st
   = mkRun st [] (Returned tt)).
Proof.
  assert (Hreq : hasRequiredInputs st
                 = negb (blank (destination st))
                   && (negb (blank (movie st)) || negb (blank (artist st))
                       || negb (blank (author st)))).
  { unfold hasRequiredInputs. now rewrite !trim_truthy. }
  split; [exact Hreq|]. split.
  - intros Hb. unfold handleGenerateRecommendations. rewrite Hreq, Hb.
    reflexivity.
  - intros H1 H2 H3. unfold handleGenerateRecommendations.
    rewrite Hreq, H1, H2, H3. rewrite andb_false_r. reflexivity.
Qed.

Lemma blank_inputs_are_missing_witness :
  handleGenerateRecommendations reliableDb (Some "key") (fun _ => 0%R)
    (Thrown "offline") (setDestination "   " scenarioState)
  = mkRun (setDestination "   " scenarioState) [] (Returned tt).
Proof.
  apply (proj1 (proj2 (blank_inputs_are_missing reliableDb (Some "key")
                         (fun _ => 0%R) (Thrown "offline")
                         (setDestination "   " scenarioState)))).
  reflexivity.
Defined.

(** ** The interests of the request *)

Lemma lower_ascii_normal (c : ascii) :
  isUpperCase (lower_ascii c) = false /\
  isWhiteSpace (lower_ascii c) = isWhiteSpace c.
Proof.
  destruct c as [[] [] [] [] [] [] [] []]; vm_compute; split; reflexivity.
Qed.

Lemma blank_trimEnd (s : string) : blank (trimEnd s) = blank s.
Proof.
  unfold blank. induction s as [|c s IH]; simpl; [reflexivity|].
  destruct (trimEnd s) as [|c' t]; simpl in *.
  - rewrite <- IH, andb_true_r.
    destruct (isWhiteSpace c) eqn:E; simpl; [reflexivity|].
    now rewrite E.
  - now rewrite <- IH.
Qed.

Lemma blank_trim (s : string) : blank (trim s) = blank s.
Proof. unfold trim. now rewrite blank_trimEnd, trimStart_blank. Qed.

Lemma removeWhiteSpace_truthy (s : string) :
  truthy (removeWhiteSpace s) = negb (blank s).
Proof.
  unfold blank. induction s as [|c s IH]; simpl; [reflexivity|].
  destruct (isWhiteSpace c); simpl; [exact IH | reflexivity].
Qed.

Lemma toLowerCase_truthy (s : string) : truthy (toLowerCase s) = truthy s.
Proof. destruct s; reflexivity. Qed.

Lemma removeWhiteSpace_lower_chars (s : string) :
  forallb (fun c => negb (isWhiteSpace c) && negb (isUpperCase c))
    (list_ascii_of_string (toLowerCase (removeWhiteSpace s))) = true.
Proof.
  induction s as [|c s IH]; simpl; [reflexivity|].
  destruct (isWhiteSpace c) eqn:E; simpl; [exact IH|].
  destruct (lower_ascii_normal c) as [Hu Hw].
  now rewrite Hu, Hw, E, IH.
Qed.

Lemma interestEntity_normalized (kind value : string) :
  truthy (trim value) = true ->
  exists name : string,
    interestEntity kind value = ("urn:entity:" ++ kind ++ ":" ++ name)%string /\
    normalizedName name = true.
Proof.
  intros Hvalue. eexists. split; [reflexivity|].
  unfold normalizedName.
  rewrite toLowerCase_truthy, removeWhiteSpace_truthy, blank_trim,
    <- trim_truthy, Hvalue.
  apply removeWhiteSpace_lower_chars.
Qed.

(** Every interest sent with a generation request has weight 10 and an
    entity made of the namespace of its field (movie, artist, or book for
    the author) and a name that is not empty and holds neither white space
    nor an upper-case ASCII letter; the blank fields send none, and when
    the inputs are complete at least one interest is sent. *)
Theorem interestsPayload_normalized (st : State) :
  Forall (fun interest =>
            weight interest = 10%nat /\
            exists kind name : string,
              In kind ["movie"; "artist"; "book"] /\
              entity interest = ("urn:entity:" ++ kind ++ ":" ++ name)%string /\
              normalizedName name = true)
         (interestsPayload st) /\
  length (interestsPayload st)
  = ((if blank (movie st) then 0 else 1)
     + (if blank (artist st) then 0 else 1)
     + (if blank (author st) then 0 else 1))%nat /\
  (hasRequiredInputs st = true -> interestsPayload st <> []).
Proof.
  assert (Hlen : length (interestsPayload st)
                 = ((if blank (movie st) then 0 else 1)
                    + (if blank (artist st) then 0 else 1)
                    + (if blank (author st) then 0 else 1))%nat).
  { unfold interestsPayload. rewrite !length_app, !trim_truthy.
    destruct (blank (movie st)), (blank (artist st)), (blank (author st));
      reflexivity. }
  split; [|split; [exact Hlen|]].
  - unfold interestsPayload. apply Forall_app; split.
    + destruct (truthy (trim (movie st))) eqn:E; constructor; [|constructor].
      simpl. split; [reflexivity|].
      destruct (interestEntity_normalized "movie" _ E) as [name [H1 H2]].
      exists "movie", name. simpl. auto.
    + apply Forall_app; split.
      * destruct (truthy (trim (artist st))) eqn:E; constructor; [|constructor].
        simpl. split; [reflexivity|].
        destruct (interestEntity_normalized "artist" _ E) as [name [H1 H2]].
        exists "artist", name. simpl. auto.
      * destruct (truthy (trim (author st))) eqn:E; constructor; [|constructor].
        simpl. split; [reflexivity|].
        destruct (interestEntity_normalized "book" _ E) as [name [H1 H2]].
        exists "book", name. simpl. auto 6.
  - intros Hreq Hnil. rewrite Hnil in Hlen. simpl in Hlen.
    unfold hasRequiredInputs in Hreq. rewrite !trim_truthy in Hreq.
    destruct (blank (movie st)), (blank (artist st)), (blank (author st));
      simpl in *; try discriminate.
    now rewrite andb_false_r in Hreq.
Qed.

Lemma interestsPayload_normalized_witness :
  interestsPayload scenarioState <> [].
Proof.
  apply (proj2 (proj2 (interestsPayload_normalized scenarioState))).
  reflexivity.
Defined.

Example interestsPayload_scenario :
  interestsPayload scenarioState
  = [mkInterest "urn:entity:movie:lostintranslation" 10].
Proof. reflexivity. Qed.

(** ** Generation: what the user is left with *)

Lemma handleGenerateRecommendations_failed
  (db_rejects : DbOp -> option string) (apiKey : option string)
  (random : nat -> R) (fetched : Outcome ApiResponse) (message : string)
  (st : State) :
  hasRequiredInputs st = true -> truthy_opt apiKey = true ->
  fetchFailure fetched = Some message ->
  handleGenerateRecommendations db_rejects apiKey random fetched st
  = mkRun (setIsLoading false
             (setApiError (shownError message)
                (setRecommendations [] (setApiError "" (setError None
                   (setIsLoading true st))))))
      [] (Returned tt).
Proof.
  intros Hreq Hkey Hfail. unfold handleGenerateRecommendations.
  rewrite Hreq, Hkey. cbn [negb]. rewrite !bind_update.
  unfold tryFinally, tryCatch, shownError. cbv zeta.
  destruct fetched as [data|m]; simpl in Hfail.
  - rewrite bind_lift_returned.
    destruct (negb (response_ok data) || negb (data_success data));
      [|discriminate].
    injection Hfail as <-. unfold throw, update. simpl.
    destruct (includes _ "400"); reflexivity.
  - injection Hfail as <-. rewrite bind_lift_thrown. unfold update. simpl.
    destruct (includes m "400"); reflexivity.
Qed.

Lemma handleGenerateRecommendations_fetched
  (db_rejects : DbOp -> option string) (apiKey : option string)
  (random : nat -> R) (data : ApiResponse) (st : State) :
  hasRequiredInputs st = true -> truthy_opt apiKey = true ->
  fetchFailure (Returned data) = None ->
  let mapped :=
    mapRecommendations random
      (match results_entities data with Some l => l | None => [] end) in
  final (handleGenerateRecommendations db_rejects apiKey random
           (Returned data) st)
  = setIsLoading false
      (match db_rejects (SaveRecommendations mapped) with
       | Some message => setApiError (shownError message)
       | None =>
           match db_rejects (SaveSession true) with
           | Some message => setApiError (shownError message)
           | None => fun s => s
           end
       end
         (setIsGenerated true (setRecommendations mapped
            (setRecommendations [] (setApiError "" (setError None
               (setIsLoading true st))))))).
Proof.
  intros Hreq Hkey Hfail mapped. unfold handleGenerateRecommendations.
  rewrite Hreq, Hkey. cbn [negb]. rewrite !bind_update.
  unfold tryFinally, tryCatch, shownError. cbv zeta.
  rewrite bind_lift_returned. simpl in Hfail.
  destruct (negb (response_ok data) || negb (data_success data));
    [discriminate|].
  fold mapped. rewrite !bind_update, bind_call.
  destruct (db_rejects (SaveRecommendations mapped)) as [m1|]; simpl.
  - destruct (includes m1 "400"); reflexivity.
  - unfold call. destruct (db_rejects (SaveSession true)) as [m2|]; simpl.
    + destruct (includes m2 "400"); reflexivity.
    + reflexivity.
Qed.

(** With complete inputs, [handleGenerateRecommendations] never leaves the
    loading flag set.  Without a key it only reports the missing key.  If
    the request fails or is refused, the recommendations shown are empty,
    isGenerated keeps its value, no database call is made and the error
    shown is the invalid-destination text exactly when the message
    contains 400 (so for a status 400 without a message).  If the request
    succeeds, the mapped recommendations are shown and isGenerated is set,
    and an error is shown only if the database refused to save them. *)
Theorem handleGenerateRecommendations_outcomes
  (db_rejects : DbOp -> option string) (apiKey : option string)
  (random : nat -> R) (fetched : Outcome ApiResponse) (st : State) :
  hasRequiredInputs st = true ->
  isLoading (final (handleGenerateRecommendations db_rejects apiKey random
                      fetched st))
  = (if truthy_opt apiKey then false else isLoading st) /\
  (truthy_opt apiKey = false ->
   handleGenerateRecommendations db_rejects apiKey random fetched st
   = mkRun (setError (Some missingKeyMessage) st) [] (Returned tt)) /\
  (truthy_opt apiKey = true ->
   forall message : string,
     fetchFailure fetched = Some message ->
     recommendations (final (handleGenerateRecommendations db_rejects apiKey
                               random fetched st)) = [] /\
     isGenerated (final (handleGenerateRecommendations db_rejects apiKey
                           random fetched st)) = isGenerated st /\
     apiError (final (handleGenerateRecommendations db_rejects apiKey random
                        fetched st)) = shownError message /\
     calls (handleGenerateRecommendations db_rejects apiKey random fetched st)
     = []) /\
  (truthy_opt apiKey = true ->
   forall data : ApiResponse,
     fetched = Returned data -> fetchFailure fetched = None ->
     recommendations (final (handleGenerateRecommendations db_rejects apiKey
                               random fetched st))
     = mapRecommendations random
         (match results_entities data with Some l => l | None => [] end) /\
     isGenerated (final (handleGenerateRecommendations db_rejects apiKey
                           random fetched st)) = true /\
     (db_rejects
        (SaveRecommendations
           (mapRecommendations random
              (match results_entities data with Some l => l | None => [] end)))
      = None ->
      db_rejects (SaveSession true) = None ->
      apiError (final (handleGenerateRecommendations db_rejects apiKey random
                         fetched st)) = "")) /\
  shownError ("API Error: " ++ decimal 400) = invalidDestination.
Proof.
  intros Hreq. split; [|split; [|split; [|split; [|reflexivity]]]].
  - destruct (truthy_opt apiKey) eqn:Hkey.
    + destruct (fetchFailure fetched) as [message|] eqn:Hfail.
      * now rewrite (handleGenerateRecommendations_failed db_rejects apiKey
                       random fetched st Hreq Hkey Hfail).
      * destruct fetched as [data|m]; [|discriminate].
        rewrite (handleGenerateRecommendations_fetched db_rejects apiKey
                   random data st Hreq Hkey Hfail).
        reflexivity.
    + unfold handleGenerateRecommendations. now rewrite Hreq, Hkey.
  - intros Hkey. unfold handleGenerateRecommendations. now rewrite Hreq, Hkey.
  - intros Hkey message Hfail.
    now rewrite (handleGenerateRecommendations_failed db_rejects apiKey
                   random fetched st Hreq Hkey Hfail).
  - intros Hkey data -> Hfail.
    rewrite (handleGenerateRecommendations_fetched db_rejects apiKey
               random data st Hreq Hkey Hfail).
    split; [|split].
    + destruct (db_rejects (SaveRecommendations _)); [reflexivity|].
      destruct (db_rejects (SaveSession true)); reflexivity.
    + destruct (db_rejects (SaveRecommendations _)); [reflexivity|].
      destruct (db_rejects (SaveSession true)); reflexivity.
    + intros -> ->. reflexivity.
Qed.

Lemma handleGenerateRecommendations_outcomes_witness :
  isLoading (final (handleGenerateRecommendations reliableDb (Some "key")
                      (fun _ => 0%R) (Thrown "API Error: 400") scenarioState))
  = false.
Proof.
  apply (proj1 (@handleGenerateRecommendations_outcomes reliableDb (Some "key")
                  (fun _ => 0%R) (Thrown "API Error: 400") scenarioState
                  eq_refl)).
Defined.

(** ** The mapper: placeholders and the side of the chart *)

Lemma or_else_not_empty (a : option string) (b : string) :
  b <> EmptyString -> or_else a b <> EmptyString.
Proof.
  intros Hb. unfold or_else. destruct a as [[|c s]|]; simpl; auto.
  discriminate.
Qed.

(** No mapped recommendation has an empty category, image or insight: an
    entity property that is missing or the empty string is replaced by its
    placeholder; the segment is the one of the entity's tags. *)
Theorem mapRecommendations_placeholders (random : nat -> R)
  (entities : list Entity) :
  Forall (fun rec =>
            category rec <> EmptyString /\ image rec <> EmptyString /\
            insight rec <> EmptyString)
         (mapRecommendations random entities) /\
  map segment (mapRecommendations random entities)
  = map (fun e => mapTagsToSegment (tags e)) (sortByPopularity entities) /\
  map (fun rec => (latitude rec, longitude rec))
    (mapRecommendations random entities)
  = map (fun e => match location e with
                  | Some g => (lat g, lon g)
                  | None => (None, None)
                  end) (sortByPopularity entities).
Proof.
  unfold mapRecommendations, mapi. split; [|split].
  - apply mapi_from_Forall. intros e i _ _. unfold mapEntity.
    destruct (getRadarCoordinates _ _ _). simpl.
    repeat split; apply or_else_not_empty; discriminate.
  - apply mapi_from_map. intros e i. unfold mapEntity.
    destruct (getRadarCoordinates _ _ _). reflexivity.
  - apply mapi_from_map. intros e i. unfold mapEntity.
    destruct (getRadarCoordinates _ _ _). simpl.
    destruct (location e); reflexivity.
Qed.

Lemma radarRadius_positive (rank : Q) :
  (0 <= Q2R rank <= 1)%R -> (0 < Q2R (radarRadius rank))%R.
Proof. intros H. rewrite radarRadius_real. lra. Qed.

(** With a draw in [0,1] and a rank in [0,1], a dot lies on the side of
    the chart that belongs to its segment: right of the centre for dine,
    below it (larger y) for listen, left of it for see, above it for
    explore. *)
Theorem getRadarCoordinates_side (sg : Segment) (rank : Q) (random : R) :
  (0 <= random <= 1)%R -> (0 <= Q2R rank <= 1)%R ->
  match sg with
  | dine => (100 < fst (getRadarCoordinates sg rank random))%R
  | listen => (100 < snd (getRadarCoordinates sg rank random))%R
  | see => (fst (getRadarCoordinates sg rank random) < 100)%R
  | explore => (snd (getRadarCoordinates sg rank random) < 100)%R
  end.
Proof.
  intros Hrandom Hrank.
  pose proof (radarRadius_positive Hrank) as Hradius.
  pose proof PI_RGT_0 as Hpi.
  unfold getRadarCoordinates, angleJitter. cbv zeta.
  set (radius := Q2R (radarRadius rank)) in *.
  destruct sg; unfold segmentAngles; cbn [fst snd].
  - set (a := ((0 + (random * (35 * 2) - 35)) * PI / 180)%R).
    assert (Hcos : (0 < cos a)%R).
    { apply cos_gt_0; unfold a; nra. }
    nra.
  - set (a := ((90 + (random * (35 * 2) - 35)) * PI / 180)%R).
    assert (Hsin : (0 < sin a)%R).
    { apply sin_gt_0; unfold a; nra. }
    nra.
  - set (a := ((180 + (random * (35 * 2) - 35)) * PI / 180)%R).
    assert (Hcos : (cos a < 0)%R).
    { apply cos_lt_0; unfold a; nra. }
    nra.
  - set (a := ((270 + (random * (35 * 2) - 35)) * PI / 180)%R).
    assert (Hsin : (sin a < 0)%R).
    { apply sin_lt_0; unfold a; nra. }
    nra.
Qed.

Lemma getRadarCoordinates_side_witness :
  (100 < fst (getRadarCoordinates dine (1 # 2) (1 / 2)))%R.
Proof.
  apply (@getRadarCoordinates_side dine (1 # 2) (1 / 2)%R).
  - lra.
  - unfold Q2R. simpl. lra.
Defined.

(** ** The dots of the radar chart *)

(** On a narrow window two taps in a row on the same dot hand the
    recommendation to the itinerary exactly once, whatever was selected
    before, and a tap on another dot only moves the selection; on a wide
    window every tap hands it over and the selection is left alone. *)
Theorem handleDotClick_two_taps (innerWidth : nat) (rec : Recommendation)
  (selectedRec : option Recommendation) :
  ((innerWidth < 1024)%nat ->
   snd (handleDotClick innerWidth rec selectedRec)
   ++ snd (handleDotClick innerWidth rec
             (fst (handleDotClick innerWidth rec selectedRec)))
   = [rec]) /\
  ((innerWidth < 1024)%nat ->
   forall other : Recommendation,
     rec_id other <> rec_id rec ->
     handleDotClick innerWidth other (Some rec) = (Some other, [])) /\
  ((1024 <= innerWidth)%nat ->
   handleDotClick innerWidth rec selectedRec = (selectedRec, [rec])).
Proof.
  unfold handleDotClick. split; [|split]; intros Hw.
  - apply Nat.ltb_lt in Hw. rewrite Hw.
    destruct selectedRec as [selected|]; simpl.
    + destruct (String.eqb (rec_id selected) (rec_id rec)); simpl;
        rewrite ?String.eqb_refl; reflexivity.
    + now rewrite String.eqb_refl.
  - intros other Hne. apply Nat.ltb_lt in Hw. rewrite Hw.
    apply not_eq_sym in Hne. apply String.eqb_neq in Hne. now rewrite Hne.
  - apply Nat.ltb_ge in Hw. now rewrite Hw.
Qed.

Lemma handleDotClick_two_taps_witness :
  snd (handleDotClick 390 (scenarioRecommendation "A")
         (Some (scenarioRecommendation "B")))
  ++ snd (handleDotClick 390 (scenarioRecommendation "A")
            (fst (handleDotClick 390 (scenarioRecommendation "A")
                    (Some (scenarioRecommendation "B")))))
  = [scenarioRecommendation "A"].
Proof.
  apply (proj1 (handleDotClick_two_taps 390 (scenarioRecommendation "A")
                  (Some (scenarioRecommendation "B")))).
  lia.
Defined.

(** ** Text of the cards: [truncateText] *)

Lemma string_length_append (a b : string) :
  String.length (a ++ b) = (String.length a + String.length b)%nat.
Proof. induction a as [|c a IH]; simpl; [reflexivity | now rewrite IH]. Qed.

Lemma string_of_rev_cons (pending : list ascii) (c : ascii) (s : string) :
  (string_of_list_ascii (rev (c :: pending)) ++ s)%string
  = (string_of_list_ascii (rev pending) ++ String c s)%string.
Proof. simpl. apply string_of_list_ascii_snoc. Qed.

Lemma string_of_list_ascii_last (l : list ascii) (c : ascii) :
  string_of_list_ascii (l ++ [c])
  = (string_of_list_ascii l ++ String c "")%string.
Proof.
  rewrite <- (string_append_empty (string_of_list_ascii (l ++ [c]))).
  apply string_of_list_ascii_snoc.
Qed.

Lemma splitSentencesFrom_not_nil (s : string) :
  forall pending : list ascii, splitSentencesFrom pending s <> [].
Proof.
  induction s as [|c s IH]; intros pending; cbn [splitSentencesFrom].
  - discriminate.
  - destruct s as [|c' s'']; [apply IH|].
    destruct (Ascii.eqb c "." && Ascii.eqb c' " "); [discriminate | apply IH].
Qed.

Lemma concat_cons (sep x : string) (l : list string) :
  l <> [] ->
  String.concat sep (x :: l) = (x ++ sep ++ String.concat sep l)%string.
Proof. destruct l; [contradiction | reflexivity]. Qed.

(** Joining the pieces with the separator gives the text back. *)
Lemma splitSentencesFrom_concat (n : nat) :
  forall (s : string) (pending : list ascii),
    (String.length s <= n)%nat ->
    String.concat ". " (splitSentencesFrom pending s)
    = (string_of_list_ascii (rev pending) ++ s)%string.
Proof.
  induction n as [|n IH]; intros s pending Hlen.
  - destruct s; [|simpl in Hlen; lia]. simpl.
    now rewrite string_append_empty.
  - destruct s as [|c s]; [simpl; now rewrite string_append_empty|].
    cbn [splitSentencesFrom]. destruct s as [|c' s''].
    + rewrite IH by (simpl; lia). apply string_of_rev_cons.
    + simpl in Hlen.
      destruct (Ascii.eqb_spec c ".") as [-> | Hc];
        [destruct (Ascii.eqb_spec c' " ") as [-> | Hc']|]; cbn [andb].
      * rewrite concat_cons by apply splitSentencesFrom_not_nil.
        rewrite (IH s'' []) by lia. reflexivity.
      * rewrite IH by (simpl; lia). apply string_of_rev_cons.
      * rewrite IH by (simpl; lia). apply string_of_rev_cons.
Qed.

Lemma splitSentences_concat (s : string) :
  String.concat ". " (splitSentences s) = s.
Proof.
  unfold splitSentences.
  now rewrite (@splitSentencesFrom_concat (String.length s) s []
                 (Nat.le_refl _)).
Qed.

Lemma concat_length (l : list string) :
  String.length (String.concat ". " l)
  = (totalLength l + 2 * (length l - 1))%nat.
Proof.
  unfold totalLength. induction l as [|x l IH]; [reflexivity|].
  destruct l as [|y l]; [simpl; lia|].
  rewrite concat_cons by discriminate.
  rewrite !string_length_append, IH. simpl. lia.
Qed.

Lemma totalLength_filter (l : list string) :
  totalLength (filter truthy l) = totalLength l.
Proof.
  unfold totalLength. induction l as [|x l IH]; [reflexivity|].
  destruct x; simpl; [exact IH | now rewrite <- IH].
Qed.

Lemma totalLength_firstn (n : nat) (l : list string) :
  Forall (fun x => truthy x = true) l ->
  (n <= length l)%nat ->
  (totalLength (firstn n l) + (length l - n) <= totalLength l)%nat.
Proof.
  unfold totalLength. intros Hall. revert n.
  induction Hall as [|x l Hx _ IH]; intros n Hn.
  - destruct n; simpl in *; lia.
  - destruct n as [|n]; simpl in *.
    + specialize (IH 0%nat ltac:(lia)). simpl in IH.
      destruct x; [discriminate | simpl; lia].
    + specialize (IH n ltac:(lia)). lia.
Qed.

Lemma filter_truthy_all (l : list string) :
  Forall (fun x => truthy x = true) (filter truthy l).
Proof.
  apply Forall_forall. intros x Hin. now apply filter_In in Hin.
Qed.

Lemma filter_length_le {A : Type} (f : A -> bool) (l : list A) :
  (length (filter f l) <= length l)%nat.
Proof.
  induction l as [|a l IH]; simpl; [lia|]. destruct (f a); simpl; lia.
Qed.

(** The cut text is never longer than the text, and when it differs from
    the text it ends with a full stop. *)
Theorem truncateText_not_longer (text : string) (sentenceCount : nat) :
  (String.length (truncateText text sentenceCount) <= String.length text)%nat /\
  (truncateText text sentenceCount = text \/
   exists body : string, truncateText text sentenceCount = (body ++ ".")%string).
Proof.
  unfold truncateText. destruct text as [|c0 text0] eqn:Etext.
  - simpl. auto.
  - rewrite <- Etext. cbn [truthy negb]. replace (truthy text) with true
      by (rewrite Etext; reflexivity). cbn [negb].
    set (segs := filter truthy (splitSentences text)).
    destruct (Nat.leb_spec (length segs) sentenceCount) as [Hle | Hlt].
    + split; [lia | now left].
    + split; [|right; eexists; reflexivity].
      rewrite string_length_append, concat_length. simpl String.length.
      pose proof (f_equal String.length (splitSentences_concat text)) as Ht.
      rewrite concat_length in Ht.
      pose proof (@totalLength_firstn sentenceCount segs
                    (filter_truthy_all _) ltac:(lia)) as Hfirst.
      pose proof (filter_length_le truthy (splitSentences text)) as Hfl.
      fold segs in Hfl.
      unfold segs in Hfirst at 3. rewrite totalLength_filter in Hfirst.
      rewrite length_firstn. fold segs in Hfirst. lia.
Qed.

Lemma separatorFree_split (x : string) :
  separatorFree x = true ->
  forall pending : list ascii,
    splitSentencesFrom pending x
    = [(string_of_list_ascii (rev pending) ++ x)%string].
Proof.
  induction x as [|c x IH]; intros Hfree pending.
  - simpl. now rewrite string_append_empty.
  - cbn [splitSentencesFrom]. destruct x as [|c' x'].
    + simpl. now rewrite string_of_list_ascii_last.
    + cbn [separatorFree] in Hfree. apply andb_true_iff in Hfree as [Hsep Hrest].
      apply negb_true_iff in Hsep. rewrite Hsep.
      rewrite (IH Hrest). now rewrite string_of_rev_cons.
Qed.

Lemma separatorFree_split_app (x rest : string) :
  separatorFree x = true ->
  forall pending : list ascii,
    splitSentencesFrom pending (x ++ String "." (String " " rest))
    = (string_of_list_ascii (rev pending) ++ x)%string
      :: splitSentencesFrom [] rest.
Proof.
  induction x as [|c x IH]; intros Hfree pending.
  - simpl. now rewrite string_append_empty.
  - cbn [append splitSentencesFrom]. destruct x as [|c' x'].
    + cbn [append]. replace (Ascii.eqb c "." && Ascii.eqb "." " ") with false
        by (now rewrite andb_false_r).
      rewrite (IH eq_refl). now rewrite string_of_rev_cons.
    + cbn [append]. cbn [separatorFree] in Hfree.
      apply andb_true_iff in Hfree as [Hsep Hrest].
      apply negb_true_iff in Hsep. rewrite Hsep.
      change (String c' (x' ++ String "." (String " " rest)))
        with (String c' x' ++ String "." (String " " rest))%string.
      rewrite (IH Hrest). now rewrite string_of_rev_cons.
Qed.

Lemma splitSentences_of_concat (l : list string) :
  l <> [] -> Forall (fun x => separatorFree x = true) l ->
  splitSentences (String.concat ". " l) = l.
Proof.
  unfold splitSentences. intros Hne Hall.
  induction Hall as [|x l Hx Hall IH]; [contradiction|].
  destruct l as [|y l].
  - simpl. now rewrite separatorFree_split.
  - rewrite concat_cons by discriminate.
    change (x ++ ". " ++ String.concat ". " (y :: l))%string
      with (x ++ String "." (String " " (String.concat ". " (y :: l))))%string.
    rewrite separatorFree_split_app by exact Hx.
    simpl rev. simpl string_of_list_ascii. cbn [append].
    rewrite IH by discriminate. reflexivity.
Qed.

Lemma separatorFree_prefix (a b : string) :
  separatorFree (a ++ b) = true -> separatorFree a = true.
Proof.
  induction a as [|c a IH]; [reflexivity|].
  cbn [append separatorFree]. destruct a as [|c' a'].
  - reflexivity.
  - cbn [append]. intros H. apply andb_true_iff in H as [H1 H2].
    rewrite H1. simpl. apply IH. exact H2.
Qed.

Lemma separatorFree_junction (a : string) (c : ascii) (s : string) :
  separatorFree (a ++ String c s)
  = separatorFree (a ++ String c "") && separatorFree (String c s).
Proof.
  induction a as [|x a IH].
  - cbn [append]. simpl. destruct s; reflexivity.
  - cbn [append separatorFree]. destruct a as [|y a'].
    + cbn [append]. cbn [separatorFree].
      destruct s; simpl; rewrite ?andb_true_r; reflexivity.
    + cbn [append] in *. rewrite IH. now rewrite andb_assoc.
Qed.

Lemma separatorFree_full_stop (x : string) :
  separatorFree x = true -> separatorFree (x ++ ".") = true.
Proof.
  induction x as [|c x IH]; [reflexivity|].
  cbn [append separatorFree]. destruct x as [|c' x'].
  - intros _. cbn [append]. now rewrite andb_false_r.
  - intros H. apply andb_true_iff in H as [H1 H2]. cbn [append] in *.
    rewrite H1. simpl. now apply IH.
Qed.

Lemma splitSentencesFrom_pieces (n : nat) :
  forall (s : string) (pending : list ascii),
    (String.length s <= n)%nat ->
    separatorFree
      (string_of_list_ascii (rev pending)
       ++ match s with String c _ => String c "" | EmptyString => "" end)
    = true ->
    Forall (fun x => separatorFree x = true) (splitSentencesFrom pending s).
Proof.
  induction n as [|n IH]; intros s pending Hlen Hinv.
  - destruct s; [|simpl in Hlen; lia]. simpl.
    rewrite string_append_empty in Hinv. repeat constructor. exact Hinv.
  - destruct s as [|c s].
    + simpl. rewrite string_append_empty in Hinv. repeat constructor.
      exact Hinv.
    + cbn [splitSentencesFrom]. destruct s as [|c' s''].
      * apply IH; [simpl; lia|]. rewrite string_append_empty.
        simpl rev. now rewrite string_of_list_ascii_last.
      * simpl in Hlen.
        destruct (Ascii.eqb c "." && Ascii.eqb c' " ") eqn:Esep.
        -- constructor.
           ++ now apply separatorFree_prefix in Hinv.
           ++ apply IH; [lia|]. destruct s''; reflexivity.
        -- apply IH; [simpl; lia|].
           simpl rev. rewrite string_of_list_ascii_snoc.
           rewrite separatorFree_junction, Hinv. simpl. now rewrite Esep.
Qed.

Lemma splitSentences_pieces (s : string) :
  Forall (fun x => separatorFree x = true) (splitSentences s).
Proof.
  apply (@splitSentencesFrom_pieces (String.length s)); [lia|].
  destruct s; reflexivity.
Qed.

Lemma concat_last (sep z s : string) (l : list string) :
  (String.concat sep (l ++ [z]) ++ s)%string
  = String.concat sep (l ++ [(z ++ s)%string]).
Proof.
  induction l as [|x l IH]; [reflexivity|].
  cbn [app]. rewrite !concat_cons by (destruct l; discriminate).
  now rewrite !string_append_assoc, IH.
Qed.

Lemma truthy_append_full_stop (a : string) : truthy (a ++ ".") = true.
Proof. destruct a; reflexivity. Qed.

Lemma filter_all_true {A : Type} (f : A -> bool) (l : list A) :
  Forall (fun x => f x = true) l -> filter f l = l.
Proof.
  induction 1 as [|x l Hx _ IH]; simpl; [reflexivity|]. now rewrite Hx, IH.
Qed.

Lemma Forall_firstn_of {A : Type} (P : A -> Prop) (n : nat) (l : list A) :
  Forall P l -> Forall P (firstn n l).
Proof.
  intros H. rewrite <- (firstn_skipn n l) in H.
  now apply Forall_app in H as [H _].
Qed.

(** Cutting a text that is already cut changes nothing. *)
Theorem truncateText_idempotent (text : string) (sentenceCount : nat) :
  truncateText (truncateText text sentenceCount) sentenceCount
  = truncateText text sentenceCount.
Proof.
  destruct text as [|c0 text0] eqn:Etext; [reflexivity|].
  rewrite <- Etext.
  assert (Htruthy : truthy text = true) by (rewrite Etext; reflexivity).
  set (segs := filter truthy (splitSentences text)).
  assert (Hcut : truncateText text sentenceCount
                 = if (length segs <=? sentenceCount)%nat then text
                   else (String.concat ". " (firstn sentenceCount segs)
                         ++ ".")%string).
  { unfold truncateText. now rewrite Htruthy. }
  destruct (Nat.leb_spec (length segs) sentenceCount) as [Hle | Hlt].
  - now rewrite !Hcut.
  - rewrite Hcut. clear Hcut.
    assert (Hfree : Forall (fun x => separatorFree x = true) segs).
    { apply Forall_forall. intros x Hin. unfold segs in Hin.
      apply filter_In in Hin as [Hin _].
      pose proof (splitSentences_pieces text) as Hall.
      rewrite Forall_forall in Hall. now apply Hall. }
    pose proof (filter_truthy_all (splitSentences text)) as Hfull.
    fold segs in Hfull.
    destruct sentenceCount as [|k]; [reflexivity|].
    set (F := firstn (S k) segs).
    assert (HlenF : length F = S k) by (unfold F; rewrite length_firstn; lia).
    destruct (exists_last (l := F)) as [F' [z EF]];
      [intros E; rewrite E in HlenF; discriminate|].
    assert (HfreeF : Forall (fun x => separatorFree x = true) F)
      by (now apply Forall_firstn_of).
    assert (HfullF : Forall (fun x => truthy x = true) F)
      by (now apply Forall_firstn_of).
    rewrite EF in HfreeF, HfullF, HlenF |- *.
    apply Forall_app in HfreeF as [HfreeF' Hz].
    apply Forall_app in HfullF as [HfullF' _].
    inversion Hz as [|? ? Hz' _]; subst.
    rewrite concat_last.
    assert (Hpieces : Forall (fun x => separatorFree x = true)
                        (F' ++ [(z ++ ".")%string])).
    { apply Forall_app. split; [exact HfreeF'|].
      repeat constructor. now apply separatorFree_full_stop. }
    assert (Hwhole : Forall (fun x => truthy x = true)
                       (F' ++ [(z ++ ".")%string])).
    { apply Forall_app. split; [exact HfullF'|].
      repeat constructor. apply truthy_append_full_stop. }
    unfold truncateText.
    rewrite splitSentences_of_concat; [|destruct F'; discriminate | exact Hpieces].
    rewrite (filter_all_true _ Hwhole).
    assert (Hnonempty : truthy (String.concat ". " (F' ++ [(z ++ ".")%string]))
                        = true).
    { rewrite <- concat_last. apply truthy_append_full_stop. }
    rewrite Hnonempty. cbn [negb]. cbv zeta.
    rewrite length_app in *. simpl length in *.
    destruct (Nat.leb_spec (length F' + 1) (S k)); [reflexivity | lia].
Qed.

Example truncateText_insight :
  truncateText "One. Two. Three. Four. Five." 3 = "One. Two. Three." /\
  truncateText "One. Two." 3 = "One. Two." /\
  truncateText ". . a. b. c. d" 3 = "a. b. c.".
Proof. repeat split. Qed.

(** ** From the stored itinerary to the markers *)

Lemma loadLocationsFromDB_ids (dbItinerary : list ItineraryItem) :
  map loc_id (loadLocationsFromDB dbItinerary) = map item_id dbItinerary /\
  Forall (fun loc => loc_type loc = TItinerary)
    (loadLocationsFromDB dbItinerary).
Proof.
  unfold loadLocationsFromDB.
  induction dbItinerary as [|item l [IH1 IH2]].
  - split; [reflexivity | constructor].
  - cbn [flat_map]. unfold convertToMapLocation at 1 3. cbn [app map].
    split; [now rewrite IH1 | constructor; [reflexivity | exact IH2]].
Qed.

Lemma addMissing_fresh (inherited : string -> bool)
  (allLocations : list Location) :
  NoDup (map loc_id allLocations) ->
  (forall loc, In loc allLocations -> inherited (loc_id loc) = false) ->
  forall markers : Markers,
    (forall loc, In loc allLocations -> ~ In (loc_id loc) (map fst markers)) ->
    addMissing inherited allLocations markers
    = (markers ++ map (fun loc => (loc_id loc, loc)) allLocations,
       map AddMarker allLocations).
Proof.
  induction allLocations as [|location rest IH]; intros Hnd Hown markers Hnew.
  - simpl. now rewrite app_nil_r.
  - simpl. inversion Hnd as [|? ? Hnotin Hnd']; subst.
    assert (E : lookupMarker inherited markers (loc_id location) = false).
    { apply lookupMarker_absent. split.
      - apply Hown. now left.
      - apply Hnew. now left. }
    rewrite E. rewrite IH.
    + now rewrite <- app_assoc.
    + exact Hnd'.
    + intros loc Hin. apply Hown. now right.
    + intros loc Hin. rewrite map_app, in_app_iff. intros [H | [H | []]].
      * apply (Hnew loc); [now right | exact H].
      * simpl in H. apply Hnotin. rewrite H. now apply in_map.
Qed.

(** The first synchronisation after the itinerary is read from the
    database: every stored item yields a location (no item is skipped),
    and, the ids being distinct and none a property name of
    [Object.prototype], every item gets one marker, in the order of the
    itinerary, and the view is fitted when there is an item. *)
Theorem loadLocationsFromDB_first_markers (inherited : string -> bool)
  (dbItinerary : list ItineraryItem) :
  uniqueIds dbItinerary ->
  (forall item, In item dbItinerary -> inherited (item_id item) = false) ->
  map loc_id (loadLocationsFromDB dbItinerary) = map item_id dbItinerary /\
  map fst (fst (syncMarkers inherited true (loadLocationsFromDB dbItinerary)
                  [] []))
  = map item_id dbItinerary /\
  snd (syncMarkers inherited true (loadLocationsFromDB dbItinerary) [] [])
  = map AddMarker (loadLocationsFromDB dbItinerary)
    ++ (if (0 <? length dbItinerary)%nat
        then [FitBounds (map coordinates (loadLocationsFromDB dbItinerary))]
        else []).
Proof.
  intros Huniq Hown.
  destruct (loadLocationsFromDB_ids dbItinerary) as [Hids _].
  split; [exact Hids|].
  unfold syncMarkers, removeStale. cbn [negb filter map]. cbv zeta.
  rewrite app_nil_r.
  rewrite (@addMissing_fresh inherited (loadLocationsFromDB dbItinerary)).
  - cbn [fst snd app length Nat.eqb andb].
    rewrite map_map. cbn [fst].
    replace (length (loadLocationsFromDB dbItinerary))
      with (length dbItinerary)
      by (now rewrite <- (length_map loc_id), Hids, length_map).
    split; [exact Hids | reflexivity].
  - rewrite Hids. exact Huniq.
  - intros loc Hin. apply (in_map loc_id) in Hin. rewrite Hids in Hin.
    apply in_map_iff in Hin as [item [<- Hin]]. now apply Hown.
  - intros loc _ [].
Qed.

Lemma loadLocationsFromDB_first_markers_witness :
  map fst (fst (syncMarkers inheritedKey true
                  (loadLocationsFromDB (itinerary scenarioState)) [] []))
  = map item_id (itinerary scenarioState).
Proof.
  apply (@loadLocationsFromDB_first_markers inheritedKey
           (itinerary scenarioState)).
  - unfold uniqueIds. simpl. repeat constructor. simpl. tauto.
  - intros item [<-|[]]. reflexivity.
Defined.

(** ** Loading on mount *)

Section LoadingFacts.

Variable JSON_parse : string -> option JsonValue.
Variable js_gt_zero : JsonValue -> bool.
Variable db_rejects : DbOp -> option string.
Variable recommendationsOf : JsonValue -> list Recommendation.
Variable itineraryOf : JsonValue -> list ItineraryItem.

Lemma migrateFromLocalStorage_quiet (stats : Outcome StorageStats)
  (st : State) :
  final (migrateFromLocalStorage JSON_parse js_gt_zero db_rejects stats st) = st
  /\ outcome (migrateFromLocalStorage JSON_parse js_gt_zero db_rejects stats st)
     = Returned tt.
Proof.
  destruct stats as [stats | message].
  - split.
    + apply (@migrateFromLocalStorage_tame JSON_parse js_gt_zero db_rejects
               (fun _ => True) stats); intros; exact I.
    + unfold migrateFromLocalStorage. cbv zeta. apply tryCatch_ret_outcome.
  - unfold migrateFromLocalStorage, tryCatch. cbv zeta.
    rewrite bind_lift_thrown. split; reflexivity.
Qed.

Lemma migrateFromLocalStorage_thrown_calls (message : string) (st : State) :
  calls (migrateFromLocalStorage JSON_parse js_gt_zero db_rejects
           (Thrown message) st) = [].
Proof.
  unfold migrateFromLocalStorage, tryCatch. cbv zeta.
  rewrite bind_lift_thrown. reflexivity.
Qed.

(** The state [loadFromLocalStorage] reaches, cell by cell. *)
Lemma loadFromLocalStorage_run (st : State) :
  let restored (A : Type) (key : string) (read : JsonValue -> A) (old : A) :=
    match localStorage st key with
    | Some text =>
        if truthy text
        then match JSON_parse text with Some v => read v | None => old end
        else old
    | None => old
    end in
  loadFromLocalStorage JSON_parse recommendationsOf itineraryOf st
  = mkRun
      (setIsGenerated
         (isGenerated st ||
          match localStorage st "kensho-is-generated" with
          | Some flag => String.eqb flag "true"
          | None => false
          end)
         (setItinerary
            (restored _ "kensho-itinerary" itineraryOf (itinerary st))
            (setRecommendations
               (restored _ "kensho-recommendations" recommendationsOf
                  (recommendations st)) st)))
      [] (Returned tt).
Proof.
  cbv zeta. unfold loadFromLocalStorage. cbv zeta.
  destruct st as [d m a au g l e ae rs it dl ad ia aerr ls].
  cbn [localStorage].
  destruct (ls "kensho-recommendations") as [t1|]; cbn [truthy_opt or_else];
    [destruct (truthy t1); [unfold parse; destruct (JSON_parse t1)|]|];
    (destruct (ls "kensho-itinerary") as [t2|]; cbn [truthy_opt or_else];
     [destruct (truthy t2); [unfold parse; destruct (JSON_parse t2)|]|];
     (destruct (ls "kensho-is-generated") as [flag|];
      [destruct (String.eqb flag "true")|];
      destruct g; reflexivity)).
Qed.

End LoadingFacts.


Lemma bind_quiet {B : Type} (m : M unit) (g : State -> State)
  (k : unit -> M B) (st : State) :
  m st = mkRun (g st) [] (Returned tt) -> bind m k st = k tt (g st).
Proof. intros H. unfold bind. cbv zeta. rewrite H. simpl. apply run_eta. Qed.

Lemma tryCatch_thrown {A : Type} (body : M A) (handler : string -> M A)
  (st s1 : State) (made : list DbOp) (message : string) :
  body st = mkRun s1 made (Thrown message) ->
  tryCatch body handler st
  = mkRun (final (handler message s1)) (made ++ calls (handler message s1))
      (outcome (handler message s1)).
Proof. intros H. unfold tryCatch. cbv zeta. now rewrite H. Qed.

Lemma tryCatch_returned {A : Type} (body : M A) (handler : string -> M A)
  (st : State) :
  (exists a, outcome (body st) = Returned a) ->
  tryCatch body handler st = body st.
Proof. intros [a H]. unfold tryCatch. cbv zeta. now rewrite H. Qed.

Lemma tryFinally_update {A : Type} (body : M A) (f : State -> State)
  (st : State) :
  tryFinally body (update f) st
  = mkRun (f (final (body st))) (calls (body st)) (outcome (body st)).
Proof.
  unfold tryFinally, update. cbn [outcome final calls].
  now rewrite app_nil_r.
Qed.

Lemma withPreferences_run (preferences : option UserPreferences) (s : State) :
  match preferences with
  | Some p =>
      update (setDestination (pref_destination p)) ;;
      update (setMovie (pref_movie p)) ;;
      update (setArtist (pref_artist p)) ;;
      update (setAuthor (pref_author p))
  | None => ret tt
  end s
  = mkRun (withPreferences preferences s) [] (Returned tt).
Proof.
  destruct preferences as [p|]; [|reflexivity].
  now rewrite !bind_update.
Qed.

Section LoadingTheorems.

Variable JSON_parse : string -> option JsonValue.
Variable js_gt_zero : JsonValue -> bool.
Variable db_rejects : DbOp -> option string.
Variable recommendationsOf : JsonValue -> list Recommendation.
Variable itineraryOf : JsonValue -> list ItineraryItem.

(** The [try] block when a read rejects: it throws without a database
    call, the cells written before the rejection keeping the database
    values. *)
Lemma loadDataTry_rejected (reads : DbReads) (st : State) :
  readFails reads = true ->
  exists (before : State) (message : string),
    loadDataTry JSON_parse js_gt_zero db_rejects reads st
    = mkRun before [] (Thrown message) /\
    localStorage before = localStorage st /\
    isGenerated before = isGenerated st /\
    (forall thrown, getUserPreferences reads = Thrown thrown ->
       currentPreferences before = currentPreferences st /\
       recommendations before = recommendations st /\
       itinerary before = itinerary st).
Proof.
  unfold loadDataTry, readFails.
  destruct reads as [[prefs|m1] [recs|m2] [items|m3] [session|m4] stats];
    cbn [getUserPreferences getRecommendations getItinerary getSession
         getStorageStats]; intros Hfail; try discriminate Hfail.
  all: rewrite bind_update.
  all: rewrite ?bind_lift_thrown, ?bind_lift_returned.
  all: try (rewrite (bind_quiet _ (withPreferences prefs))
              by apply withPreferences_run).
  all: rewrite ?bind_lift_thrown, ?bind_lift_returned, ?bind_update.
  all: rewrite ?bind_lift_thrown, ?bind_lift_returned, ?bind_update.
  all: rewrite ?bind_lift_thrown, ?bind_lift_returned, ?bind_update.
  all: eexists; eexists; (split; [reflexivity|]).
  all: try (destruct prefs as [p|]); destruct st;
    (split; [reflexivity|]); (split; [reflexivity|]);
    intros thrown Hm; try discriminate Hm; repeat split; reflexivity.
Qed.

(** The [try] block when the four reads return: the cells hold what was
    read and the migration runs on them. *)
Lemma loadDataTry_loaded (reads : DbReads) (st : State)
  (prefs : option UserPreferences) (recs : list Recommendation)
  (items : list ItineraryItem) (session : option bool) :
  getUserPreferences reads = Returned prefs ->
  getRecommendations reads = Returned recs ->
  getItinerary reads = Returned items ->
  getSession reads = Returned session ->
  loadDataTry JSON_parse js_gt_zero db_rejects reads st
  = migrateFromLocalStorage JSON_parse js_gt_zero db_rejects
      (getStorageStats reads)
      (setIsGenerated (match session with
                       | Some sessionIsGenerated => sessionIsGenerated
                       | None => isGenerated st
                       end)
         (setItinerary items
            (setRecommendations recs
               (withPreferences prefs (setIsDbLoading true st))))).
Proof.
  intros Hp Hr Hi Hs. unfold loadDataTry. rewrite Hp, Hr, Hi, Hs.
  rewrite bind_update, bind_lift_returned.
  rewrite (bind_quiet _ (withPreferences prefs)) by apply withPreferences_run.
  rewrite bind_lift_returned, bind_update, bind_lift_returned, bind_update,
    bind_lift_returned.
  destruct session as [g|].
  - now rewrite bind_update.
  - rewrite bind_ret. f_equal.
    destruct prefs; destruct st; reflexivity.
Qed.

(** However the reads and the migration end, [loadDataFromDB] returns
    normally with the loading flag down, and it leaves the legacy storage
    as it was. *)
Theorem loadDataFromDB_ends_loading (reads : DbReads) (st : State) :
  outcome (loadDataFromDB JSON_parse js_gt_zero db_rejects recommendationsOf
             itineraryOf reads st) = Returned tt /\
  isDbLoading (final (loadDataFromDB JSON_parse js_gt_zero db_rejects
                        recommendationsOf itineraryOf reads st)) = false /\
  localStorage (final (loadDataFromDB JSON_parse js_gt_zero db_rejects
                         recommendationsOf itineraryOf reads st))
  = localStorage st.
Proof.
  unfold loadDataFromDB. rewrite tryFinally_update.
  cbn [final outcome].
  destruct (readFails reads) eqn:Hfail.
  - destruct (loadDataTry_rejected reads st Hfail)
      as [before [message [Hrun [Hls _]]]].
    rewrite (@tryCatch_thrown _ _ _ _ _ _ _ Hrun), loadFromLocalStorage_run.
    cbn [final outcome]. rewrite <- Hls.
    destruct before; repeat split; reflexivity.
  - unfold readFails in Hfail.
    destruct (getUserPreferences reads) as [prefs|] eqn:Hp;
      [|discriminate Hfail].
    destruct (getRecommendations reads) as [recs|] eqn:Hr;
      [|discriminate Hfail].
    destruct (getItinerary reads) as [items|] eqn:Hi; [|discriminate Hfail].
    destruct (getSession reads) as [session|] eqn:Hs; [|discriminate Hfail].
    pose proof (@loadDataTry_loaded reads st _ _ _ _ Hp Hr Hi Hs) as Hrun.
    destruct (migrateFromLocalStorage_quiet JSON_parse js_gt_zero db_rejects
                (getStorageStats reads)
                (setIsGenerated (match session with
                                 | Some sessionIsGenerated => sessionIsGenerated
                                 | None => isGenerated st
                                 end)
                   (setItinerary items
                      (setRecommendations recs
                         (withPreferences prefs (setIsDbLoading true st))))))
      as [Hfinal Hout].
    rewrite tryCatch_returned by (exists tt; now rewrite Hrun).
    rewrite Hrun, Hfinal, Hout.
    destruct prefs; destruct st; repeat split; reflexivity.
Qed.

(** When the four reads return, the component holds what the database
    holds: preferences and session flag if there is such a record, both
    lists in any case; the database calls are those of the migration, each
    on a record kind the Local Store has no data of, and none when the
    statistics cannot be read. *)
Theorem loadDataFromDB_from_database (reads : DbReads) (st : State)
  (prefs : option UserPreferences) (recs : list Recommendation)
  (items : list ItineraryItem) (session : option bool) :
  getUserPreferences reads = Returned prefs ->
  getRecommendations reads = Returned recs ->
  getItinerary reads = Returned items ->
  getSession reads = Returned session ->
  final (loadDataFromDB JSON_parse js_gt_zero db_rejects recommendationsOf
           itineraryOf reads st)
  = setIsDbLoading false
      (setIsGenerated (match session with
                       | Some sessionIsGenerated => sessionIsGenerated
                       | None => isGenerated st
                       end)
         (setItinerary items
            (setRecommendations recs (withPreferences prefs st)))) /\
  (forall stats : StorageStats,
     getStorageStats reads = Returned stats ->
     Forall (fun op => forall k : Kind,
                         hasData stats k = true -> touches op k = false)
       (calls (loadDataFromDB JSON_parse js_gt_zero db_rejects
                 recommendationsOf itineraryOf reads st))) /\
  (forall message : string,
     getStorageStats reads = Thrown message ->
     calls (loadDataFromDB JSON_parse js_gt_zero db_rejects recommendationsOf
              itineraryOf reads st) = []).
Proof.
  intros Hp Hr Hi Hs.
  pose proof (@loadDataTry_loaded reads st _ _ _ _ Hp Hr Hi Hs) as Hrun.
  set (loaded := setIsGenerated _ _) in Hrun.
  destruct (migrateFromLocalStorage_quiet JSON_parse js_gt_zero db_rejects
              (getStorageStats reads) loaded) as [Hfinal Hout].
  assert (Hload : loadDataFromDB JSON_parse js_gt_zero db_rejects
                    recommendationsOf itineraryOf reads st
                  = mkRun (setIsDbLoading false loaded)
                      (calls (migrateFromLocalStorage JSON_parse js_gt_zero
                                db_rejects (getStorageStats reads) loaded))
                      (Returned tt)).
  { unfold loadDataFromDB. rewrite tryFinally_update.
    rewrite tryCatch_returned by (exists tt; now rewrite Hrun).
    now rewrite Hrun, Hfinal, Hout. }
  rewrite Hload. cbn [final calls]. split; [|split].
  - subst loaded. destruct prefs; destruct st; reflexivity.
  - intros stats Hstats. rewrite Hstats.
    apply (@migrateFromLocalStorage_tame JSON_parse js_gt_zero db_rejects
             (fun op => forall k : Kind,
                          hasData stats k = true -> touches op k = false)
             stats);
      intros Hempty payload k Hk; destruct k; try reflexivity; congruence.
  - intros message Hstats. rewrite Hstats.
    apply migrateFromLocalStorage_thrown_calls.
Qed.

(** When a read rejects, no database call is made and the lists come from
    the legacy storage: each list whose entry parses is replaced by it,
    whether or not the other entry is malformed, isGenerated is raised
    when the stored flag is the text true and never lowered, and when it
    is the first read that rejects, a list without a usable entry and the
    four preference fields stay as they were. *)
Theorem loadDataFromDB_fallback (reads : DbReads) (st : State) :
  readFails reads = true ->
  calls (loadDataFromDB JSON_parse js_gt_zero db_rejects recommendationsOf
           itineraryOf reads st) = [] /\
  (forall (text : string) (parsed : JsonValue),
     localStorage st "kensho-recommendations" = Some text ->
     text <> EmptyString -> JSON_parse text = Some parsed ->
     recommendations (final (loadDataFromDB JSON_parse js_gt_zero db_rejects
                               recommendationsOf itineraryOf reads st))
     = recommendationsOf parsed) /\
  (forall (text : string) (parsed : JsonValue),
     localStorage st "kensho-itinerary" = Some text ->
     text <> EmptyString -> JSON_parse text = Some parsed ->
     itinerary (final (loadDataFromDB JSON_parse js_gt_zero db_rejects
                         recommendationsOf itineraryOf reads st))
     = itineraryOf parsed) /\
  isGenerated (final (loadDataFromDB JSON_parse js_gt_zero db_rejects
                        recommendationsOf itineraryOf reads st))
  = (isGenerated st ||
     match localStorage st "kensho-is-generated" with
     | Some flag => String.eqb flag "true"
     | None => false
     end) /\
  (forall message : string,
     getUserPreferences reads = Thrown message ->
     currentPreferences (final (loadDataFromDB JSON_parse js_gt_zero db_rejects
                                  recommendationsOf itineraryOf reads st))
     = currentPreferences st /\
     (forall text : string,
        localStorage st "kensho-recommendations" = Some text ->
        JSON_parse text = None ->
        recommendations (final (loadDataFromDB JSON_parse js_gt_zero
                                  db_rejects recommendationsOf itineraryOf
                                  reads st))
        = recommendations st)).
Proof.
  intros Hfail.
  destruct (loadDataTry_rejected reads st Hfail)
    as [before [message [Hrun [Hls [Hgen Hfirst]]]]].
  assert (Hload : loadDataFromDB JSON_parse js_gt_zero db_rejects
                    recommendationsOf itineraryOf reads st
                  = mkRun (setIsDbLoading false
                             (final (loadFromLocalStorage JSON_parse
                                       recommendationsOf itineraryOf before)))
                      [] (Returned tt)).
  { unfold loadDataFromDB. rewrite tryFinally_update.
    rewrite (@tryCatch_thrown _ _ _ _ _ _ _ Hrun), loadFromLocalStorage_run.
    reflexivity. }
  rewrite Hload, loadFromLocalStorage_run. cbn [final calls].
  rewrite Hls, Hgen.
  split; [reflexivity|]. split; [|split; [|split]].
  - intros text parsed Htext Hne Hparse. rewrite Htext.
    destruct text as [|c text]; [now elim Hne|].
    cbn [truthy]. rewrite Hparse. reflexivity.
  - intros text parsed Htext Hne Hparse.
    cbn [itinerary setIsDbLoading setIsGenerated setItinerary].
    rewrite Htext.
    destruct text as [|c text]; [now elim Hne|].
    cbn [truthy]. rewrite Hparse. reflexivity.
  - reflexivity.
  - intros thrown Hthrown.
    destruct (Hfirst thrown Hthrown) as [Hprefs [Hrecs _]].
    split.
    + rewrite <- Hprefs. destruct before; reflexivity.
    + intros text Htext Hparse.
      cbn [recommendations setIsDbLoading setIsGenerated setItinerary
           setRecommendations].
      rewrite Htext, Hparse, Hrecs. now destruct (truthy text).
Qed.

End LoadingTheorems.

Lemma loadDataFromDB_from_database_witness :
  calls (loadDataFromDB scenarioParse (fun _ => false) reliableDb
           scenarioRecommendationsOf scenarioItineraryOf
           (mkDbReads (Returned None) (Returned []) (Returned [])
              (Returned None) (Thrown "The database is not available"))
           legacyState) = [].
Proof.
  apply (proj2 (proj2 (@loadDataFromDB_from_database scenarioParse
                         (fun _ => false) reliableDb scenarioRecommendationsOf
                         scenarioItineraryOf
                         (mkDbReads (Returned None) (Returned []) (Returned [])
                            (Returned None)
                            (Thrown "The database is not available"))
                         legacyState None [] [] None
                         eq_refl eq_refl eq_refl eq_refl))
           "The database is not available").
  reflexivity.
Defined.

Lemma loadDataFromDB_fallback_witness :
  map rec_id
    (map item_rec
       (itinerary (final (loadDataFromDB scenarioParse (fun _ => false)
                            reliableDb scenarioRecommendationsOf
                            scenarioItineraryOf brokenReads
                            (setLocalStorage fallbackStorage scenarioState)))))
  = ["A"; "B"; "Z"].
Proof.
  rewrite (proj1 (proj2 (proj2 (@loadDataFromDB_fallback scenarioParse
                                  (fun _ => false) reliableDb
                                  scenarioRecommendationsOf scenarioItineraryOf
                                  brokenReads
                                  (setLocalStorage fallbackStorage
                                     scenarioState)
                                  eq_refl)))
             plainReply (JArray [JString "A"; JString "B"; JString "Z"])).
  - reflexivity.
  - reflexivity.
  - discriminate.
  - reflexivity.
Defined.

Example loadDataFromDB_broken_database :
  let r := loadDataFromDB scenarioParse (fun _ => false) reliableDb
             scenarioRecommendationsOf scenarioItineraryOf brokenReads
             (setLocalStorage fallbackStorage scenarioState) in
  isDbLoading (final r) = false /\
  map rec_id (recommendations (final r)) = ["A"; "B"; "C"] /\
  map item_id (itinerary (final r)) = ["A"; "B"; "Z"] /\
  calls r = [].
Proof. cbv zeta. repeat split; vm_compute; reflexivity. Qed.

(** ** The chat of the map *)

Lemma filter_isOrdinary_idem (l : list ChatMessage) :
  filter isOrdinary (filter isOrdinary l) = filter isOrdinary l.
Proof.
  induction l as [|msg l IH]; [reflexivity|]. simpl.
  destruct (isOrdinary msg) eqn:E; simpl; [rewrite E; now f_equal | exact IH].
Qed.

(** The welcome of the chat: once preferences are loaded the personalized
    welcome is the first message and the only welcome (the generic one,
    with id 1, and any earlier personalized one are gone), every other
    message stays, in order; a second run with other preferences leaves
    what it would have left without the first; without preferences
    nothing changes. *)
Theorem welcomeEffect_single_welcome (p p' : UserPreferences) (now now' : nat)
  (prev : list ChatMessage) :
  hd_error (welcomeEffect (Some p) now prev) = Some (personalizedWelcome p now)
  /\ filter (fun msg => negb (isOrdinary msg)) (welcomeEffect (Some p) now prev)
     = [personalizedWelcome p now] /\
  filter isOrdinary (welcomeEffect (Some p) now prev) = filter isOrdinary prev /\
  welcomeEffect (Some p') now' (welcomeEffect (Some p) now prev)
  = welcomeEffect (Some p') now' prev /\
  welcomeEffect (Some p) now [genericWelcome now'] = [personalizedWelcome p now]
  /\ welcomeEffect None now prev = prev.
Proof.
  unfold welcomeEffect. cbv zeta.
  assert (Hnone : filter (fun msg => negb (isOrdinary msg))
                    (filter isOrdinary prev) = []).
  { induction prev as [|msg l IH]; [reflexivity|]. simpl.
    destruct (isOrdinary msg) eqn:E; simpl; [now rewrite E | exact IH]. }
  split; [reflexivity|]. split; [|split; [|split; [|split]]].
  - cbn [filter]. change (isOrdinary (personalizedWelcome p now)) with false.
    cbn [negb]. now rewrite Hnone.
  - cbn [filter]. change (isOrdinary (personalizedWelcome p now)) with false.
    apply filter_isOrdinary_idem.
  - cbn [filter]. change (isOrdinary (personalizedWelcome p now)) with false.
    now rewrite filter_isOrdinary_idem.
  - reflexivity.
  - reflexivity.
Qed.

Lemma decimal_injective (n m : nat) : decimal n = decimal m -> n = m.
Proof.
  unfold decimal. intros H.
  apply (f_equal NilEmpty.uint_of_string) in H.
  rewrite !NilEmpty.usu in H. injection H as H.
  apply (f_equal Nat.of_uint) in H.
  now rewrite !DecimalNat.Unsigned.of_to in H.
Qed.

(** A message of white space only is not sent and changes nothing.  Any
    other message is appended as it was typed, followed by one assistant
    message that always carries the four suggestions: the text of the
    model, or the fallback text when the model call fails; the input is
    emptied, the typing flag is down, and the two new ids differ if the
    clock did not go back. *)
Theorem handleSendMessage_exchange (now : nat -> nat) (answer : Outcome string)
  (st : ChatState) :
  (blank (currentMessage st) = true -> handleSendMessage now answer st = st) /\
  (blank (currentMessage st) = false ->
   exists userMessage reply : ChatMessage,
     handleSendMessage now answer st
     = mkChatState (chatMessages st ++ [userMessage; reply]) "" false /\
     msg_type userMessage = FromUser /\
     content userMessage = currentMessage st /\
     msg_type reply = FromAssistant /\
     content reply = match answer with
                     | Returned text => text
                     | Thrown _ => fallbackAnswer
                     end /\
     suggestions reply = Some answerSuggestions /\
     (now 0%nat <= now 2%nat -> msg_id userMessage <> msg_id reply)%nat) /\
  isTyping (sendUserMessage now st) = true /\
  (forall suggestion : string,
     In suggestion answerSuggestions ->
     exists reply : ChatMessage,
       chatMessages (handleSendMessage now answer
                       (handleSuggestionClick suggestion st))
       = chatMessages st
         ++ [mkChatMessage (decimal (now 0%nat)) FromUser suggestion
               (now 1%nat) None; reply]).
Proof.
  assert (Hsend : forall s : ChatState,
            blank (currentMessage s) = false ->
            handleSendMessage now answer s
            = receiveAnswer now (generateAIResponse answer)
                (sendUserMessage now s)).
  { intros s Hs. unfold handleSendMessage. now rewrite trim_truthy, Hs. }
  split; [|split; [|split]].
  - intros Hblank. unfold handleSendMessage.
    now rewrite trim_truthy, Hblank.
  - intros Htext. rewrite (Hsend st Htext).
    unfold receiveAnswer, sendUserMessage, generateAIResponse. cbv zeta.
    cbn [chatMessages currentMessage].
    destruct answer as [text | message].
    all: eexists; eexists; rewrite <- app_assoc;
      (split; [reflexivity|]); cbn [msg_type content suggestions msg_id app];
      repeat (split; [reflexivity|]);
      intros Hclock Hid; apply decimal_injective in Hid; lia.
  - reflexivity.
  - intros suggestion Hin.
    assert (Hs : blank (currentMessage (handleSuggestionClick suggestion st))
                 = false).
    { cbn [handleSuggestionClick currentMessage]. simpl in Hin.
      destruct Hin as [<-|[<-|[<-|[<-|[]]]]]; reflexivity. }
    rewrite (Hsend _ Hs).
    unfold receiveAnswer, sendUserMessage, handleSuggestionClick. cbv zeta.
    cbn [chatMessages currentMessage].
    eexists. rewrite <- app_assoc. reflexivity.
Qed.

Lemma handleSendMessage_exchange_witness :
  handleSendMessage (fun k => 1700 + k)%nat (Thrown "offline")
    (mkChatState [genericWelcome 0] "   " false)
  = mkChatState [genericWelcome 0] "   " false.
Proof.
  apply (proj1 (handleSendMessage_exchange (fun k => 1700 + k)%nat
                  (Thrown "offline")
                  (mkChatState [genericWelcome 0] "   " false))).
  reflexivity.
Defined.
